(** * MiniPlayer: a shallow embedding of the playback / track-list core

    The development follows the layout of the Python package:

    - [Py]            the few Python built-ins the code relies on
                      ([str.lower], [str.endswith], [int(...)], [str(...)],
                      [in] on strings);
    - [ConfigManager] [miniplayer/core/config_manager.py];
    - [TrackManager]  [miniplayer/core/track_manager.py];
    - [Player]        [miniplayer/core/audio_player.py] together with the
                      slots of [miniplayer/ui/main_window.py] that drive it;
    - [Floats]        the floats of Python and of the audio output, and
                      the fade computed on them;
    - [Helpers]       the time labels of [miniplayer/utils/helpers.py];
    - [Ui]            the further slots of the window: the search box, the
                      progress bar, the dialogs, the keys and the saving of
                      the settings;
    - [Session]       the states a running window can reach, the vocabulary
                      of the properties, and a sample music folder;
    - [Invariants]    what holds of a window throughout a session.

    The properties follow the modules.  Gains and playback rates are Python
    floats in the source.  In [Player] they are the exact rationals that
    the code writes ([volume / 100.0] is the hundredth of the level); in
    [Floats] they are the floats that the program holds, every operation
    rounded, and the length of a fade and the values of the progress bar,
    which rounding decides, are stated there.  Strings are ASCII strings.
    The media player and the audio output of the toolkit are modelled by
    what the code relies on: a playback state whose changes are announced
    synchronously to the connected slot, a position, a rate and a gain. *)

From Stdlib Require Import ZArith QArith Qpower Lqa Lia String Ascii List Bool.
From stdpp Require Import base option list gmap strings.
Import ListNotations.

Local Open Scope string_scope.
Local Open Scope Z_scope.

(* ===================================================================== *)
(** ** Python built-ins *)
(* ===================================================================== *)

Module Py.

(** Exceptions that the modelled code can meet; the last three are the
    errors of [configparser]'s value interpolation. *)
Inductive exn : Type :=
| ValueError
| TypeError
| InterpolationSyntaxError
| InterpolationMissingOptionError
| InterpolationDepthError.

(** The outcome of evaluating a Python expression. *)
Inductive result (A : Type) : Type :=
| Ok (a : A)
| Raise (e : exn).
Arguments Ok {A} a.
Arguments Raise {A} e.

#[export] Instance result_ret : MRet result := @Ok.
#[export] Instance result_bind : MBind result := fun A B f m =>
  match m with
  | Ok a => f a
  | Raise e => Raise e
  end.

(** [try: body except (ValueError, TypeError): handler]; any other
    exception goes on to the caller. *)
Definition try_except {A} (body : result A) (handler : A) : result A :=
  match body with
  | Ok a => Ok a
  | Raise ValueError => Ok handler
  | Raise TypeError => Ok handler
  | Raise e => Raise e
  end.

Definition lower_ascii (c : ascii) : ascii :=
  let n := nat_of_ascii c in
  if ((65 <=? n)%nat && (n <=? 90)%nat)%bool then ascii_of_nat (n + 32) else c.

(** [s.lower()] *)
Fixpoint lower (s : string) : string :=
  match s with
  | EmptyString => EmptyString
  | String c r => String (lower_ascii c) (lower r)
  end.

(** [s.endswith(suffix)] for one suffix *)
Definition endswith1 (s suffix : string) : bool :=
  let n := String.length s in
  let k := String.length suffix in
  ((k <=? n)%nat && String.eqb (substring (n - k) k s) suffix)%bool.

(** [s.endswith(suffixes)] for a tuple of suffixes *)
Definition endswith (s : string) (suffixes : list string) : bool :=
  existsb (endswith1 s) suffixes.

(** [x in (a, b, ...)] on strings *)
Definition str_in (x : string) (xs : list string) : bool :=
  existsb (String.eqb x) xs.

(** [str(b)] for a bool *)
Definition str_of_bool (b : bool) : string :=
  if b then "True" else "False".

(** Truthiness of an optional string: [None] and [""] are falsy. *)
Definition truthy (o : option string) : bool :=
  match o with
  | Some s => negb (String.eqb s "")
  | None => false
  end.

(** *** [int(s)] on a string: surrounding whitespace, an optional sign,
    decimal digits, single underscores between digits. *)

Definition is_space (c : ascii) : bool :=
  let n := nat_of_ascii c in
  (((9 <=? n)%nat && (n <=? 13)%nat) || ((28 <=? n)%nat && (n <=? 32)%nat))%bool.

Definition digit_of (c : ascii) : option Z :=
  let n := nat_of_ascii c in
  if ((48 <=? n)%nat && (n <=? 57)%nat)%bool then Some (Z.of_nat (n - 48)) else None.

Fixpoint lstrip (cs : list ascii) : list ascii :=
  match cs with
  | c :: r => if is_space c then lstrip r else cs
  | [] => []
  end.

Definition strip (cs : list ascii) : list ascii :=
  rev (lstrip (rev (lstrip cs))).

(** [digits acc after_digit cs]: [after_digit] tells whether the previous
    character was a digit (an underscore is accepted only there, and the
    literal must end in a digit). *)
Fixpoint digits (acc : Z) (after_digit : bool) (cs : list ascii) : option Z :=
  match cs with
  | [] => if after_digit then Some acc else None
  | c :: r =>
      match digit_of c with
      | Some d => digits (10 * acc + d) true r
      | None =>
          if (Ascii.eqb c "_"%char && after_digit)%bool
          then match r with
               | [] => None
               | _ => digits acc false r
               end
          else None
      end
  end.

Definition int_of_chars (cs : list ascii) : option Z :=
  match strip cs with
  | c :: r =>
      if Ascii.eqb c "-"%char then Z.opp <$> digits 0 false r
      else if Ascii.eqb c "+"%char then digits 0 false r
      else digits 0 false (c :: r)
  | [] => None
  end.

(** [int(s)]: a [ValueError] when the text is not an integer literal. *)
Definition int_of_str (s : string) : result Z :=
  match int_of_chars (list_ascii_of_string s) with
  | Some z => Ok z
  | None => Raise ValueError
  end.

(** *** [str(n)] of an integer: decimal digits, a minus sign if negative
    (for the integers below the interpreter's limit on the length of a
    conversion, far above any value of a slider) *)

Definition digit_char (d : Z) : ascii := ascii_of_nat (48 + Z.to_nat d).

(** The decimal digits of [n >= 0]; [steps] bounds the number of digits. *)
Fixpoint decimal (steps : nat) (n : Z) : list ascii :=
  match steps with
  | O => []
  | S steps =>
      if n <? 10 then [digit_char n]
      else (decimal steps (n / 10) ++ [digit_char (n mod 10)])%list
  end.

Definition decimal_of (n : Z) : list ascii :=
  decimal (S (Z.to_nat (Z.log2 n))) n.

Definition str_of_Z (n : Z) : string :=
  string_of_list_ascii
    (if n <? 0 then "-"%char :: decimal_of (- n) else decimal_of n).

(** [f"{n:02d}"]: at least two characters, filled with a zero. *)
Definition pad2 (n : Z) : string :=
  let s := str_of_Z n in
  if (String.length s <? 2)%nat then "0" ++ s else s.

(** [sub in s] on strings *)
Fixpoint contains (sub s : string) : bool :=
  (String.prefix sub s ||
   match s with
   | EmptyString => false
   | String _ r => contains sub r
   end)%bool.
End Py.

(* ===================================================================== *)
(** ** [miniplayer/core/config_manager.py] *)
(* ===================================================================== *)

Module ConfigManager.
Import Py.

(** A [configparser.ConfigParser]: sections, each a dictionary from option
    names to string values.  Option names are case-insensitive (the parser
    lower-cases them).  The [DEFAULT] section is empty and not modelled. *)
Record t : Type := {
  config_file : string;
  config_section : string;
  config : gmap string (gmap string string)
}.

Definition optionxform (key : string) : string := lower key.

Definition has_section (c : t) (section : string) : bool :=
  bool_decide (is_Some (config c !! section)).

(** *** Value interpolation

    [ConfigParser.get] passes a stored value through the parser's basic
    interpolation: [%%] stands for a percent sign, [%(name)s] for the value
    of the option [name] of the same section, to a nesting depth of 10; any
    other use of [%] is an error.  A value without [%] comes back as it is
    stored. *)

Definition is_percent (c : ascii) : bool := Ascii.eqb c "%"%char.

Definition has_percent (cs : list ascii) : bool := existsb is_percent cs.

(** The text before the first [%], and the text from it on. *)
Fixpoint split_at_percent (cs : list ascii) : list ascii * list ascii :=
  match cs with
  | [] => ([], [])
  | c :: r =>
      if is_percent c then ([], cs)
      else let '(pre, rest) := split_at_percent r in (c :: pre, rest)
  end.

(** The characters up to the first [)], and the text from it on. *)
Fixpoint split_at_paren (cs : list ascii) : list ascii * list ascii :=
  match cs with
  | [] => ([], [])
  | c :: r =>
      if Ascii.eqb c ")"%char then ([], cs)
      else let '(name, rest) := split_at_paren r in (c :: name, rest)
  end.

(** The text after [%(]: a non-empty name closed by [)s], and what
    follows. *)
Definition match_key (cs : list ascii) : option (list ascii * list ascii) :=
  match split_at_paren cs with
  | (c :: name, _ :: s :: rest) =>
      if Ascii.eqb s "s"%char then Some (c :: name, rest) else None
  | _ => None
  end.

(** One level of interpolation; [nested] interpolates a referenced value
    one level deeper.  Each round of the loop consumes at least two
    characters, so the length of the text bounds the rounds. *)
Fixpoint interpolate_some (nested : list ascii -> result (list ascii))
    (opts : gmap string string) (rounds : nat) (rest : list ascii)
  : result (list ascii) :=
  match rest, rounds with
  | [], _ => Ok []
  | _, O => Ok rest
  | _, S rounds =>
      if negb (has_percent rest) then Ok rest
      else
        let '(pre, rest) := split_at_percent rest in
        match rest with
        | _ :: c :: r =>
            if Ascii.eqb c "%"%char then
              tail ← interpolate_some nested opts rounds r;
              Ok (pre ++ "%"%char :: tail)%list
            else if Ascii.eqb c "("%char then
              match match_key r with
              | None => Raise InterpolationSyntaxError
              | Some (name, r) =>
                  match opts !! optionxform (string_of_list_ascii name) with
                  | None => Raise InterpolationMissingOptionError
                  | Some v =>
                      let v := list_ascii_of_string v in
                      x ← (if has_percent v then nested v else Ok v);
                      tail ← interpolate_some nested opts rounds r;
                      Ok (pre ++ x ++ tail)%list
                  end
              end
            else Raise InterpolationSyntaxError
        | _ => Raise InterpolationSyntaxError
        end
  end.

Fixpoint interpolate_depth (levels : nat) (opts : gmap string string)
    (value : list ascii) : result (list ascii) :=
  match levels with
  | O => Raise InterpolationDepthError
  | S levels =>
      interpolate_some (interpolate_depth levels opts) opts
        (length value) value
  end.

Definition MAX_INTERPOLATION_DEPTH : nat := 10.

Definition interpolate (opts : gmap string string) (value : string)
  : result string :=
  x ← interpolate_depth MAX_INTERPOLATION_DEPTH opts
        (list_ascii_of_string value);
  Ok (string_of_list_ascii x).

(** [self.config.get(section, key, fallback=fallback)] of a present
    section: the interpolated stored text, or the fallback object. *)
Definition config_get {A} (c : t) (section key : string) (fallback : A)
  : result (string + A) :=
  match config c !! section with
  | Some opts =>
      match opts !! optionxform key with
      | Some v => x ← interpolate opts v; Ok (inl x)
      | None => Ok (inr fallback)
      end
  | None => Ok (inr fallback)
  end.

(** [get(key, fallback)] *)
Definition get {A} (c : t) (key : string) (fallback : A)
  : result (string + A) :=
  if negb (has_section c (config_section c)) then Ok (inr fallback)
  else config_get c (config_section c) key fallback.

(** [get_int(key, fallback)]:
<<
    try:
        return int(self.get(key, fallback))
    except (ValueError, TypeError):
        return fallback
>> *)
Definition get_int (c : t) (key : string) (fallback : Z) : result Z :=
  try_except
    (v ← get c key fallback;
     match v with
     | inl s => int_of_str s
     | inr z => Ok z
     end)
    fallback.

(** [get_bool(key, fallback)]:
<<
    value = self.get(key, str(fallback))
    return value.lower() in ("true", "yes", "1", "on")
>> *)
Definition get_bool (c : t) (key : string) (fallback : bool) : result bool :=
  v ← get c key (str_of_bool fallback);
  let value := match v with
               | inl s => s
               | inr s => s
               end in
  Ok (str_in (lower value) ["true"; "yes"; "1"; "on"]).

(** [self.defaults] *)
Definition defaults : list (string * string) :=
  [("volume", "50"); ("speed", "100"); ("repeat", "False"); ("mute", "False");
   ("play_all", "False"); ("last_folder", ""); ("last_track", "")].

(** [ConfigManager(config_file, section)] when there is no settings file:
    [load_settings] creates the section and stores the defaults. *)
Definition new (config_file section : string) : t :=
  {| config_file := config_file;
     config_section := section;
     config := {[ section := list_to_map defaults ]} |}.

(** The stored text of [key], if any. *)
Definition stored (c : t) (key : string) : option string :=
  config c !! config_section c ≫= fun opts => opts !! optionxform key.

(** A stored text that interpolation leaves as it is. *)
Definition plain (s : string) : Prop :=
  has_percent (list_ascii_of_string s) = false.

(** A stored text is unparsable as an integer when [int] rejects it. *)
Definition unparsable_int (s : string) : Prop :=
  int_of_str s = Raise ValueError.

(** The texts [configparser] reads as booleans. *)
Definition boolean_states : list string :=
  ["1"; "yes"; "true"; "on"; "0"; "no"; "false"; "off"].

Definition unparsable_bool (s : string) : Prop :=
  str_in (lower s) boolean_states = false.

(** *** [set]

    [ConfigParser.set] checks a non-empty value before storing it: with
    every [%%] and then every [%(name)s] taken out, no [%] may be left. *)

(** [value.replace('%%', '')] *)
Fixpoint drop_double_percent (cs : list ascii) : list ascii :=
  match cs with
  | c1 :: ((c2 :: r) as t) =>
      if (is_percent c1 && is_percent c2)%bool then drop_double_percent r
      else c1 :: drop_double_percent t
  | _ => cs
  end.

(** The references [%(name)s] are cut out from left to right. *)
Fixpoint drop_references (rounds : nat) (cs : list ascii) : list ascii :=
  match rounds with
  | O => cs
  | S rounds =>
      match cs with
      | c1 :: c2 :: r =>
          if (is_percent c1 && Ascii.eqb c2 "("%char)%bool then
            match match_key r with
            | Some (_, rest) => drop_references rounds rest
            | None => c1 :: drop_references rounds (c2 :: r)
            end
          else c1 :: drop_references rounds (c2 :: r)
      | _ => cs
      end
  end.

Definition before_set (value : string) : result string :=
  let cs := drop_double_percent (list_ascii_of_string value) in
  if has_percent (drop_references (length cs) cs) then Raise ValueError
  else Ok value.

(** [set(key, value)], with [value] already turned into text by [str]:
    the section is added when it is missing (which the parser refuses for
    the name [DEFAULT]), then the value is checked and stored under the
    lower-cased key. *)
Definition set (c : t) (key value : string) : result t :=
  let sec := config_section c in
  _ ← (if (negb (has_section c sec) && String.eqb sec "DEFAULT")%bool
       then Raise ValueError else Ok tt);
  value ← (if String.eqb value "" then Ok value else before_set value);
  let opts := default ∅ (config c !! sec) in
  Ok {| config_file := config_file c;
        config_section := sec;
        config := <[sec := <[optionxform key := value]> opts]> (config c) |}.


(** A section of its own: not the parser's [DEFAULT] section, which
    cannot be added, and not the empty name, whose options the parser
    keeps with the defaults. *)
Definition named_section (c : t) : Prop :=
  config_section c <> "" /\ config_section c <> "DEFAULT".

(** Every stored text comes back from [get] as it is. *)
Definition all_plain (c : t) : Prop :=
  forall key s, stored c key = Some s -> plain s.
End ConfigManager.

(* ===================================================================== *)
(** ** [miniplayer/core/track_manager.py] *)
(* ===================================================================== *)

Module TrackManager.
Import Py.

(** What the code asks of the operating system.  [fs_walk folder] is the
    sequence yielded by [os.walk(folder)], each entry a directory and the
    names of the files in it (the sub-directory component is ignored by
    the code). *)
Record FileSystem : Type := {
  fs_exists : string -> bool;
  fs_is_dir : string -> bool;
  fs_walk : string -> list (string * list string)
}.

Record t : Type := {
  supported_extensions : list string;
  current_folder : option string;
  track_list : list string
}.

(** [TrackManager()] with the default extensions *)
Definition init : t :=
  {| supported_extensions := [".mp3"; ".flac"; ".wav"; ".ogg"];
     current_folder := None;
     track_list := [] |}.

Definition set_current_folder (f : option string) (tm : t) : t :=
  {| supported_extensions := supported_extensions tm;
     current_folder := f;
     track_list := track_list tm |}.

Definition set_track_list (l : list string) (tm : t) : t :=
  {| supported_extensions := supported_extensions tm;
     current_folder := current_folder tm;
     track_list := l |}.

(** [p.split('/')] *)
Fixpoint split_slash (p : string) : list string :=
  match p with
  | EmptyString => [EmptyString]
  | String c r =>
      if Ascii.eqb c "/"%char then EmptyString :: split_slash r
      else match split_slash r with
           | part :: parts => String c part :: parts
           | [] => [String c EmptyString]
           end
  end.

(** ['/'.join(parts)] *)
Fixpoint join_slash (parts : list string) : string :=
  match parts with
  | [] => ""
  | [part] => part
  | part :: parts => part ++ "/" ++ join_slash parts
  end.

(** How [pathlib] reads a path: the root is one slash, or two when the
    path begins with exactly two; the parts are the names between the
    slashes, the empty ones and the dots left out. *)
Definition path_root (p : string) : string :=
  if String.prefix "/" p then
    if (String.prefix "//" p && negb (String.prefix "///" p))%bool
    then "//" else "/"
  else "".

Definition path_parts (p : string) : list string :=
  List.filter (fun part => negb (str_in part [""; "."])) (split_slash p).

(** The text of a path with the given root and parts; the path with
    neither is the current directory. *)
Definition path_str (root : string) (parts : list string) : string :=
  match root, parts with
  | EmptyString, [] => "."
  | _, _ => root ++ join_slash parts
  end.

(** [str(Path(p))] *)
Definition Path (p : string) : string :=
  path_str (path_root p) (path_parts p).

(** [os.path.join(root, file)] *)
Definition path_join (root file : string) : string :=
  if String.eqb root "" then file else root ++ "/" ++ file.

(** [os.path.relpath(path, start)] for a [path] below [start] *)
Definition relpath (path start : string) : string :=
  let p := start ++ "/" in
  if String.prefix p path
  then substring (String.length p) (String.length path - String.length p) path
  else path.

Definition is_supported (tm : t) (file : string) : bool :=
  endswith (lower file) (supported_extensions tm).

(** First pass of [scan_folder]: count the matching files. *)
Definition count_files (tm : t) (walk : list (string * list string)) : Z :=
  fold_left
    (fun total '(root, files) =>
       fold_left
         (fun total file => if is_supported tm file then total + 1 else total)
         files total)
    walk 0.

Section Scan.
(** The progress callback is a procedure of the caller: it acts on the
    caller's state [S] and returns a value. *)
Context {S : Type}.
Variable fs : FileSystem.

Definition callback_t : Type := Z -> Z -> S -> bool * S.

(** The loop state of the second pass: the result list, the number of
    files found and the caller's state. *)
Definition scan_file (tm : t) (folder : string) (callback : option callback_t)
    (total_files : Z) (root : string)
    (acc : list string * Z * S) (file : string) : list string * Z * S :=
  let '(result, found_files, s) := acc in
  if is_supported tm file then
    let rel_path := relpath (path_join root file) folder in
    let result := (result ++ [rel_path])%list in
    let found_files := found_files + 1 in
    (* if callback: callback(found_files, total_files) -- value dropped *)
    let s := match callback with
             | Some cb => snd (cb found_files total_files s)
             | None => s
             end in
    (result, found_files, s)
  else acc.

(** [scan_folder(callback)]: the returned list, the manager and the
    caller's state afterwards. *)
Definition scan_folder (callback : option callback_t) (s : S) (tm : t)
  : list string * t * S :=
  if negb (truthy (current_folder tm)) then ([], tm, s)
  else
    let folder_path := default "" (current_folder tm) in
    let walk := fs_walk fs folder_path in
    let total_files := count_files tm walk in
    let '(result, _, s) :=
      fold_left
        (fun acc '(root, files) =>
           fold_left (scan_file tm folder_path callback total_files root)
                     files acc)
        walk ([], 0, s) in
    (result, set_track_list result tm, s).

(** [set_folder(folder_path)] *)
Definition set_folder (folder_path : string) (s : S) (tm : t) : bool * t * S :=
  let path := Path folder_path in
  if (negb (fs_exists fs path) || negb (fs_is_dir fs path))%bool
  then (false, tm, s)
  else
    let tm := set_current_folder (Some path) tm in
    let '(_, tm, s) := scan_folder None s tm in
    (true, tm, s).

(** [get_absolute_path(relative_path)] *)
Definition get_absolute_path (tm : t) (relative_path : string) : option string :=
  if negb (truthy (current_folder tm)) then None
  else Some (path_join (default "" (current_folder tm)) relative_path).

End Scan.

(** The scan that the specification describes: the walk stops at the
    first file for which the callback answers [false]; that file is kept. *)
Section ScanSpec.
Context {S : Type}.

Fixpoint scan_until_cancel (tm : t) (folder : string)
    (callback : Z -> Z -> S -> bool * S) (total : Z)
    (files : list (string * string)) (found : Z) (s : S) : list string :=
  match files with
  | [] => []
  | (root, file) :: rest =>
      if is_supported tm file then
        let rel_path := relpath (path_join root file) folder in
        let '(go_on, s) := callback (found + 1) total s in
        if go_on
        then rel_path :: scan_until_cancel tm folder callback total rest (found + 1) s
        else [rel_path]
      else scan_until_cancel tm folder callback total rest found s
  end.

End ScanSpec.

(** [filter_tracks(search_text)] *)
Definition filter_tracks (tm : t) (search_text : string)
  : list (string * bool) :=
  if String.eqb search_text "" then map (fun track => (track, true)) (track_list tm)
  else
    let search_lower := lower search_text in
    map (fun track => (track, contains search_lower (lower track)))
        (track_list tm).

(** What the two passes of [scan_folder] go through: the files of the
    walk, each with its directory, in the order of the walk. *)
Definition walked (walk : list (string * list string)) : list (string * string) :=
  flat_map (fun '(root, files) => map (fun file => (root, file)) files) walk.

(** The catalog as one expression: the supported files of the walk, as
    paths relative to the folder. *)
Definition catalog_of (tm : t) (folder : string)
    (walk : list (string * list string)) : list string :=
  map (fun '(root, file) => relpath (path_join root file) folder)
      (List.filter (fun '(root, file) => is_supported tm file) (walked walk)).

(** A callback that keeps a record of its calls. *)
Definition recording : Z -> Z -> list (Z * Z) -> bool * list (Z * Z) :=
  fun current total calls => (true, (calls ++ [(current, total)])%list).

(** The calls [(1, n), (2, n), ..., (k, n)]. *)
Definition progress_calls (k : nat) (n : Z) : list (Z * Z) :=
  map (fun i => (Z.of_nat i, n)) (List.seq 1 k).

End TrackManager.

(* ===================================================================== *)
(** ** [miniplayer/core/audio_player.py] and the slots of
       [miniplayer/ui/main_window.py] *)
(* ===================================================================== *)

Module Player.
Import Py.

(** *** The toolkit's enumerations *)

Inductive PlaybackState : Type :=
| StoppedState
| PlayingState
| PausedState.

Inductive MediaStatus : Type :=
| NoMedia
| LoadingMedia
| LoadedMedia
| StalledMedia
| BufferingMedia
| BufferedMedia
| EndOfMedia
| InvalidMedia.

Inductive Icon : Type :=
| play_png
| pause_png.

Definition PlaybackState_eqb (a b : PlaybackState) : bool :=
  match a, b with
  | StoppedState, StoppedState => true
  | PlayingState, PlayingState => true
  | PausedState, PausedState => true
  | _, _ => false
  end.

Definition MediaStatus_is_end (s : MediaStatus) : bool :=
  match s with
  | EndOfMedia => true
  | _ => false
  end.

(** The calls made on the media player and the audio output, in the order
    in which they are made.  The log is ghost state: the code never reads
    it; it lets a property speak of what was issued to the audio service. *)
Inductive Command : Type :=
| setSource (url : string)
| play_cmd
| pause_cmd
| stop_cmd
| setPosition (position : Z)
| setPlaybackRate (rate : Q)
| setVolume (volume : Q).

(** *** Widgets *)

Record QCheckBox : Type := {
  isChecked : bool;
  signalsBlocked : bool
}.

Record QSlider : Type := {
  minimum : Z;
  maximum : Z;
  value : Z
}.

(** The playlist view; [currentRow] is [-1] when nothing is selected. *)
Record QListWidget : Type := {
  items : list string;
  currentRow : Z;
  listSignalsBlocked : bool
}.

(** The progress dialog of a folder scan. *)
Record QProgressDialog : Type := {
  dialog_value : Z;
  wasCanceled : bool
}.

(** *** [AudioPlayer]: the media player, the audio output and the fade *)

Record AudioPlayer : Type := {
  playbackState : PlaybackState;
  position : Z;
  duration : Z;
  playbackRate : Q;
  volume : Q;
  timer_active : bool;
  current_track_url : option string;
  fade_timer_active : bool;
  original_volume : Q;
  commands : list Command
}.

Definition fade_duration : Z := 500.
Definition fade_steps : Z := 10.
Definition fade_interval : Z := fade_duration / fade_steps.

(** *** [MainWindow] *)

Record MainWindow : Type := {
  audio_player : AudioPlayer;
  track_manager : TrackManager.t;
  user_stopped : bool;
  ignore_auto_advance : bool;
  btn_repeat : QCheckBox;
  btn_mute : QCheckBox;
  btn_play_all : QCheckBox;
  volume_slider : QSlider;
  speed_slider : QSlider;
  playlist : QListWidget;
  btn_play_pause : Icon;
  btn_reset : bool;
  btn_prev : bool;
  btn_next : bool;
  warnings : list string
}.

(** Field updates. *)

Definition ap_state (s : PlaybackState) (p : AudioPlayer) : AudioPlayer :=
  {| playbackState := s; position := position p; duration := duration p;
     playbackRate := playbackRate p; volume := volume p;
     timer_active := timer_active p; current_track_url := current_track_url p;
     fade_timer_active := fade_timer_active p;
     original_volume := original_volume p; commands := commands p |}.

Definition ap_position (x : Z) (p : AudioPlayer) : AudioPlayer :=
  {| playbackState := playbackState p; position := x; duration := duration p;
     playbackRate := playbackRate p; volume := volume p;
     timer_active := timer_active p; current_track_url := current_track_url p;
     fade_timer_active := fade_timer_active p;
     original_volume := original_volume p; commands := commands p |}.

Definition ap_duration (x : Z) (p : AudioPlayer) : AudioPlayer :=
  {| playbackState := playbackState p; position := position p; duration := x;
     playbackRate := playbackRate p; volume := volume p;
     timer_active := timer_active p; current_track_url := current_track_url p;
     fade_timer_active := fade_timer_active p;
     original_volume := original_volume p; commands := commands p |}.

Definition ap_rate (x : Q) (p : AudioPlayer) : AudioPlayer :=
  {| playbackState := playbackState p; position := position p;
     duration := duration p; playbackRate := x; volume := volume p;
     timer_active := timer_active p; current_track_url := current_track_url p;
     fade_timer_active := fade_timer_active p;
     original_volume := original_volume p; commands := commands p |}.

Definition ap_volume (x : Q) (p : AudioPlayer) : AudioPlayer :=
  {| playbackState := playbackState p; position := position p;
     duration := duration p; playbackRate := playbackRate p; volume := x;
     timer_active := timer_active p; current_track_url := current_track_url p;
     fade_timer_active := fade_timer_active p;
     original_volume := original_volume p; commands := commands p |}.

Definition ap_timer (x : bool) (p : AudioPlayer) : AudioPlayer :=
  {| playbackState := playbackState p; position := position p;
     duration := duration p; playbackRate := playbackRate p;
     volume := volume p; timer_active := x;
     current_track_url := current_track_url p;
     fade_timer_active := fade_timer_active p;
     original_volume := original_volume p; commands := commands p |}.

Definition ap_url (x : option string) (p : AudioPlayer) : AudioPlayer :=
  {| playbackState := playbackState p; position := position p;
     duration := duration p; playbackRate := playbackRate p;
     volume := volume p; timer_active := timer_active p;
     current_track_url := x; fade_timer_active := fade_timer_active p;
     original_volume := original_volume p; commands := commands p |}.

Definition ap_fade_timer (x : bool) (p : AudioPlayer) : AudioPlayer :=
  {| playbackState := playbackState p; position := position p;
     duration := duration p; playbackRate := playbackRate p;
     volume := volume p; timer_active := timer_active p;
     current_track_url := current_track_url p; fade_timer_active := x;
     original_volume := original_volume p; commands := commands p |}.

Definition ap_original_volume (x : Q) (p : AudioPlayer) : AudioPlayer :=
  {| playbackState := playbackState p; position := position p;
     duration := duration p; playbackRate := playbackRate p;
     volume := volume p; timer_active := timer_active p;
     current_track_url := current_track_url p;
     fade_timer_active := fade_timer_active p;
     original_volume := x; commands := commands p |}.

Definition ap_log (c : Command) (p : AudioPlayer) : AudioPlayer :=
  {| playbackState := playbackState p; position := position p;
     duration := duration p; playbackRate := playbackRate p;
     volume := volume p; timer_active := timer_active p;
     current_track_url := current_track_url p;
     fade_timer_active := fade_timer_active p;
     original_volume := original_volume p;
     commands := (commands p ++ [c])%list |}.

Definition with_audio_player (f : AudioPlayer -> AudioPlayer) (w : MainWindow)
  : MainWindow :=
  {| audio_player := f (audio_player w); track_manager := track_manager w;
     user_stopped := user_stopped w;
     ignore_auto_advance := ignore_auto_advance w;
     btn_repeat := btn_repeat w; btn_mute := btn_mute w;
     btn_play_all := btn_play_all w; volume_slider := volume_slider w;
     speed_slider := speed_slider w; playlist := playlist w;
     btn_play_pause := btn_play_pause w; btn_reset := btn_reset w;
     btn_prev := btn_prev w; btn_next := btn_next w; warnings := warnings w |}.

Definition with_track_manager (x : TrackManager.t) (w : MainWindow) : MainWindow :=
  {| audio_player := audio_player w; track_manager := x;
     user_stopped := user_stopped w;
     ignore_auto_advance := ignore_auto_advance w;
     btn_repeat := btn_repeat w; btn_mute := btn_mute w;
     btn_play_all := btn_play_all w; volume_slider := volume_slider w;
     speed_slider := speed_slider w; playlist := playlist w;
     btn_play_pause := btn_play_pause w; btn_reset := btn_reset w;
     btn_prev := btn_prev w; btn_next := btn_next w; warnings := warnings w |}.

Definition with_user_stopped (x : bool) (w : MainWindow) : MainWindow :=
  {| audio_player := audio_player w; track_manager := track_manager w;
     user_stopped := x; ignore_auto_advance := ignore_auto_advance w;
     btn_repeat := btn_repeat w; btn_mute := btn_mute w;
     btn_play_all := btn_play_all w; volume_slider := volume_slider w;
     speed_slider := speed_slider w; playlist := playlist w;
     btn_play_pause := btn_play_pause w; btn_reset := btn_reset w;
     btn_prev := btn_prev w; btn_next := btn_next w; warnings := warnings w |}.

Definition with_ignore_auto_advance (x : bool) (w : MainWindow) : MainWindow :=
  {| audio_player := audio_player w; track_manager := track_manager w;
     user_stopped := user_stopped w; ignore_auto_advance := x;
     btn_repeat := btn_repeat w; btn_mute := btn_mute w;
     btn_play_all := btn_play_all w; volume_slider := volume_slider w;
     speed_slider := speed_slider w; playlist := playlist w;
     btn_play_pause := btn_play_pause w; btn_reset := btn_reset w;
     btn_prev := btn_prev w; btn_next := btn_next w; warnings := warnings w |}.

Definition with_btn_repeat (x : QCheckBox) (w : MainWindow) : MainWindow :=
  {| audio_player := audio_player w; track_manager := track_manager w;
     user_stopped := user_stopped w;
     ignore_auto_advance := ignore_auto_advance w;
     btn_repeat := x; btn_mute := btn_mute w;
     btn_play_all := btn_play_all w; volume_slider := volume_slider w;
     speed_slider := speed_slider w; playlist := playlist w;
     btn_play_pause := btn_play_pause w; btn_reset := btn_reset w;
     btn_prev := btn_prev w; btn_next := btn_next w; warnings := warnings w |}.

Definition with_btn_mute (x : QCheckBox) (w : MainWindow) : MainWindow :=
  {| audio_player := audio_player w; track_manager := track_manager w;
     user_stopped := user_stopped w;
     ignore_auto_advance := ignore_auto_advance w;
     btn_repeat := btn_repeat w; btn_mute := x;
     btn_play_all := btn_play_all w; volume_slider := volume_slider w;
     speed_slider := speed_slider w; playlist := playlist w;
     btn_play_pause := btn_play_pause w; btn_reset := btn_reset w;
     btn_prev := btn_prev w; btn_next := btn_next w; warnings := warnings w |}.

Definition with_btn_play_all (x : QCheckBox) (w : MainWindow) : MainWindow :=
  {| audio_player := audio_player w; track_manager := track_manager w;
     user_stopped := user_stopped w;
     ignore_auto_advance := ignore_auto_advance w;
     btn_repeat := btn_repeat w; btn_mute := btn_mute w;
     btn_play_all := x; volume_slider := volume_slider w;
     speed_slider := speed_slider w; playlist := playlist w;
     btn_play_pause := btn_play_pause w; btn_reset := btn_reset w;
     btn_prev := btn_prev w; btn_next := btn_next w; warnings := warnings w |}.

Definition with_volume_slider (x : QSlider) (w : MainWindow) : MainWindow :=
  {| audio_player := audio_player w; track_manager := track_manager w;
     user_stopped := user_stopped w;
     ignore_auto_advance := ignore_auto_advance w;
     btn_repeat := btn_repeat w; btn_mute := btn_mute w;
     btn_play_all := btn_play_all w; volume_slider := x;
     speed_slider := speed_slider w; playlist := playlist w;
     btn_play_pause := btn_play_pause w; btn_reset := btn_reset w;
     btn_prev := btn_prev w; btn_next := btn_next w; warnings := warnings w |}.

Definition with_speed_slider (x : QSlider) (w : MainWindow) : MainWindow :=
  {| audio_player := audio_player w; track_manager := track_manager w;
     user_stopped := user_stopped w;
     ignore_auto_advance := ignore_auto_advance w;
     btn_repeat := btn_repeat w; btn_mute := btn_mute w;
     btn_play_all := btn_play_all w; volume_slider := volume_slider w;
     speed_slider := x; playlist := playlist w;
     btn_play_pause := btn_play_pause w; btn_reset := btn_reset w;
     btn_prev := btn_prev w; btn_next := btn_next w; warnings := warnings w |}.

Definition with_playlist (x : QListWidget) (w : MainWindow) : MainWindow :=
  {| audio_player := audio_player w; track_manager := track_manager w;
     user_stopped := user_stopped w;
     ignore_auto_advance := ignore_auto_advance w;
     btn_repeat := btn_repeat w; btn_mute := btn_mute w;
     btn_play_all := btn_play_all w; volume_slider := volume_slider w;
     speed_slider := speed_slider w; playlist := x;
     btn_play_pause := btn_play_pause w; btn_reset := btn_reset w;
     btn_prev := btn_prev w; btn_next := btn_next w; warnings := warnings w |}.

Definition with_btn_play_pause (x : Icon) (w : MainWindow) : MainWindow :=
  {| audio_player := audio_player w; track_manager := track_manager w;
     user_stopped := user_stopped w;
     ignore_auto_advance := ignore_auto_advance w;
     btn_repeat := btn_repeat w; btn_mute := btn_mute w;
     btn_play_all := btn_play_all w; volume_slider := volume_slider w;
     speed_slider := speed_slider w; playlist := playlist w;
     btn_play_pause := x; btn_reset := btn_reset w;
     btn_prev := btn_prev w; btn_next := btn_next w; warnings := warnings w |}.

Definition with_btn_reset (x : bool) (w : MainWindow) : MainWindow :=
  {| audio_player := audio_player w; track_manager := track_manager w;
     user_stopped := user_stopped w;
     ignore_auto_advance := ignore_auto_advance w;
     btn_repeat := btn_repeat w; btn_mute := btn_mute w;
     btn_play_all := btn_play_all w; volume_slider := volume_slider w;
     speed_slider := speed_slider w; playlist := playlist w;
     btn_play_pause := btn_play_pause w; btn_reset := x;
     btn_prev := btn_prev w; btn_next := btn_next w; warnings := warnings w |}.

Definition with_skip_buttons (p n : bool) (w : MainWindow) : MainWindow :=
  {| audio_player := audio_player w; track_manager := track_manager w;
     user_stopped := user_stopped w;
     ignore_auto_advance := ignore_auto_advance w;
     btn_repeat := btn_repeat w; btn_mute := btn_mute w;
     btn_play_all := btn_play_all w; volume_slider := volume_slider w;
     speed_slider := speed_slider w; playlist := playlist w;
     btn_play_pause := btn_play_pause w; btn_reset := btn_reset w;
     btn_prev := p; btn_next := n; warnings := warnings w |}.

Definition with_warning (msg : string) (w : MainWindow) : MainWindow :=
  {| audio_player := audio_player w; track_manager := track_manager w;
     user_stopped := user_stopped w;
     ignore_auto_advance := ignore_auto_advance w;
     btn_repeat := btn_repeat w; btn_mute := btn_mute w;
     btn_play_all := btn_play_all w; volume_slider := volume_slider w;
     speed_slider := speed_slider w; playlist := playlist w;
     btn_play_pause := btn_play_pause w; btn_reset := btn_reset w;
     btn_prev := btn_prev w; btn_next := btn_next w;
     warnings := (warnings w ++ [msg])%list |}.

(** *** Queries *)

Definition is_playing (w : MainWindow) : bool :=
  PlaybackState_eqb (playbackState (audio_player w)) PlayingState.

Definition is_stopped (w : MainWindow) : bool :=
  PlaybackState_eqb (playbackState (audio_player w)) StoppedState.

(** [v / 100.0] *)
Definition percent (v : Z) : Q := inject_Z v / 100.

(** [a > b] on gains *)
Definition Qgtb (a b : Q) : bool := negb (Qle_bool a b).

(** [max(0, x)] *)
Definition max0 (x : Q) : Q := if Qgtb x 0 then x else 0.

Definition count (l : QListWidget) : Z := Z.of_nat (length (items l)).

Definition item (l : QListWidget) (i : Z) : option string :=
  if i <? 0 then None else items l !! Z.to_nat i.

Definition currentItem (l : QListWidget) : option string :=
  item l (currentRow l).

(** *** Widget primitives *)

Definition blockSignals (b : bool) (c : QCheckBox) : QCheckBox :=
  {| isChecked := isChecked c; signalsBlocked := b |}.

(** [setChecked(b)]: the new box and the [toggled] signal, if one is
    emitted (the state changed and signals are not blocked). *)
Definition setChecked (b : bool) (c : QCheckBox) : QCheckBox * option bool :=
  if Bool.eqb (isChecked c) b then (c, None)
  else ({| isChecked := b; signalsBlocked := signalsBlocked c |},
        if signalsBlocked c then None else Some b).

(** [setValue(v)]: the new slider and whether [valueChanged] is emitted. *)
Definition setValue (v : Z) (s : QSlider) : QSlider * bool :=
  let v := Z.max (minimum s) (Z.min (maximum s) v) in
  if v =? value s then (s, false)
  else ({| minimum := minimum s; maximum := maximum s; value := v |}, true).

Definition listBlockSignals (b : bool) (l : QListWidget) : QListWidget :=
  {| items := items l; currentRow := currentRow l; listSignalsBlocked := b |}.

(** [setCurrentRow(r)]: the new list and whether [itemSelectionChanged]
    is emitted. *)
Definition setCurrentRow (r : Z) (l : QListWidget) : QListWidget * bool :=
  let r := if ((0 <=? r) && (r <? count l))%bool then r else -1 in
  if r =? currentRow l then (l, false)
  else ({| items := items l; currentRow := r;
           listSignalsBlocked := listSignalsBlocked l |},
        negb (listSignalsBlocked l)).

(** *** [AudioPlayer] methods that emit no signal *)

(** [set_volume(volume)] *)
Definition set_volume (q : Q) (w : MainWindow) : MainWindow :=
  with_audio_player (fun p => ap_log (setVolume q) (ap_volume q p)) w.

(** [set_playback_rate(rate)] *)
Definition set_playback_rate (q : Q) (w : MainWindow) : MainWindow :=
  with_audio_player (fun p => ap_log (setPlaybackRate q) (ap_rate q p)) w.

(** [seek(position)]; the media player keeps the position within the
    track. *)
Definition seek (pos : Z) (w : MainWindow) : MainWindow :=
  with_audio_player
    (fun p => ap_log (setPosition pos)
                (ap_position (Z.max 0 (Z.min pos (duration p))) p)) w.

(** [fade_out()] *)
Definition fade_out (w : MainWindow) : MainWindow :=
  if is_stopped w then w
  else
    with_audio_player
      (fun p => ap_fade_timer true (ap_original_volume (volume p) p)) w.

(** *** [MainWindow] slots that emit no playback signal *)

(** [update_skip_buttons()] *)
Definition update_skip_buttons (w : MainWindow) : MainWindow :=
  let current_row := currentRow (playlist w) in
  let n := count (playlist w) in
  with_skip_buttons (0 <? current_row)
                    ((current_row <? n - 1) && (0 <? n))%bool w.

(** [handle_track_selection_changed()] *)
Definition handle_track_selection_changed (w : MainWindow) : MainWindow :=
  update_skip_buttons w.

(** [self.playlist.setCurrentRow(r)] with its slot *)
Definition playlist_setCurrentRow (r : Z) (w : MainWindow) : MainWindow :=
  let '(l, changed) := setCurrentRow r (playlist w) in
  let w := with_playlist l w in
  if changed then handle_track_selection_changed w else w.

Definition playlist_blockSignals (b : bool) (w : MainWindow) : MainWindow :=
  with_playlist (listBlockSignals b (playlist w)) w.

(** [update_speed()].  This slot, [update_volume], [toggle_mute] and
    [play_selected_track] save the settings as they end.  The saving is
    [Ui.save_settings]: it leaves the window as it is, and it returns when
    the folder and the URL of the track hold no percent sign
    ([Ui.savable]); the properties of these slots are stated for such
    windows. *)
Definition update_speed (w : MainWindow) : MainWindow :=
  let speed := percent (value (speed_slider w)) in
  if is_playing w then set_playback_rate speed w else w.

(** [update_volume()], up to the saving of the settings *)
Definition update_volume (w : MainWindow) : MainWindow :=
  let volume := value (volume_slider w) in
  if negb (isChecked (btn_mute w)) then set_volume (percent volume) w else w.

(** [toggle_mute(checked)], up to the saving of the settings *)
Definition toggle_mute (checked : bool) (w : MainWindow) : MainWindow :=
  if checked then set_volume 0 w
  else set_volume (percent (value (volume_slider w))) w.

(** [on_repeat_toggled(checked)] *)
Definition on_repeat_toggled (checked : bool) (w : MainWindow) : MainWindow :=
  if (checked && isChecked (btn_play_all w))%bool then
    let b := blockSignals true (btn_play_all w) in
    let b := fst (setChecked false b) in
    with_btn_play_all (blockSignals false b) w
  else w.

(** [on_play_all_toggled(checked)] *)
Definition on_play_all_toggled (checked : bool) (w : MainWindow) : MainWindow :=
  if (checked && isChecked (btn_repeat w))%bool then
    let b := blockSignals true (btn_repeat w) in
    let b := fst (setChecked false b) in
    with_btn_repeat (blockSignals false b) w
  else w.

(** The widgets with their connected slots
    ([connect_signals]: [toggled] and [valueChanged]). *)

Definition btn_repeat_setChecked (b : bool) (w : MainWindow) : MainWindow :=
  let '(c, signal) := setChecked b (btn_repeat w) in
  let w := with_btn_repeat c w in
  match signal with
  | Some checked => on_repeat_toggled checked w
  | None => w
  end.

Definition btn_play_all_setChecked (b : bool) (w : MainWindow) : MainWindow :=
  let '(c, signal) := setChecked b (btn_play_all w) in
  let w := with_btn_play_all c w in
  match signal with
  | Some checked => on_play_all_toggled checked w
  | None => w
  end.

Definition btn_mute_setChecked (b : bool) (w : MainWindow) : MainWindow :=
  let '(c, signal) := setChecked b (btn_mute w) in
  let w := with_btn_mute c w in
  match signal with
  | Some checked => toggle_mute checked w
  | None => w
  end.

Definition volume_slider_setValue (v : Z) (w : MainWindow) : MainWindow :=
  let '(s, changed) := setValue v (volume_slider w) in
  let w := with_volume_slider s w in
  if changed then update_volume w else w.

Definition speed_slider_setValue (v : Z) (w : MainWindow) : MainWindow :=
  let '(s, changed) := setValue v (speed_slider w) in
  let w := with_speed_slider s w in
  if changed then update_speed w else w.

(** A click on a check box (or [toggle()]) *)
Definition btn_repeat_toggle (w : MainWindow) : MainWindow :=
  btn_repeat_setChecked (negb (isChecked (btn_repeat w))) w.

Definition btn_play_all_toggle (w : MainWindow) : MainWindow :=
  btn_play_all_setChecked (negb (isChecked (btn_play_all w))) w.

Definition btn_mute_toggle (w : MainWindow) : MainWindow :=
  btn_mute_setChecked (negb (isChecked (btn_mute w))) w.

(** *** Code that reaches the media player's state

    A change of the playback state is announced synchronously to the slot
    connected to [playbackStateChanged].  The methods below are written
    against that slot, [emit]; [playbackStateChanged] further down ties the
    knot with [handle_playback_state_changed].  [None] is the exhaustion of
    the nesting budget of signal deliveries, never a program outcome. *)

Section Signals.

Variable fs : TrackManager.FileSystem.
(** The length the decoder reports for a file. *)
Variable media_duration : string -> Z.
Variable emit : PlaybackState -> MainWindow -> option MainWindow.

(** The media player enters state [s]; the signal is emitted when the
    state changes. *)
Definition setPlaybackState (s : PlaybackState) (w : MainWindow)
  : option MainWindow :=
  if PlaybackState_eqb (playbackState (audio_player w)) s then Some w
  else emit s (with_audio_player (ap_state s) w).

(** [QMediaPlayer.play()]: nothing to play without a source.  The change
    to [PlayingState] is made at once, as the toolkit makes it for a source
    that is loaded; for a source that was just set the toolkit makes it
    when the source is loaded, after the slot that called [play] has
    returned. *)
Definition media_player_play (w : MainWindow) : option MainWindow :=
  let w := with_audio_player (ap_log play_cmd) w in
  match current_track_url (audio_player w) with
  | Some _ => setPlaybackState PlayingState w
  | None => Some w
  end.

(** [QMediaPlayer.pause()] *)
Definition media_player_pause (w : MainWindow) : option MainWindow :=
  let w := with_audio_player (ap_log pause_cmd) w in
  match current_track_url (audio_player w) with
  | Some _ => setPlaybackState PausedState w
  | None => Some w
  end.

(** [QMediaPlayer.stop()]: back to the beginning, then [StoppedState]. *)
Definition media_player_stop (w : MainWindow) : option MainWindow :=
  let w := with_audio_player (fun p => ap_log stop_cmd (ap_position 0 p)) w in
  setPlaybackState StoppedState w.

(** [QMediaPlayer.setSource(url)]: a new source stops the playback. *)
Definition media_player_setSource (url : string) (w : MainWindow)
  : option MainWindow :=
  let w := with_audio_player
             (fun p => ap_log (setSource url)
                         (ap_duration (media_duration url) (ap_position 0 p)))
             w in
  setPlaybackState StoppedState w.

(** [AudioPlayer.play()] *)
Definition play (w : MainWindow) : option MainWindow :=
  w ← media_player_play w;
  Some (with_audio_player (ap_timer true) w).

(** [AudioPlayer.pause()] *)
Definition pause (w : MainWindow) : option MainWindow :=
  w ← media_player_pause w;
  Some (with_audio_player (ap_timer false) w).

(** [AudioPlayer.stop()] *)
Definition stop (w : MainWindow) : option MainWindow :=
  w ← media_player_stop w;
  Some (with_audio_player (ap_timer false) w).

(** [AudioPlayer.load_track(file_path)]; the metadata only feed labels
    and are not modelled. *)
Definition load_track (file_path : string) (w : MainWindow)
  : option MainWindow :=
  if negb (TrackManager.fs_exists fs file_path) then Some w
  else
    let w := with_audio_player (ap_url (Some file_path)) w in
    media_player_setSource file_path w.

(** [AudioPlayer._fade_step()], the gains taken as exact numbers;
    [Floats._fade_step] is the step on floats. *)
Definition _fade_step (w : MainWindow) : option MainWindow :=
  let current_volume := volume (audio_player w) in
  let step_size := (original_volume (audio_player w) / inject_Z fade_steps)%Q in
  if Qgtb current_volume step_size then
    let new_volume := max0 (current_volume - step_size)%Q in
    Some (with_audio_player
            (fun p => ap_log (setVolume new_volume) (ap_volume new_volume p)) w)
  else
    let w := with_audio_player (ap_fade_timer false) w in
    let w := set_volume 0 w in
    w ← media_player_stop w;
    Some (set_volume (original_volume (audio_player w)) w).

(** The fade timer fires. *)
Definition fade_timer_timeout (w : MainWindow) : option MainWindow :=
  if fade_timer_active (audio_player w) then _fade_step w else Some w.

(** [play_selected_track()], up to the saving of the settings, which
    comes between the title and [update_skip_buttons] *)
Definition play_selected_track (w : MainWindow) : option MainWindow :=
  match currentItem (playlist w) with
  | None => Some w
  | Some rel_path =>
      match TrackManager.get_absolute_path (track_manager w) rel_path with
      | None => Some w
      | Some file_path =>
          if negb (TrackManager.fs_exists fs file_path)
          then Some (with_warning ("Cannot find " ++ file_path) w)
          else
            (* Stop current playback if any *)
            w ← (if is_playing w then stop w else Some w);
            (* Set up and play the new track *)
            let w := with_ignore_auto_advance true w in
            w ← load_track file_path w;
            let w := set_playback_rate (percent (value (speed_slider w))) w in
            w ← play w;
            let w := with_btn_play_pause pause_png w in
            let w := with_btn_reset true w in
            Some (update_skip_buttons w)
      end
  end.

(** [toggle_play_pause()] *)
Definition toggle_play_pause (w : MainWindow) : option MainWindow :=
  if is_playing w then
    w ← pause w;
    Some (with_btn_play_pause play_png w)
  else
    match current_track_url (audio_player w) with
    | None => play_selected_track w
    | Some _ =>
        w ← play w;
        let w := with_btn_play_pause pause_png w in
        Some (with_btn_reset true w)
    end.

(** [reset_playback()] *)
Definition reset_playback (w : MainWindow) : MainWindow :=
  let w := if negb (is_stopped w)
           then fade_out (with_user_stopped true w)  (* Prevent Play All logic *)
           else w in
  let w := seek 0 w in
  let w := with_btn_play_pause play_png w in
  with_btn_reset false w.

(** [skip_to_next()] *)
Definition skip_to_next (w : MainWindow) : option MainWindow :=
  let current_row := currentRow (playlist w) in
  if current_row <? count (playlist w) - 1 then
    let w := playlist_blockSignals true w in
    let w := with_ignore_auto_advance true w in
    let w := playlist_setCurrentRow (current_row + 1) w in
    let w := playlist_blockSignals false w in
    w ← (if negb (is_stopped w) then play_selected_track w else Some w);
    Some (update_skip_buttons w)
  else Some w.

(** [skip_to_previous()] *)
Definition skip_to_previous (w : MainWindow) : option MainWindow :=
  let current_row := currentRow (playlist w) in
  if 0 <? current_row then
    let w := playlist_blockSignals true w in
    let w := with_ignore_auto_advance true w in
    let w := playlist_setCurrentRow (current_row - 1) w in
    let w := playlist_blockSignals false w in
    w ← (if negb (is_stopped w) then play_selected_track w else Some w);
    Some (update_skip_buttons w)
  else Some w.

(** The end of both handlers: the play icon, reset disabled. *)
Definition reset_ui (w : MainWindow) : MainWindow :=
  let w := with_btn_play_pause play_png w in
  let w := with_btn_reset false w in
  update_skip_buttons w.

(** [handle_playback_state_changed(state)] *)
Definition handle_playback_state_changed (state : PlaybackState)
    (w : MainWindow) : option MainWindow :=
  if PlaybackState_eqb state StoppedState then
    (* Skip autoplay logic if user manually changed tracks *)
    if ignore_auto_advance w then Some (with_ignore_auto_advance false w)
    else
      (* Auto-repeat if enabled *)
      if (isChecked (btn_repeat w)
          && bool_decide (is_Some (current_track_url (audio_player w)))
          && (position (audio_player w) =? duration (audio_player w)))%bool
      then play (seek 0 w)
      else
        (* Auto play all if enabled *)
        let current_row := currentRow (playlist w) in
        if (isChecked (btn_play_all w)
            && (current_row <? count (playlist w) - 1))%bool
        then play_selected_track (playlist_setCurrentRow (current_row + 1) w)
        else
          (* End of playback or user stopped *)
          Some (reset_ui w)
  else Some w.

(** [handle_media_status_changed(status)] *)
Definition handle_media_status_changed (status : MediaStatus)
    (w : MainWindow) : option MainWindow :=
  if MediaStatus_is_end status then
    (* Repeat mode *)
    if (isChecked (btn_repeat w)
        && bool_decide (is_Some (current_track_url (audio_player w))))%bool
    then play (seek 0 w)
    else
      (* Play All mode *)
      let current_row := currentRow (playlist w) in
      if (isChecked (btn_play_all w)
          && (current_row <? count (playlist w) - 1))%bool
      then
        let w := playlist_blockSignals true w in
        let w := playlist_setCurrentRow (current_row + 1) w in
        let w := playlist_blockSignals false w in
        play_selected_track w
      else
        (* Reset UI *)
        Some (reset_ui w)
  else Some w.

End Signals.

(** *** The window with its signals connected *)

(** [int(x)] of a non-negative float: the integer part. *)
Definition int_of_float (q : Q) : Z := Z.quot (Qnum q) (Zpos (Qden q)).

(** [min(x, y)] *)
Definition min_py (x y : Q) : Q := if Qgtb x y then y else x.

(** The nested [update_progress(current, total)] of [populate_playlist].
    [press_cancel current total] tells whether the user presses Cancel
    while the dialog shows this step. *)
Definition update_progress (press_cancel : Z -> Z -> bool) (current total : Z)
    (progress : QProgressDialog) : bool * QProgressDialog :=
  let progress_value :=
    int_of_float
      (min_py ((inject_Z current / inject_Z (Z.max total 1)) * 100)%Q 100%Q) in
  let progress :=
    {| dialog_value := progress_value;
       wasCanceled := (wasCanceled progress || press_cancel current total)%bool |} in
  if wasCanceled progress then (false, progress) else (true, progress).

(** [self.playlist.clear()] *)
Definition playlist_clear (w : MainWindow) : MainWindow :=
  let l := playlist w in
  let changed := negb (currentRow l =? -1) in
  let w := with_playlist {| items := []; currentRow := -1;
                            listSignalsBlocked := listSignalsBlocked l |} w in
  if (changed && negb (listSignalsBlocked l))%bool
  then handle_track_selection_changed w else w.

(** [self.playlist.addItem(track)] *)
Definition playlist_addItem (w : MainWindow) (track : string) : MainWindow :=
  let l := playlist w in
  with_playlist {| items := (items l ++ [track])%list;
                   currentRow := currentRow l;
                   listSignalsBlocked := listSignalsBlocked l |} w.

Section Window.

Variable fs : TrackManager.FileSystem.
Variable media_duration : string -> Z.
(** The relative path that [load_settings] computes from the saved track
    URL and the saved folder, when the URL is a valid local file below the
    folder. *)
Variable saved_track_rel_path : string -> string -> option string.

(** The slot connected to [AudioPlayer.playbackStateChanged], with a
    budget for nested deliveries. *)
Fixpoint playbackStateChanged (depth : nat) (s : PlaybackState)
    (w : MainWindow) : option MainWindow :=
  match depth with
  | O => None
  | S n =>
      handle_playback_state_changed fs media_duration
        (playbackStateChanged n) s w
  end.

(** [populate_playlist()] *)
Definition populate_playlist (press_cancel : Z -> Z -> bool) (w : MainWindow)
  : MainWindow :=
  let w := playlist_clear w in
  let progress := {| dialog_value := 0; wasCanceled := false |} in
  let '(tracks, tm, _) :=
    TrackManager.scan_folder fs (Some (update_progress press_cancel))
      progress (track_manager w) in
  let w := with_track_manager tm w in
  let w := fold_left playlist_addItem tracks w in
  let w := if 0 <? count (playlist w) then playlist_setCurrentRow 0 w else w in
  update_skip_buttons w.

(** The folder branch of [open_file_dialog()] *)
Definition open_folder (path : string) (press_cancel : Z -> Z -> bool)
    (w : MainWindow) : MainWindow :=
  let '(_, tm, _) := TrackManager.set_folder fs path tt (track_manager w) in
  populate_playlist press_cancel (with_track_manager tm w).

(** The row of the first item with the given text. *)
Fixpoint index_of (text : string) (l : list string) (i : Z) : option Z :=
  match l with
  | [] => None
  | x :: r => if String.eqb x text then Some i else index_of text r (i + 1)
  end.

(** [load_settings()] *)
Definition load_settings (c : ConfigManager.t) (press_cancel : Z -> Z -> bool)
    (w : MainWindow) : result MainWindow :=
  volume ← ConfigManager.get_int c "volume" 50;
  speed ← ConfigManager.get_int c "speed" 100;
  repeat ← ConfigManager.get_bool c "repeat" false;
  mute ← ConfigManager.get_bool c "mute" false;
  play_all ← ConfigManager.get_bool c "play_all" false;
  last_folder ← ConfigManager.get c "last_folder" "";
  last_track ← ConfigManager.get c "last_track" "";
  let last_folder := match last_folder with inl s => s | inr s => s end in
  let last_track := match last_track with inl s => s | inr s => s end in
  let w := volume_slider_setValue volume w in
  let w := speed_slider_setValue speed w in
  let w := btn_repeat_setChecked repeat w in
  let w := btn_mute_setChecked mute w in
  let w := btn_play_all_setChecked play_all w in
  let w :=
    if (negb (String.eqb last_folder "")
        && TrackManager.fs_exists fs (TrackManager.Path last_folder))%bool
    then
      let w := open_folder last_folder press_cancel w in
      if negb (String.eqb last_track "") then
        match saved_track_rel_path last_track last_folder with
        | Some rel_path =>
            match index_of rel_path (items (playlist w)) 0 with
            | Some i => playlist_setCurrentRow i w
            | None => w
            end
        | None => w
        end
      else w
    else w in
  let w := update_volume w in
  let w := update_speed w in
  mret (update_skip_buttons w).

(** What happens to a running window: the user's actions, the fade timer
    and the notifications of the audio service. *)
Inductive Event : Type :=
| play_pause_clicked
| item_double_clicked
| reset_clicked
| prev_clicked
| next_clicked
| volume_moved (v : Z)
| speed_moved (v : Z)
| mute_clicked
| repeat_clicked
| play_all_clicked
| row_selected (r : Z)
| folder_opened (path : string) (press_cancel : Z -> Z -> bool)
| fade_timer_fired
| track_finished
| mediaStatusChanged (status : MediaStatus).

(** The audio service reaches the end of the track: the position is the
    duration and the player stops. *)
Definition finish_track (depth : nat) (w : MainWindow) : option MainWindow :=
  if is_playing w then
    let w := with_audio_player
               (fun p => ap_timer false (ap_position (duration p) p)) w in
    setPlaybackState (playbackStateChanged depth) StoppedState w
  else Some w.

Definition dispatch (depth : nat) (e : Event) (w : MainWindow)
  : option MainWindow :=
  let emit := playbackStateChanged depth in
  match e with
  | play_pause_clicked => toggle_play_pause fs media_duration emit w
  | item_double_clicked => play_selected_track fs media_duration emit w
  | reset_clicked => Some (reset_playback w)
  | prev_clicked => skip_to_previous fs media_duration emit w
  | next_clicked => skip_to_next fs media_duration emit w
  | volume_moved v => Some (volume_slider_setValue v w)
  | speed_moved v => Some (speed_slider_setValue v w)
  | mute_clicked => Some (btn_mute_toggle w)
  | repeat_clicked => Some (btn_repeat_toggle w)
  | play_all_clicked => Some (btn_play_all_toggle w)
  | row_selected r => Some (playlist_setCurrentRow r w)
  | folder_opened path press_cancel => Some (open_folder path press_cancel w)
  | fade_timer_fired => fade_timer_timeout emit w
  | track_finished => finish_track depth w
  | mediaStatusChanged status =>
      handle_media_status_changed fs media_duration emit status w
  end.

Fixpoint run (depth : nat) (es : list Event) (w : MainWindow)
  : option MainWindow :=
  match es with
  | [] => Some w
  | e :: es => w ← dispatch depth e w; run depth es w
  end.

End Window.

(** The window as [setup_ui] and [AudioPlayer.__init__] build it. *)
Definition init_audio_player : AudioPlayer :=
  {| playbackState := StoppedState; position := 0; duration := 0;
     playbackRate := 1; volume := 0.5; timer_active := false;
     current_track_url := None; fade_timer_active := false;
     original_volume := 1; commands := [] |}.

Definition unchecked : QCheckBox :=
  {| isChecked := false; signalsBlocked := false |}.

Definition init : MainWindow :=
  {| audio_player := init_audio_player;
     track_manager := TrackManager.init;
     user_stopped := false;
     ignore_auto_advance := false;
     btn_repeat := unchecked;
     btn_mute := unchecked;
     btn_play_all := unchecked;
     volume_slider := {| minimum := 0; maximum := 100; value := 50 |};
     speed_slider := {| minimum := 50; maximum := 150; value := 100 |};
     playlist := {| items := []; currentRow := -1; listSignalsBlocked := false |};
     btn_play_pause := play_png;
     btn_reset := false;
     btn_prev := false;
     btn_next := false;
     warnings := [] |}.

(** The budget of the sample runs.  Two nested deliveries are all that
    the code can produce (see [dispatch_total]). *)
Definition signal_depth : nat := 3.

End Player.

(* ===================================================================== *)
(** ** Binary floating point *)
(* ===================================================================== *)

(** A Python [float] is an IEEE 754 double (53 bits of precision); the
    gain that [QAudioOutput] keeps is a C [float] (24 bits).  A float is
    written here as the rational number it stands for, in lowest terms.
    An operation on floats gives its exact result rounded to the nearest
    float, and of two nearest floats the one with the even last bit.  The
    numbers of the player are far below the largest float: overflow to an
    infinity is not modelled. *)

Module Floats.
Import Player.

(** The binary exponent of [n / d]: the [e] with [2^e <= n / d < 2^(e+1)]. *)
Definition exponent (n d : positive) : Z :=
  let e := Z.log2 (Zpos n) - Z.log2 (Zpos d) in
  if Zpos n * 2 ^ Z.max 0 (- e) <? Zpos d * 2 ^ Z.max 0 e then e - 1 else e.

(** The multiple of [2^e] nearest to [n / d]; half way between two of
    them, the even multiple. *)
Definition nearest (e : Z) (n d : positive) : Q :=
  let num := Zpos n * 2 ^ Z.max 0 (- e) in
  let den := Zpos d * 2 ^ Z.max 0 e in
  let m := num / den in
  let r := num mod den in
  let m := if ((den <? 2 * r) || ((den =? 2 * r) && Z.odd m))%bool
           then m + 1 else m in
  Qred (inject_Z m * 2 ^ e).

(** Rounding to a format with [prec] bits of precision whose smallest
    positive number is [2^emin]. *)
Definition round (prec emin : Z) (q : Q) : Q :=
  match Qnum q with
  | Z0 => 0
  | Zpos n =>
      nearest (Z.max (exponent n (Qden q) - prec + 1) emin) n (Qden q)
  | Zneg n =>
      - nearest (Z.max (exponent n (Qden q) - prec + 1) emin) n (Qden q)
  end.

(** A Python [float]. *)
Definition float64 (q : Q) : Q := round 53 (-1074) q.

(** A C [float]. *)
Definition float32 (q : Q) : Q := round 24 (-149) q.

(** [a / b] on Python numbers, for [b] other than 0. *)
Definition truediv (a b : Q) : Q := float64 (a / b).

(** [a * b] and [a - b] on Python floats. *)
Definition mul (a b : Q) : Q := float64 (a * b).
Definition sub (a b : Q) : Q := float64 (a - b).

(** *** The fade of [miniplayer/core/audio_player.py] in floats *)

(** What [QAudioOutput.setVolume(volume)] keeps: the argument as a C
    [float], held between 0 and 1. *)
Definition kept (volume : Q) : Q := min_py 1 (max0 (float32 volume)).

(** [set_volume(volume)] *)
Definition set_volume (volume : Q) (w : MainWindow) : MainWindow :=
  with_audio_player
    (fun p => ap_log (setVolume volume) (ap_volume (kept volume) p)) w.

(** The gain after [set_volume(level / 100.0)], as [update_volume] and
    [toggle_mute] call it for the level of the volume slider. *)
Definition slider_gain (level : Z) : Q :=
  kept (truediv (inject_Z level) 100).

Section Fade.

Variable emit : PlaybackState -> MainWindow -> option MainWindow.

(** [AudioPlayer._fade_step()] *)
Definition _fade_step (w : MainWindow) : option MainWindow :=
  let current_volume := volume (audio_player w) in
  let step_size :=
    truediv (original_volume (audio_player w)) (inject_Z fade_steps) in
  if Qgtb current_volume step_size then
    let new_volume := max0 (sub current_volume step_size) in
    Some (set_volume new_volume w)
  else
    let w := with_audio_player (ap_fade_timer false) w in
    let w := set_volume 0 w in
    w ← media_player_stop emit w;
    Some (set_volume (original_volume (audio_player w)) w).

(** The fade timer fires. *)
Definition fade_timer_timeout (w : MainWindow) : option MainWindow :=
  if fade_timer_active (audio_player w) then _fade_step w else Some w.

(** [n] firings of the fade timer. *)
Fixpoint fade_ticks (n : nat) (w : MainWindow) : option MainWindow :=
  match n with
  | O => Some w
  | S n => w ← fade_timer_timeout w; fade_ticks n w
  end.

End Fade.

(** The volumes that the reducing steps of a fade from the gain [g] pass
    to [setVolume], one after the other, while the gain is [c] and for at
    most [n] steps. *)
Fixpoint fade_volumes (g : Q) (n : nat) (c : Q) : list Q :=
  match n with
  | O => []
  | S n =>
      let step_size := truediv g (inject_Z fade_steps) in
      if Qgtb c step_size then
        let new_volume := max0 (sub c step_size) in
        new_volume :: fade_volumes g n (kept new_volume)
      else []
  end.

(** The gain after the volumes [vs] have been set one after the other,
    [c] before the first. *)
Definition gain_after (vs : list Q) (c : Q) : Q :=
  fold_left (fun _ v => kept v) vs c.

(** The gains go down strictly. *)
Fixpoint descending (c : Q) (vs : list Q) : bool :=
  match vs with
  | [] => true
  | v :: vs => (Qgtb c (kept v) && descending (kept v) vs)%bool
  end.

End Floats.

(* ===================================================================== *)
(** ** [miniplayer/utils/helpers.py] *)
(* ===================================================================== *)

Module Helpers.
Import Py.

(** [format_duration(seconds)] *)
Definition format_duration (seconds : Q) : string :=
  let total := Player.int_of_float seconds in
  let minutes := total / 60 in
  let seconds := total mod 60 in
  pad2 minutes ++ ":" ++ pad2 seconds.

(** The numbers that the binding of the toolkit takes for a C [int];
    another one makes the call raise [OverflowError]. *)
Definition c_int (n : Z) : Prop := - 2 ^ 31 <= n < 2 ^ 31.

(** [QTime(0, 0).addMSecs(ms)], for [ms] a C [int]: a time of day in
    milliseconds; it wraps at midnight. *)
Definition addMSecs (ms : Z) : Z := ms mod 86400000.

(** [t.toString('mm:ss')]: the minute and the second of the time. *)
Definition mm_ss (t : Z) : string :=
  pad2 ((t / 60000) mod 60) ++ ":" ++ pad2 ((t / 1000) mod 60).

(** [format_position_duration(position_ms, duration_ms)] *)
Definition format_position_duration (position_ms duration_ms : Z) : string :=
  mm_ss (addMSecs position_ms) ++ " / " ++ mm_ss (addMSecs duration_ms).

End Helpers.

(* ===================================================================== *)
(** ** Further slots of [miniplayer/ui/main_window.py] *)
(* ===================================================================== *)

Module Ui.
Import Py Player.

(** The keys that [keyPressEvent] tells apart. *)
Inductive Key : Type :=
| Key_Up
| Key_Down
| Key_Return
| Key_Enter
| Key_Space
| Key_Escape
| Key_O
| Key_M
| Key_R
| Key_Plus
| Key_Minus
| Key_other.

(** What the user answers to the two dialogs of [open_file_dialog]; the
    empty text stands for a dialog that was dismissed. *)
Record QFileDialog : Type := {
  getExistingDirectory : string;
  getOpenFileName : string
}.

(** The outcome of a computation that divides. *)
Inductive Division (A : Type) : Type :=
| Quotient (a : A)
| ZeroDivisionError.
Arguments Quotient {A} a.
Arguments ZeroDivisionError {A}.

(** The text after the last slash, [os.path.basename(file)]. *)
Fixpoint basename (file : string) : string :=
  match file with
  | EmptyString => EmptyString
  | String c r =>
      if contains "/" r then basename r
      else if Ascii.eqb c "/"%char then r
      else file
  end.

(** [str(Path(file).parent)]: the path without its last part. *)
Definition parent (file : string) : string :=
  TrackManager.path_str (TrackManager.path_root file)
    (removelast (TrackManager.path_parts file)).

(** [filter_tracks(text)]: for each row of the playlist, the argument of
    its [setHidden]. *)
Definition filter_tracks (text : string) (w : MainWindow) : list bool :=
  let filtered_tracks := TrackManager.filter_tracks (track_manager w) text in
  map (fun item_text =>
         let item_visible :=
           existsb (fun track => (String.eqb (fst track) item_text
                                  && snd track)%bool)
                   filtered_tracks in
         negb item_visible)
      (items (playlist w)).

(** [progress_bar_clicked(event)] for a click at [x_pos] on a bar of the
    given width; the quotient and the product are Python floats. *)
Definition progress_bar_clicked (x_pos width : Z) (w : MainWindow)
  : Division MainWindow :=
  match current_track_url (audio_player w) with
  | None => Quotient w
  | Some _ =>
      if width =? 0 then ZeroDivisionError
      else
        let percentage :=
          max0 (min_py 1%Q
                  (Floats.truediv (inject_Z x_pos) (inject_Z width))) in
        let duration := duration (audio_player w) in
        let position :=
          int_of_float (Floats.mul percentage (inject_Z duration)) in
        Quotient (seek position w)
  end.


Section Slots.

Variable fs : TrackManager.FileSystem.
Variable media_duration : string -> Z.
Variable emit : PlaybackState -> MainWindow -> option MainWindow.
(** [QUrl.toString()] of the URL of a local file. *)
Variable toString : string -> string.

(** [open_file_dialog()]; as for the other slots, the saving of the
    settings at its end is left to [save_settings]. *)
Definition open_file_dialog (answers : QFileDialog)
    (press_cancel : Z -> Z -> bool) (w : MainWindow) : MainWindow :=
  let path := getExistingDirectory answers in
  if negb (String.eqb path "") then open_folder fs path press_cancel w
  else
    let file := getOpenFileName answers in
    if negb (String.eqb file "") then
      let folder := parent file in
      let '(_, tm, _) :=
        TrackManager.set_folder fs folder tt (track_manager w) in
      let w := with_track_manager tm w in
      let w := playlist_clear w in
      let w := playlist_addItem w (basename file) in
      playlist_setCurrentRow 0 w
    else w.

(** [keyPressEvent(event)]; [ctrl] tells whether the modifiers are exactly
    the control key. *)
Definition keyPressEvent (key : Key) (ctrl : bool) (answers : QFileDialog)
    (press_cancel : Z -> Z -> bool) (w : MainWindow) : option MainWindow :=
  let current_row := currentRow (playlist w) in
  match key, ctrl with
  | Key_Up, _ => Some (playlist_setCurrentRow (Z.max 0 (current_row - 1)) w)
  | Key_Down, _ =>
      Some (playlist_setCurrentRow
              (Z.min (count (playlist w) - 1) (current_row + 1)) w)
  | Key_Return, _ | Key_Enter, _ => play_selected_track fs media_duration emit w
  | Key_Space, _ => toggle_play_pause fs media_duration emit w
  | Key_Escape, _ => Some (reset_playback w)
  | Key_O, true => Some (open_file_dialog answers press_cancel w)
  | Key_M, true => Some (btn_mute_toggle w)
  | Key_R, true => Some (btn_repeat_toggle w)
  | Key_Plus, true =>
      Some (speed_slider_setValue
              (Z.min 150 (value (speed_slider w) + 10)) w)
  | Key_Minus, true =>
      Some (speed_slider_setValue
              (Z.max 50 (value (speed_slider w) - 10)) w)
  | _, _ => Some w
  end.

(** [save_settings()]: what the settings hold when they are written to
    the file. *)
Definition save_settings (w : MainWindow) (c : ConfigManager.t)
  : result ConfigManager.t :=
  c ← ConfigManager.set c "volume" (str_of_Z (value (volume_slider w)));
  c ← ConfigManager.set c "speed" (str_of_Z (value (speed_slider w)));
  c ← ConfigManager.set c "repeat" (str_of_bool (isChecked (btn_repeat w)));
  c ← ConfigManager.set c "mute" (str_of_bool (isChecked (btn_mute w)));
  c ← ConfigManager.set c "play_all" (str_of_bool (isChecked (btn_play_all w)));
  c ← (if truthy (TrackManager.current_folder (track_manager w))
       then ConfigManager.set c "last_folder"
              (default "" (TrackManager.current_folder (track_manager w)))
       else Ok c);
  match current_track_url (audio_player w) with
  | Some url => ConfigManager.set c "last_track" (toString url)
  | None => Ok c
  end.

(** The two texts that [save_settings] stores as the program finds them,
    the folder and the URL of the track, hold no percent sign: the values
    that [ConfigManager.set] never refuses. *)
Definition savable (w : MainWindow) : Prop :=
  (forall folder,
     TrackManager.current_folder (track_manager w) = Some folder ->
     ConfigManager.plain folder) /\
  (forall url,
     current_track_url (audio_player w) = Some url ->
     ConfigManager.plain (toString url)).

End Slots.

(** The five controls that [save_settings] writes and [load_settings]
    sets: the two sliders and the three boxes. *)
Definition saved_controls (w : MainWindow) : Z * Z * bool * bool * bool :=
  (value (volume_slider w), value (speed_slider w),
   isChecked (btn_repeat w), isChecked (btn_mute w),
   isChecked (btn_play_all w)).

End Ui.

(* ===================================================================== *)
(** ** Sessions and sample data *)
(* ===================================================================== *)

Module Session.
Import Player.

Section Reachable.
Variable fs : TrackManager.FileSystem.
Variable media_duration : string -> Z.
Variable saved_track_rel_path : string -> string -> option string.

(** The states a session can be in: the window after [__init__] has
    applied the saved settings, and whatever an event leads to. *)
Inductive reachable : MainWindow -> Prop :=
| reachable_start c press_cancel w :
    load_settings fs saved_track_rel_path c press_cancel init = Py.Ok w ->
    reachable w
| reachable_step depth e w w' :
    reachable w ->
    dispatch fs media_duration depth e w = Some w' ->
    reachable w'.

(** The events of a fade: the reset that starts it and the firings of
    its timer. *)
Definition fades (e : Event) : bool :=
  match e with
  | reset_clicked | fade_timer_fired => true
  | _ => false
  end.

(** The states of a session in which no fade has run so far. *)
Inductive steady : MainWindow -> Prop :=
| steady_start c press_cancel w :
    load_settings fs saved_track_rel_path c press_cancel init = Py.Ok w ->
    steady w
| steady_step depth e w w' :
    steady w ->
    fades e = false ->
    dispatch fs media_duration depth e w = Some w' ->
    steady w'.

End Reachable.

(** Operations on the two mode flags. *)
Inductive ModeOp : Type :=
| set_repeat (b : bool)
| set_play_all (b : bool)
| click_repeat
| click_play_all.

Definition apply_mode (w : MainWindow) (o : ModeOp) : MainWindow :=
  match o with
  | set_repeat b => btn_repeat_setChecked b w
  | set_play_all b => btn_play_all_setChecked b w
  | click_repeat => btn_repeat_toggle w
  | click_play_all => btn_play_all_toggle w
  end.

Definition repeat_on (w : MainWindow) : bool := isChecked (btn_repeat w).
Definition play_all_on (w : MainWindow) : bool := isChecked (btn_play_all w).
Definition mute_on (w : MainWindow) : bool := isChecked (btn_mute w).

(** The two mode boxes deliver their signals and are not both checked. *)
Definition modes_ok (w : MainWindow) : Prop :=
  signalsBlocked (btn_repeat w) = false /\
  signalsBlocked (btn_play_all w) = false /\
  (repeat_on w && play_all_on w)%bool = false.

(** The two mode boxes of a window. *)
Definition modes (w : MainWindow) : QCheckBox * QCheckBox :=
  (btn_repeat w, btn_play_all w).

(** [f] leaves the mode boxes alone whenever it returns. *)
Definition keeps_modes (f : MainWindow -> option MainWindow) : Prop :=
  forall w w', f w = Some w' -> modes w' = modes w.

(** A slot that returns on every state but [StoppedState]. *)
Definition delivers_running
    (emit : PlaybackState -> MainWindow -> option MainWindow) : Prop :=
  forall s w, s <> StoppedState -> is_Some (emit s w).

(** A slot that returns when it is told the state the player is in. *)
Definition delivers
    (emit : PlaybackState -> MainWindow -> option MainWindow) : Prop :=
  forall s w, playbackState (audio_player w) = s -> is_Some (emit s w).

(** What the gain depends on: the volume slider, the mute box and the
    gain itself. *)
Definition volume_view (w : MainWindow) : QSlider * QCheckBox * Q :=
  (volume_slider w, btn_mute w, volume (audio_player w)).

(** Operations on the volume: the slider is moved to [level] (percent),
    the mute box is set. *)
Inductive VolumeOp : Type :=
| set_volume_to (level : Z)
| set_mute (b : bool).

Definition apply_volume (w : MainWindow) (o : VolumeOp) : MainWindow :=
  match o with
  | set_volume_to level => volume_slider_setValue level w
  | set_mute b => btn_mute_setChecked b w
  end.

Definition level_ok (o : VolumeOp) : Prop :=
  match o with
  | set_volume_to level => 0 <= level <= 100
  | set_mute _ => True
  end.

(** The argument of the last [set_volume_to] of a sequence. *)
Fixpoint last_level (ops : list VolumeOp) (recorded : Z) : Z :=
  match ops with
  | [] => recorded
  | set_volume_to level :: ops => last_level ops level
  | set_mute _ :: ops => last_level ops recorded
  end.

(** The argument of the last [set_mute] of a sequence. *)
Fixpoint last_mute (ops : list VolumeOp) (muted : bool) : bool :=
  match ops with
  | [] => muted
  | set_volume_to _ :: ops => last_mute ops muted
  | set_mute b :: ops => last_mute ops b
  end.

(** [f] leaves the volume slider, the mute box and the gain alone
    whenever it returns. *)
Definition keeps_volume (f : MainWindow -> option MainWindow) : Prop :=
  forall w w', f w = Some w' -> volume_view w' = volume_view w.

Definition recorded_volume (w : MainWindow) : Z := value (volume_slider w).
Definition gain (w : MainWindow) : Q := volume (audio_player w).

(** The gain agrees with the volume slider and the mute box. *)
Definition gain_ok (w : MainWindow) : Prop :=
  minimum (volume_slider w) = 0 /\
  maximum (volume_slider w) = 100 /\
  signalsBlocked (btn_mute w) = false /\
  (gain w == if mute_on w then 0 else percent (recorded_volume w))%Q.

(** The audio player with no slot connected to its signal. *)
Definition no_listener : PlaybackState -> MainWindow -> option MainWindow :=
  fun _ w => Some w.

(** [n] firings of the fade timer. *)
Fixpoint fade_ticks (emit : PlaybackState -> MainWindow -> option MainWindow)
    (n : nat) (w : MainWindow) : option MainWindow :=
  match n with
  | O => Some w
  | S n => w ← fade_timer_timeout emit w; fade_ticks emit n w
  end.

(** The fade is over: the timer is off, the player is stopped and the
    gain is [g] again. *)
Definition faded (g : Q) (w : MainWindow) : Prop :=
  fade_timer_active (audio_player w) = false /\
  playbackState (audio_player w) = StoppedState /\
  gain w = g.

(** The window after [play_selected_track] has started [file_path] on a
    stopped player. *)
Definition track_started (media_duration : string -> Z) (file_path : string)
    (w : MainWindow) : MainWindow :=
  let w := with_ignore_auto_advance true w in
  let w := with_audio_player
             (fun p => ap_log (setSource file_path)
                         (ap_duration (media_duration file_path)
                            (ap_position 0 (ap_url (Some file_path) p)))) w in
  let w := set_playback_rate (percent (value (speed_slider w))) w in
  let w := with_audio_player
            (fun p => ap_timer true (ap_state PlayingState (ap_log play_cmd p)))
            w in
  let w := with_btn_play_pause pause_png w in
  let w := with_btn_reset true w in
  update_skip_buttons w.

(** The commands issued since the state [w]. *)
Definition issued_since (w w' : MainWindow) : list Command :=
  drop (length (commands (audio_player w))) (commands (audio_player w')).

(** *** A music folder with two tracks *)

Definition music : TrackManager.FileSystem :=
  {| TrackManager.fs_exists :=
       fun p => Py.str_in p ["/music"; "/music/a.mp3"; "/music/b.flac"];
     TrackManager.fs_is_dir := fun p => String.eqb p "/music";
     TrackManager.fs_walk := fun _ => [("/music", ["a.mp3"; "b.flac"])] |}.

Definition music_duration (_ : string) : Z := 180000.

Definition never_cancel (_ _ : Z) : bool := false.
Definition cancel_at_once (_ _ : Z) : bool := true.

Definition ten_ticks : list Event := replicate 10 fade_timer_fired.

(** Settings with a text that is no boolean under [repeat]. *)
Definition settings_maybe : ConfigManager.t :=
  {| ConfigManager.config_file := "mini_player.ini";
     ConfigManager.config_section := "Settings";
     ConfigManager.config :=
       {[ "Settings" := {[ "repeat" := "maybe"; "volume" := "loud" ]} ]} |}.

(** Settings with a further key whose text has a stray percent sign. *)
Definition settings_percent : ConfigManager.t :=
  {| ConfigManager.config_file := "mini_player.ini";
     ConfigManager.config_section := "Settings";
     ConfigManager.config := {[ "Settings" := {[ "balance" := "50%" ]} ]} |}.

(** No saved track is found again. *)
Definition no_saved_track (_ _ : string) : option string := None.

(** The window of a first session: no settings file, so the defaults. *)
Definition started : MainWindow :=
  match load_settings music no_saved_track
          (ConfigManager.new "mini_player.ini" "Settings") never_cancel init with
  | Py.Ok w => w
  | Py.Raise _ => init
  end.

(** The result of a run that is known to return. *)
Definition after (es : list Event) (w : MainWindow) : MainWindow :=
  default w (run music music_duration signal_depth es w).

(** The folder has been opened: both tracks listed, the first one
    selected, nothing loaded. *)
Definition opened : MainWindow :=
  after [folder_opened "/music" never_cancel] started.

(** The first track is playing. *)
Definition to_playing : list Event :=
  [folder_opened "/music" never_cancel; item_double_clicked].
Definition playing : MainWindow := after to_playing started.

(** The first track is playing with mute on: the gain is 0. *)
Definition to_playing_muted : list Event :=
  [folder_opened "/music" never_cancel; mute_clicked; item_double_clicked].
Definition playing_muted : MainWindow := after to_playing_muted started.

(** The first track was played, paused, and is paused still. *)
Definition to_paused : list Event :=
  [folder_opened "/music" never_cancel; item_double_clicked; play_pause_clicked].
Definition paused : MainWindow := after to_paused started.

(** Play-all is checked; the first track was played, stopped with the
    reset button, and started again with the play button. *)
Definition to_resumed : list Event :=
  [folder_opened "/music" never_cancel; play_all_clicked; item_double_clicked;
   reset_clicked] ++ ten_ticks ++ [play_pause_clicked].
Definition resumed : MainWindow := after to_resumed started.

(** The first track has played to its end with repeat checked. *)
Definition to_repeating : list Event :=
  [folder_opened "/music" never_cancel; repeat_clicked; item_double_clicked;
   track_finished].
Definition repeating : MainWindow := after to_repeating started.

(** The first track has played to its end with play-all checked. *)
Definition to_playing_all : list Event :=
  [folder_opened "/music" never_cancel; play_all_clicked; item_double_clicked;
   track_finished].
Definition playing_all : MainWindow := after to_playing_all started.

(** A file system with nothing in it. *)
Definition empty_fs : TrackManager.FileSystem :=
  {| TrackManager.fs_exists := fun _ => false;
     TrackManager.fs_is_dir := fun _ => false;
     TrackManager.fs_walk := fun _ => [] |}.

End Session.

(* ===================================================================== *)
(** ** What holds of a window throughout a session *)
(* ===================================================================== *)

Module Invariants.
Import Player.

(** The playlist shows the catalog of the track manager, which is empty
    as long as no folder is set; the list delivers its signals; the
    selection is no row or a row of the list. *)
Definition list_ok (w : MainWindow) : Prop :=
  items (playlist w) = TrackManager.track_list (track_manager w) /\
  (Py.truthy (TrackManager.current_folder (track_manager w)) = false ->
   TrackManager.track_list (track_manager w) = []) /\
  listSignalsBlocked (playlist w) = false /\
  (currentRow (playlist w) = -1 \/
   0 <= currentRow (playlist w) < count (playlist w)).

(** The two sliders keep their ranges and are within them; the rate of
    the player is between a half and one and a half, its gain and the
    gain remembered by a fade between 0 and 1. *)
Definition ranges_ok (w : MainWindow) : Prop :=
  minimum (volume_slider w) = 0 /\
  maximum (volume_slider w) = 100 /\
  0 <= value (volume_slider w) <= 100 /\
  minimum (speed_slider w) = 50 /\
  maximum (speed_slider w) = 150 /\
  50 <= value (speed_slider w) <= 150 /\
  (1 # 2 <= playbackRate (audio_player w) <= 3 # 2)%Q /\
  (0 <= volume (audio_player w) <= 1)%Q /\
  (0 <= original_volume (audio_player w) <= 1)%Q.

(** A player that is not stopped has a track loaded. *)
Definition loaded_ok (w : MainWindow) : Prop :=
  playbackState (audio_player w) <> StoppedState ->
  is_Some (current_track_url (audio_player w)).

Definition well_formed (w : MainWindow) : Prop :=
  list_ok w /\ ranges_ok w /\ loaded_ok w.

(** What [well_formed] looks at. *)
Definition formed_view (w : MainWindow)
  : QListWidget * TrackManager.t * QSlider * QSlider * Q * Q * Q
    * PlaybackState * option string :=
  (playlist w, track_manager w, volume_slider w, speed_slider w,
   playbackRate (audio_player w), volume (audio_player w),
   original_volume (audio_player w), playbackState (audio_player w),
   current_track_url (audio_player w)).

(** What [ranges_ok] and [loaded_ok] look at. *)
Definition player_view (w : MainWindow) : QSlider * QSlider * AudioPlayer :=
  (volume_slider w, speed_slider w, audio_player w).

(** [f] keeps a window well-formed whenever it returns. *)
Definition preserves (f : MainWindow -> option MainWindow) : Prop :=
  forall w w', well_formed w -> f w = Some w' -> well_formed w'.

End Invariants.

(* ===================================================================== *)
(** ** Properties of the settings store *)
(* ===================================================================== *)

Import Player Session.

Lemma interpolate_plain (opts : gmap string string) (s : string) :
  ConfigManager.plain s -> ConfigManager.interpolate opts s = Py.Ok s.
Proof.
  unfold ConfigManager.plain, ConfigManager.interpolate,
    ConfigManager.MAX_INTERPOLATION_DEPTH.
  intros Hplain. cbn [ConfigManager.interpolate_depth].
  assert (H : forall nested cs,
             ConfigManager.has_percent cs = false ->
             ConfigManager.interpolate_some nested opts (length cs) cs
             = Py.Ok cs).
  { intros nested [|c cs] Hcs; [reflexivity|].
    cbn [length ConfigManager.interpolate_some]. rewrite Hcs. reflexivity. }
  rewrite H by exact Hplain.
  cbn. rewrite string_of_list_ascii_of_string. reflexivity.
Qed.

Lemma config_get_stored {A} (c : ConfigManager.t) (key s : string) (d : A) :
  ConfigManager.stored c key = Some s -> ConfigManager.plain s ->
  ConfigManager.get c key d = Py.Ok (inl s).
Proof.
  unfold ConfigManager.stored, ConfigManager.get, ConfigManager.has_section,
    ConfigManager.config_get.
  destruct (ConfigManager.config c !! ConfigManager.config_section c)
    as [opts|] eqn:Hsec; simpl; [|discriminate].
  intros -> Hplain. rewrite interpolate_plain by exact Hplain. reflexivity.
Qed.

Lemma config_get_missing {A} (c : ConfigManager.t) (key : string) (d : A) :
  ConfigManager.stored c key = None ->
  ConfigManager.get c key d = Py.Ok (inr d).
Proof.
  unfold ConfigManager.stored, ConfigManager.get, ConfigManager.has_section,
    ConfigManager.config_get.
  destruct (ConfigManager.config c !! ConfigManager.config_section c)
    as [opts|] eqn:Hsec; simpl.
  - intros ->. reflexivity.
  - intros _. reflexivity.
Qed.

Lemma get_int_of_text (c : ConfigManager.t) (key s : string) (d : Z) :
  ConfigManager.get c key d = Py.Ok (inl s) ->
  exists v, ConfigManager.get_int c key d = Py.Ok v.
Proof.
  intros H. unfold ConfigManager.get_int. rewrite H. cbn.
  unfold Py.int_of_str.
  destruct (Py.int_of_chars _); simpl; eauto.
Qed.

(** The handlers of [get_int] do not cover the errors of the
    interpolation: a stored [50%] makes [get_int] raise. *)
Lemma get_int_percent_raises :
  ConfigManager.get_int settings_percent "balance" 50
  = Py.Raise Py.InterpolationSyntaxError.
Proof. vm_compute. reflexivity. Qed.

(** C9, as the claim states it, fails for [get_bool]: with [repeat = maybe]
    stored and the fallback [True], the answer is [False]. *)
Lemma get_bool_unparsable_fixed_value :
  ConfigManager.stored settings_maybe "repeat" = Some "maybe" /\
  ConfigManager.unparsable_bool "maybe" /\
  ConfigManager.get_bool settings_maybe "repeat" true = Py.Ok false /\
  ConfigManager.get_bool settings_maybe "repeat" true <> Py.Ok true.
Proof.
  assert (H : ConfigManager.get_bool settings_maybe "repeat" true = Py.Ok false)
    by (vm_compute; reflexivity).
  repeat split; try (vm_compute; reflexivity); try exact H.
  rewrite H. discriminate.
Qed.

(** C9 (amended): on an absent key, and on a stored text without [%]
    (one that the parser's interpolation leaves as it is), [get_int] and
    [get_bool] return.  [get_int] gives the fallback when the key is absent
    or its text is no integer.  [get_bool] gives the fallback when the key
    is absent; for a stored text it tells whether the text, lower-cased, is
    one of [true], [yes], [1], [on], so a text that is no boolean gives
    [False] whatever the fallback. *)
Theorem get_int_get_bool_lenient (c : ConfigManager.t) (key : string)
    (int_fallback : Z) (bool_fallback : bool) :
  (ConfigManager.stored c key = None ->
     ConfigManager.get_int c key int_fallback = Py.Ok int_fallback /\
     ConfigManager.get_bool c key bool_fallback = Py.Ok bool_fallback) /\
  (forall s, ConfigManager.stored c key = Some s -> ConfigManager.plain s ->
     (exists v, ConfigManager.get_int c key int_fallback = Py.Ok v) /\
     (ConfigManager.unparsable_int s ->
        ConfigManager.get_int c key int_fallback = Py.Ok int_fallback) /\
     ConfigManager.get_bool c key bool_fallback
       = Py.Ok (Py.str_in (Py.lower s) ["true"; "yes"; "1"; "on"]) /\
     (ConfigManager.unparsable_bool s ->
        ConfigManager.get_bool c key bool_fallback = Py.Ok false)).
Proof.
  split.
  - intros Hnone. unfold ConfigManager.get_int, ConfigManager.get_bool.
    rewrite !config_get_missing by assumption. cbn.
    split; [reflexivity|]. destruct bool_fallback; reflexivity.
  - intros s Hs Hplain.
    split; [apply (get_int_of_text c key s); apply config_get_stored; assumption|].
    unfold ConfigManager.get_int, ConfigManager.get_bool.
    rewrite !(config_get_stored _ _ s) by assumption. cbn.
    split; [|split].
    + unfold ConfigManager.unparsable_int. intros ->. reflexivity.
    + reflexivity.
    + unfold ConfigManager.unparsable_bool, ConfigManager.boolean_states.
      intros Hu. f_equal.
      simpl in Hu |- *.
      repeat (apply orb_false_iff in Hu; destruct Hu as [? Hu]).
      repeat (apply orb_false_iff; split); assumption.
Qed.

Lemma get_int_get_bool_lenient_witness :
  ConfigManager.get_int settings_maybe "volume" 50 = Py.Ok 50 /\
  ConfigManager.get_bool settings_maybe "repeat" true = Py.Ok false /\
  ConfigManager.get_bool settings_maybe "mute" true = Py.Ok true.
Proof.
  pose proof (get_int_get_bool_lenient settings_maybe "volume" 50 true)
    as (_ & Hv).
  pose proof (get_int_get_bool_lenient settings_maybe "repeat" 0 true)
    as (_ & Hr).
  pose proof (get_int_get_bool_lenient settings_maybe "mute" 0 true)
    as (Hm & _).
  split; [|split].
  - apply (Hv "loud"); vm_compute; reflexivity.
  - apply (Hr "maybe"); vm_compute; reflexivity.
  - apply Hm; vm_compute; reflexivity.
Defined.

(* ===================================================================== *)
(** ** Properties of the track list *)
(* ===================================================================== *)

(** C10: a path that does not exist or is no directory is refused:
    [set_folder] returns [False]; the root folder and the track list stay
    as they were, and no scan is started. *)
Theorem set_folder_failure_atomic {S : Type} (fs : TrackManager.FileSystem)
    (folder_path : string) (s : S) (tm : TrackManager.t) :
  TrackManager.fs_exists fs (TrackManager.Path folder_path) = false \/
  TrackManager.fs_is_dir fs (TrackManager.Path folder_path) = false ->
  TrackManager.set_folder fs folder_path s tm = (false, tm, s).
Proof.
  intros H. unfold TrackManager.set_folder.
  destruct H as [-> | ->]; simpl.
  - reflexivity.
  - rewrite orb_true_r. reflexivity.
Qed.

Lemma set_folder_failure_atomic_witness :
  TrackManager.set_folder music "/music/a.mp3" tt
      (track_manager opened)
    = (false, track_manager opened, tt) /\
  TrackManager.set_folder empty_fs "/nowhere" tt TrackManager.init
    = (false, TrackManager.init, tt).
Proof.
  split.
  - apply set_folder_failure_atomic. right. vm_compute. reflexivity.
  - apply set_folder_failure_atomic. left. vm_compute. reflexivity.
Defined.

(** The second pass of the scan: what it collects does not depend on the
    callback or on what the callback answers. *)
Lemma scan_file_result {S : Type} (tm : TrackManager.t) (folder : string)
    (cb cb' : option (@TrackManager.callback_t S)) (total total' : Z)
    (root : string) (file : string) acc acc' :
  acc.1 = acc'.1 ->
  (TrackManager.scan_file tm folder cb total root acc file).1
  = (TrackManager.scan_file tm folder cb' total' root acc' file).1.
Proof.
  destruct acc as [[r n] s], acc' as [[r' n'] s']. simpl.
  intros [= -> ->]. unfold TrackManager.scan_file.
  destruct (TrackManager.is_supported tm file); reflexivity.
Qed.

Lemma scan_files_result {S : Type} (tm : TrackManager.t) (folder : string)
    (cb cb' : option (@TrackManager.callback_t S)) (total total' : Z)
    (root : string) (files : list string) acc acc' :
  acc.1 = acc'.1 ->
  (fold_left (TrackManager.scan_file tm folder cb total root) files acc).1
  = (fold_left (TrackManager.scan_file tm folder cb' total' root) files acc').1.
Proof.
  revert acc acc'. induction files as [|f files IH]; intros acc acc' H.
  - exact H.
  - simpl. apply IH. apply scan_file_result. exact H.
Qed.

Lemma scan_walk_result {S : Type} (tm : TrackManager.t) (folder : string)
    (cb cb' : option (@TrackManager.callback_t S)) (total total' : Z)
    (walk : list (string * list string)) acc acc' :
  acc.1 = acc'.1 ->
  (fold_left
     (fun a '(root, files) =>
        fold_left (TrackManager.scan_file tm folder cb total root) files a)
     walk acc).1
  = (fold_left
       (fun a '(root, files) =>
          fold_left (TrackManager.scan_file tm folder cb' total' root) files a)
       walk acc').1.
Proof.
  revert acc acc'. induction walk as [|[root files] walk IH]; intros acc acc' H.
  - exact H.
  - simpl. apply IH. apply scan_files_result. exact H.
Qed.

Lemma scan_folder_ignores_callback {S : Type} (fs : TrackManager.FileSystem)
    (cb cb' : option (@TrackManager.callback_t S)) (s s' : S)
    (tm : TrackManager.t) :
  (TrackManager.scan_folder fs cb s tm).1 = (TrackManager.scan_folder fs cb' s' tm).1.
Proof.
  unfold TrackManager.scan_folder.
  destruct (negb (Py.truthy (TrackManager.current_folder tm))); [reflexivity|].
  set (folder := default "" (TrackManager.current_folder tm)).
  set (total := TrackManager.count_files tm _).
  pose proof (scan_walk_result tm folder cb cb' total total
                (TrackManager.fs_walk fs folder) ([], 0, s) ([], 0, s') eq_refl) as H.
  destruct (fold_left _ _ ([], 0, s)) as [[r n] s1].
  destruct (fold_left _ _ ([], 0, s')) as [[r' n'] s1'].
  simpl in H. injection H as -> _. reflexivity.
Qed.

(** C7 at the failing input: the user presses Cancel at the first step of
    the scan of a folder with two tracks.  The callback answers [False] at
    once, the walk goes on, and the catalog and the playlist hold both
    tracks; a walk aborted there would hold the first track only. *)
Theorem scan_runs_on_after_cancel :
  let w := populate_playlist music cancel_at_once opened in
  update_progress cancel_at_once 1 2 {| dialog_value := 0; wasCanceled := false |}
    = (false, {| dialog_value := 50; wasCanceled := true |}) /\
  TrackManager.track_list (track_manager w) = ["a.mp3"; "b.flac"] /\
  items (playlist w) = ["a.mp3"; "b.flac"] /\
  TrackManager.scan_until_cancel (track_manager opened) "/music"
    (update_progress cancel_at_once) 2
    [("/music", "a.mp3"); ("/music", "b.flac")] 0
    {| dialog_value := 0; wasCanceled := false |} = ["a.mp3"].
Proof.
  vm_compute. repeat split; reflexivity.
Qed.
(* ===================================================================== *)
(** ** Settings: what is set is what is read *)
(* ===================================================================== *)

Lemma drop_double_percent_plain (cs : list ascii) :
  ConfigManager.has_percent cs = false ->
  ConfigManager.drop_double_percent cs = cs.
Proof.
  induction cs as [|c1 [|c2 r] IH]; intros H; try reflexivity.
  cbn [ConfigManager.drop_double_percent].
  simpl in H. apply orb_false_iff in H as [H1 H2].
  rewrite H1. cbn [andb]. f_equal. apply IH. exact H2.
Qed.

Lemma drop_references_plain (rounds : nat) (cs : list ascii) :
  ConfigManager.has_percent cs = false ->
  ConfigManager.drop_references rounds cs = cs.
Proof.
  revert cs. induction rounds as [|rounds IH]; intros cs H; [reflexivity|].
  destruct cs as [|c1 [|c2 r]]; try reflexivity.
  cbn [ConfigManager.drop_references].
  simpl in H. apply orb_false_iff in H as [H1 H2].
  rewrite H1. cbn [andb]. f_equal. apply IH. exact H2.
Qed.

Lemma before_set_plain (value : string) :
  ConfigManager.plain value -> ConfigManager.before_set value = Py.Ok value.
Proof.
  unfold ConfigManager.plain, ConfigManager.before_set. intros H.
  rewrite (drop_double_percent_plain _ H), (drop_references_plain _ _ H), H.
  reflexivity.
Qed.

(** [set] with a text that has no percent sign stores it under the
    lower-cased key. *)
Lemma set_plain (c : ConfigManager.t) (key value : string) :
  ConfigManager.config_section c <> "DEFAULT" ->
  ConfigManager.plain value ->
  ConfigManager.set c key value
  = Py.Ok {| ConfigManager.config_file := ConfigManager.config_file c;
             ConfigManager.config_section := ConfigManager.config_section c;
             ConfigManager.config :=
               <[ConfigManager.config_section c :=
                   <[ConfigManager.optionxform key := value]>
                     (default ∅ (ConfigManager.config c
                                   !! ConfigManager.config_section c))]>
                 (ConfigManager.config c) |}.
Proof.
  intros Hsec Hv. unfold ConfigManager.set.
  apply String.eqb_neq in Hsec. rewrite Hsec, andb_false_r.
  cbn [mbind Py.result_bind].
  destruct (String.eqb value ""); [reflexivity|].
  rewrite (before_set_plain _ Hv). reflexivity.
Qed.

(** The stored texts after a [set]. *)
Lemma stored_set (c c' : ConfigManager.t) (key value k : string) :
  ConfigManager.config_section c <> "DEFAULT" ->
  ConfigManager.plain value ->
  ConfigManager.set c key value = Py.Ok c' ->
  ConfigManager.config_section c' = ConfigManager.config_section c /\
  ConfigManager.config_file c' = ConfigManager.config_file c /\
  ConfigManager.stored c' k
  = if String.eqb (Py.lower k) (Py.lower key) then Some value
    else ConfigManager.stored c k.
Proof.
  intros Hsec Hv. rewrite (set_plain _ _ _ Hsec Hv). intros [= <-].
  split; [reflexivity|]. split; [reflexivity|].
  unfold ConfigManager.stored, ConfigManager.optionxform.
  cbn [ConfigManager.config ConfigManager.config_section].
  rewrite lookup_insert_eq. cbn [mbind option_bind].
  destruct (String.eqb_spec (Py.lower k) (Py.lower key)) as [->|Hne].
  - apply lookup_insert_eq.
  - rewrite lookup_insert_ne by congruence.
    destruct (ConfigManager.config c !! ConfigManager.config_section c);
      reflexivity.
Qed.

Lemma all_plain_set (c c' : ConfigManager.t) (key value : string) :
  ConfigManager.config_section c <> "DEFAULT" ->
  ConfigManager.plain value ->
  ConfigManager.all_plain c ->
  ConfigManager.set c key value = Py.Ok c' ->
  ConfigManager.all_plain c'.
Proof.
  intros Hsec Hv Hall Hset k s.
  destruct (stored_set c c' key value k Hsec Hv Hset) as (_ & _ & ->).
  destruct (String.eqb _ _).
  - intros [= <-]. exact Hv.
  - apply Hall.
Qed.

(** X1: a text without percent sign that is [set] under a key is what
    [get] returns for that key, however the key is capitalised; the texts
    stored under the other keys, the other sections and the file name stay
    as they are. *)
Theorem set_then_get (c : ConfigManager.t) (key value : string) :
  ConfigManager.named_section c ->
  ConfigManager.plain value ->
  exists c',
    ConfigManager.set c key value = Py.Ok c' /\
    ConfigManager.config_section c' = ConfigManager.config_section c /\
    ConfigManager.config_file c' = ConfigManager.config_file c /\
    (forall (k : string) (fallback : string),
       Py.lower k = Py.lower key ->
       ConfigManager.get c' k fallback = Py.Ok (inl value)) /\
    (forall k : string,
       Py.lower k <> Py.lower key ->
       ConfigManager.stored c' k = ConfigManager.stored c k) /\
    (forall section : string,
       section <> ConfigManager.config_section c ->
       ConfigManager.config c' !! section = ConfigManager.config c !! section).
Proof.
  intros [_ Hsec] Hv.
  pose proof (set_plain c key value Hsec Hv) as Hset.
  eexists. split; [exact Hset|].
  split; [reflexivity|]. split; [reflexivity|]. split; [|split].
  - intros k fallback Hk.
    apply config_get_stored; [|exact Hv].
    destruct (stored_set _ _ _ _ k Hsec Hv Hset) as (_ & _ & ->).
    rewrite Hk, String.eqb_refl. reflexivity.
  - intros k Hk.
    destruct (stored_set _ _ _ _ k Hsec Hv Hset) as (_ & _ & ->).
    apply String.eqb_neq in Hk. rewrite Hk. reflexivity.
  - intros section Hne. cbn [ConfigManager.config].
    apply lookup_insert_ne. congruence.
Qed.

Lemma set_then_get_witness :
  exists c',
    ConfigManager.set (ConfigManager.new "mini_player.ini" "Settings")
      "Last_Folder" "/music" = Py.Ok c' /\
    ConfigManager.get c' "LAST_FOLDER" "" = Py.Ok (inl "/music") /\
    ConfigManager.stored c' "volume" = Some "50".
Proof.
  destruct (set_then_get (ConfigManager.new "mini_player.ini" "Settings")
              "Last_Folder" "/music")
    as (c' & Hset & _ & _ & Hget & Hother & _).
  - split; discriminate.
  - reflexivity.
  - exists c'. split; [exact Hset|]. split.
    + apply Hget. reflexivity.
    + rewrite Hother; [reflexivity|discriminate].
Defined.

(** *** [int(str(n))] *)

Lemma digit_char_facts (d : Z) :
  0 <= d < 10 ->
  Py.digit_of (Py.digit_char d) = Some d /\
  Py.is_space (Py.digit_char d) = false /\
  ConfigManager.is_percent (Py.digit_char d) = false /\
  Ascii.eqb (Py.digit_char d) "-"%char = false /\
  Ascii.eqb (Py.digit_char d) "+"%char = false.
Proof.
  intros H.
  assert (d = 0 \/ d = 1 \/ d = 2 \/ d = 3 \/ d = 4 \/ d = 5 \/ d = 6 \/ d = 7
          \/ d = 8 \/ d = 9) as Hd by lia.
  repeat destruct Hd as [->|Hd]; try subst d; repeat split; reflexivity.
Qed.

(** The characters of [decimal] are digits, and read back they give the
    number. *)
Lemma decimal_spec (steps : nat) (n : Z) :
  0 <= n < 2 ^ Z.of_nat steps ->
  Forall (fun c => exists d, 0 <= d < 10 /\ c = Py.digit_char d)
         (Py.decimal steps n) /\
  fold_left (fun a c => 10 * a + default 0 (Py.digit_of c))
            (Py.decimal steps n) 0 = n.
Proof.
  revert n. induction steps as [|steps IH]; intros n Hn.
  - simpl in *. split; [constructor|lia].
  - cbn [Py.decimal]. destruct (Z.ltb_spec n 10) as [Hlt|Hge].
    + split.
      * constructor; [|constructor]. exists n. split; [lia|reflexivity].
      * cbn [fold_left].
        destruct (digit_char_facts n) as (-> & _); [lia|].
        cbn [default from_option id]. lia.
    + assert (0 <= n / 10 < 2 ^ Z.of_nat steps) as Hq.
      { split; [apply Z.div_pos; lia|].
        apply Z.div_lt_upper_bound; [lia|].
        rewrite Nat2Z.inj_succ, Z.pow_succ_r in Hn by lia. lia. }
      destruct (IH _ Hq) as [IH1 IH2].
      assert (0 <= n mod 10 < 10) as Hm by (apply Z.mod_pos_bound; lia).
      split.
      * apply Forall_app. split; [exact IH1|].
        constructor; [|constructor]. exists (n mod 10). split; [lia|reflexivity].
      * rewrite fold_left_app, IH2. cbn [fold_left].
        destruct (digit_char_facts (n mod 10) Hm) as (-> & _).
        cbn [default from_option id].
        pose proof (Z.div_mod n 10). lia.
Qed.

Lemma decimal_nonempty (steps : nat) (n : Z) : Py.decimal (S steps) n <> [].
Proof.
  cbn [Py.decimal]. destruct (n <? 10); [discriminate|].
  destruct (Py.decimal steps (n / 10)); discriminate.
Qed.

Lemma decimal_of_spec (n : Z) :
  0 <= n ->
  Forall (fun c => exists d, 0 <= d < 10 /\ c = Py.digit_char d)
         (Py.decimal_of n) /\
  Py.decimal_of n <> [] /\
  fold_left (fun a c => 10 * a + default 0 (Py.digit_of c))
            (Py.decimal_of n) 0 = n.
Proof.
  intros Hn. unfold Py.decimal_of.
  assert (0 <= n < 2 ^ Z.of_nat (S (Z.to_nat (Z.log2 n)))) as Hb.
  { split; [exact Hn|].
    rewrite Nat2Z.inj_succ, Z2Nat.id by apply Z.log2_nonneg.
    destruct (Z.eq_dec n 0) as [->|Hne]; [reflexivity|].
    apply Z.log2_spec. lia. }
  destruct (decimal_spec _ _ Hb) as [H1 H2].
  split; [exact H1|]. split; [apply decimal_nonempty|exact H2].
Qed.

Lemma digits_all (l : list ascii) (acc : Z) (b : bool) :
  Forall (fun c => exists d, 0 <= d < 10 /\ c = Py.digit_char d) l ->
  l <> [] \/ b = true ->
  Py.digits acc b l
  = Some (fold_left (fun a c => 10 * a + default 0 (Py.digit_of c)) l acc).
Proof.
  intros Hl. revert acc b. induction Hl as [|c r (d & Hd & ->) _ IH];
    intros acc b Hb.
  - destruct Hb as [Hb| ->]; [congruence|reflexivity].
  - cbn [Py.digits fold_left].
    destruct (digit_char_facts d Hd) as (-> & _).
    cbn [default from_option id].
    apply IH. right. reflexivity.
Qed.

Lemma lstrip_head (c : ascii) (r : list ascii) :
  Py.is_space c = false -> Py.lstrip (c :: r) = c :: r.
Proof. intros H. simpl. rewrite H. reflexivity. Qed.

Lemma strip_digits (l : list ascii) :
  Forall (fun c => exists d, 0 <= d < 10 /\ c = Py.digit_char d) l ->
  Py.strip l = l.
Proof.
  intros Hl. unfold Py.strip.
  assert (Py.lstrip l = l) as ->.
  { destruct Hl as [|c r (d & Hd & ->) _]; [reflexivity|].
    apply lstrip_head. apply (digit_char_facts d Hd). }
  apply Forall_rev in Hl.
  assert (Py.lstrip (rev l) = rev l) as ->.
  { destruct Hl as [|c r (d & Hd & ->) _]; [reflexivity|].
    apply lstrip_head. apply (digit_char_facts d Hd). }
  apply rev_involutive.
Qed.

Lemma strip_minus_digits (l : list ascii) :
  Forall (fun c => exists d, 0 <= d < 10 /\ c = Py.digit_char d) l ->
  l <> [] ->
  Py.strip ("-"%char :: l) = "-"%char :: l.
Proof.
  intros Hl Hne. unfold Py.strip.
  rewrite lstrip_head by reflexivity.
  apply Forall_rev in Hl.
  assert (rev l <> []) as Hne'.
  { intros H. apply Hne. rewrite <- (rev_involutive l), H. reflexivity. }
  assert (Py.lstrip (rev ("-"%char :: l)) = rev ("-"%char :: l)) as ->.
  { cbn [rev]. destruct Hl as [|c r (d & Hd & ->) _]; [congruence|].
    cbn [app]. apply lstrip_head. apply (digit_char_facts d Hd). }
  apply rev_involutive.
Qed.

(** [int(str(n)) == n] *)
Lemma int_of_str_of_Z (n : Z) : Py.int_of_str (Py.str_of_Z n) = Py.Ok n.
Proof.
  unfold Py.int_of_str, Py.str_of_Z.
  rewrite list_ascii_of_string_of_list_ascii. unfold Py.int_of_chars.
  destruct (Z.ltb_spec n 0) as [Hneg|Hpos].
  - destruct (decimal_of_spec (- n)) as (Hd & Hne & Hv); [lia|].
    rewrite (strip_minus_digits _ Hd Hne). cbn [Ascii.eqb Bool.eqb].
    rewrite (digits_all _ 0 false Hd (or_introl Hne)), Hv.
    cbn [fmap option_fmap option_map]. f_equal. lia.
  - destruct (decimal_of_spec n Hpos) as (Hd & Hne & Hv).
    rewrite (strip_digits _ Hd).
    destruct (Py.decimal_of n) as [|c r] eqn:E; [congruence|].
    destruct (Forall_inv Hd) as (d & Hdr & Hc).
    destruct (digit_char_facts d Hdr) as (_ & _ & _ & Hminus & Hplus).
    rewrite <- Hc in Hminus, Hplus. rewrite Hminus, Hplus.
    rewrite (digits_all _ 0 false Hd (or_introl Hne)), Hv. reflexivity.
Qed.

Lemma plain_str_of_Z (n : Z) : ConfigManager.plain (Py.str_of_Z n).
Proof.
  unfold ConfigManager.plain, Py.str_of_Z.
  rewrite list_ascii_of_string_of_list_ascii.
  assert (forall l,
             Forall (fun c => exists d, 0 <= d < 10 /\ c = Py.digit_char d) l ->
             ConfigManager.has_percent l = false) as Hall.
  { intros l Hl. induction Hl as [|c r (d & Hd & ->) _ IH]; [reflexivity|].
    unfold ConfigManager.has_percent. cbn [existsb]. destruct (digit_char_facts d Hd) as (_ & _ & -> & _). exact IH. }
  destruct (Z.ltb_spec n 0).
  - unfold ConfigManager.has_percent. cbn [existsb].
    change (ConfigManager.is_percent "-"%char) with false. cbn [orb].
    apply Hall. apply decimal_of_spec. lia.
  - apply Hall. apply decimal_of_spec. lia.
Qed.

Lemma plain_str_of_bool (b : bool) : ConfigManager.plain (Py.str_of_bool b).
Proof. destruct b; reflexivity. Qed.

Lemma get_int_stored (c : ConfigManager.t) (key : string) (n fallback : Z) :
  ConfigManager.stored c key = Some (Py.str_of_Z n) ->
  ConfigManager.get_int c key fallback = Py.Ok n.
Proof.
  intros H. unfold ConfigManager.get_int.
  rewrite (config_get_stored c key _ fallback H (plain_str_of_Z n)).
  cbn [mbind Py.result_bind]. rewrite int_of_str_of_Z. reflexivity.
Qed.

Lemma get_bool_stored (c : ConfigManager.t) (key : string) (b fallback : bool) :
  ConfigManager.stored c key = Some (Py.str_of_bool b) ->
  ConfigManager.get_bool c key fallback = Py.Ok b.
Proof.
  intros H. unfold ConfigManager.get_bool.
  rewrite (config_get_stored c key _ _ H (plain_str_of_bool b)).
  destruct b; reflexivity.
Qed.

(** X2: an integer written with [set] (which stores [str(n)]) is the
    integer that [get_int] reads back, whatever the fallback and the
    capitalisation of the key. *)
Theorem set_int_then_get_int (c : ConfigManager.t) (key k : string)
    (n fallback : Z) :
  ConfigManager.named_section c ->
  Py.lower k = Py.lower key ->
  exists c',
    ConfigManager.set c key (Py.str_of_Z n) = Py.Ok c' /\
    ConfigManager.get_int c' k fallback = Py.Ok n.
Proof.
  intros [_ Hsec] Hk.
  pose proof (set_plain c key _ Hsec (plain_str_of_Z n)) as Hset.
  eexists. split; [exact Hset|].
  apply get_int_stored.
  destruct (stored_set _ _ _ _ k Hsec (plain_str_of_Z n) Hset) as (_ & _ & ->).
  rewrite Hk, String.eqb_refl. reflexivity.
Qed.

Lemma set_int_then_get_int_witness :
  exists c',
    ConfigManager.set (ConfigManager.new "mini_player.ini" "Settings")
      "volume" (Py.str_of_Z (-307)) = Py.Ok c' /\
    ConfigManager.get_int c' "Volume" 50 = Py.Ok (-307).
Proof.
  apply (set_int_then_get_int (ConfigManager.new "mini_player.ini" "Settings")
           "volume" "Volume" (-307) 50).
  - split; discriminate.
  - reflexivity.
Defined.

(** X3: a truth value written with [set] (which stores [str(b)]) is the
    value that [get_bool] reads back, whatever the fallback. *)
Theorem set_bool_then_get_bool (c : ConfigManager.t) (key k : string)
    (b fallback : bool) :
  ConfigManager.named_section c ->
  Py.lower k = Py.lower key ->
  exists c',
    ConfigManager.set c key (Py.str_of_bool b) = Py.Ok c' /\
    ConfigManager.get_bool c' k fallback = Py.Ok b.
Proof.
  intros [_ Hsec] Hk.
  pose proof (set_plain c key _ Hsec (plain_str_of_bool b)) as Hset.
  eexists. split; [exact Hset|].
  apply get_bool_stored.
  destruct (stored_set _ _ _ _ k Hsec (plain_str_of_bool b) Hset) as (_ & _ & ->).
  rewrite Hk, String.eqb_refl. reflexivity.
Qed.

Lemma set_bool_then_get_bool_witness :
  exists c',
    ConfigManager.set (ConfigManager.new "mini_player.ini" "Settings")
      "mute" (Py.str_of_bool false) = Py.Ok c' /\
    ConfigManager.get_bool c' "mute" true = Py.Ok false.
Proof.
  apply (set_bool_then_get_bool
           (ConfigManager.new "mini_player.ini" "Settings")
           "mute" "mute" false true).
  - split; discriminate.
  - reflexivity.
Defined.

(* ===================================================================== *)
(** ** When the saving of the settings returns *)
(* ===================================================================== *)

(** [save_settings] returns when the folder and the URL of the track hold
    no percent sign: the numbers and the booleans never do. *)
Lemma save_settings_returns (toString : string -> string) (w : MainWindow)
    (c : ConfigManager.t) :
  ConfigManager.config_section c <> "DEFAULT" ->
  Ui.savable toString w ->
  exists c', Ui.save_settings toString w c = Py.Ok c'.
Proof.
  intros Hsec [Hfolder Hurl]. unfold Ui.save_settings.
  rewrite (set_plain c "volume" _ Hsec (plain_str_of_Z _)).
  cbn [mbind Py.result_bind].
  rewrite set_plain by (try apply plain_str_of_Z; exact Hsec).
  cbn [mbind Py.result_bind].
  rewrite set_plain by (try apply plain_str_of_bool; exact Hsec).
  cbn [mbind Py.result_bind].
  rewrite set_plain by (try apply plain_str_of_bool; exact Hsec).
  cbn [mbind Py.result_bind].
  rewrite set_plain by (try apply plain_str_of_bool; exact Hsec).
  cbn [mbind Py.result_bind].
  set (c5 := {| ConfigManager.config_file := _ |}).
  assert (ConfigManager.config_section c5 <> "DEFAULT") as Hsec5 by exact Hsec.
  clearbody c5.
  assert (exists c6,
             (if Py.truthy (TrackManager.current_folder (track_manager w))
              then ConfigManager.set c5 "last_folder"
                     (default "" (TrackManager.current_folder (track_manager w)))
              else Py.Ok c5) = Py.Ok c6 /\
             ConfigManager.config_section c6 <> "DEFAULT")
    as (c6 & -> & Hsec6).
  { destruct (TrackManager.current_folder (track_manager w)) as [folder|]
      eqn:Hf; cbn [Py.truthy default from_option id].
    - destruct (negb (String.eqb folder "")).
      + rewrite (set_plain c5 "last_folder" folder Hsec5 (Hfolder folder eq_refl)).
        eexists. split; [reflexivity | exact Hsec5].
      + exists c5. auto.
    - exists c5. auto. }
  cbn [mbind Py.result_bind].
  destruct (current_track_url (audio_player w)) as [url|] eqn:Hu.
  - rewrite (set_plain c6 "last_track" (toString url) Hsec6 (Hurl url eq_refl)).
    eexists. reflexivity.
  - exists c6. reflexivity.
Qed.

(** Whether a window is savable hangs on its folder and its track only. *)
Lemma savable_same (toString : string -> string) (w w' : MainWindow) :
  TrackManager.current_folder (track_manager w')
  = TrackManager.current_folder (track_manager w) ->
  current_track_url (audio_player w') = current_track_url (audio_player w) ->
  Ui.savable toString w -> Ui.savable toString w'.
Proof. unfold Ui.savable. intros -> ->. tauto. Qed.

(* ===================================================================== *)
(** ** The mode flags are touched by their own slots only *)
(* ===================================================================== *)

Ltac split_run :=
  repeat match goal with
  | H : Some _ = Some _ |- _ => apply (inj Some) in H; subst
  | H : None = Some _ |- _ => discriminate H
  | H : mbind _ _ = Some _ |- _ =>
      let x := fresh "w" in
      let H1 := fresh "Hrun" in
      apply bind_Some in H as (x & H1 & H)
  | H : (if ?c then _ else _) = Some _ |- _ => destruct c eqn:?
  | H : match ?x with Some _ => _ | None => _ end = Some _ |- _ =>
      destruct x eqn:?
  end.

Ltac use L :=
  match goal with
  | H : _ = Some _ |- _ => apply L in H
  end.

Ltac pure_modes :=
  intros; unfold modes in *; simpl;
  repeat (case_match; simpl); try reflexivity; try congruence.

Lemma modes_audio f w : modes (with_audio_player f w) = modes w.
Proof. reflexivity. Qed.
Lemma modes_set_volume q w : modes (set_volume q w) = modes w.
Proof. reflexivity. Qed.
Lemma modes_set_playback_rate q w : modes (set_playback_rate q w) = modes w.
Proof. reflexivity. Qed.
Lemma modes_seek x w : modes (seek x w) = modes w.
Proof. reflexivity. Qed.
Lemma modes_fade_out w : modes (fade_out w) = modes w.
Proof. unfold fade_out. pure_modes. Qed.
Lemma modes_update_skip_buttons w : modes (update_skip_buttons w) = modes w.
Proof. reflexivity. Qed.
Lemma modes_playlist_setCurrentRow r w :
  modes (playlist_setCurrentRow r w) = modes w.
Proof. unfold playlist_setCurrentRow, setCurrentRow. pure_modes. Qed.
Lemma modes_playlist_blockSignals b w :
  modes (playlist_blockSignals b w) = modes w.
Proof. reflexivity. Qed.
Lemma modes_update_speed w : modes (update_speed w) = modes w.
Proof. unfold update_speed. pure_modes. Qed.
Lemma modes_update_volume w : modes (update_volume w) = modes w.
Proof. unfold update_volume. pure_modes. Qed.
Lemma modes_toggle_mute b w : modes (toggle_mute b w) = modes w.
Proof. unfold toggle_mute. pure_modes. Qed.
Lemma modes_btn_mute_setChecked b w : modes (btn_mute_setChecked b w) = modes w.
Proof. unfold btn_mute_setChecked, setChecked, toggle_mute. pure_modes. Qed.
Lemma modes_volume_slider_setValue v w :
  modes (volume_slider_setValue v w) = modes w.
Proof. unfold volume_slider_setValue, setValue, update_volume. pure_modes. Qed.
Lemma modes_speed_slider_setValue v w :
  modes (speed_slider_setValue v w) = modes w.
Proof. unfold speed_slider_setValue, setValue, update_speed. pure_modes. Qed.
Lemma modes_reset_playback w : modes (reset_playback w) = modes w.
Proof. unfold reset_playback, fade_out. pure_modes. Qed.
Lemma modes_reset_ui w : modes (reset_ui w) = modes w.
Proof. reflexivity. Qed.
Lemma modes_playlist_clear w : modes (playlist_clear w) = modes w.
Proof. unfold playlist_clear. pure_modes. Qed.
Lemma modes_add_items tracks w :
  modes (fold_left playlist_addItem tracks w) = modes w.
Proof.
  revert w. induction tracks as [|t tracks IH]; intros w; [reflexivity|].
  simpl. rewrite IH. reflexivity.
Qed.
Lemma modes_populate_playlist fs pc w : modes (populate_playlist fs pc w) = modes w.
Proof.
  unfold populate_playlist.
  destruct (TrackManager.scan_folder _ _ _ _) as [[tracks tm] d].
  rewrite modes_update_skip_buttons.
  case_match; rewrite ?modes_playlist_setCurrentRow, modes_add_items;
    apply modes_playlist_clear.
Qed.
Lemma modes_open_folder fs path pc w : modes (open_folder fs path pc w) = modes w.
Proof.
  unfold open_folder.
  destruct (TrackManager.set_folder _ _ _ _) as [[ok tm] u].
  rewrite modes_populate_playlist. reflexivity.
Qed.

Create Rewrite HintDb modes.
#[local] Hint Rewrite modes_audio modes_set_volume modes_set_playback_rate
  modes_seek modes_fade_out modes_update_skip_buttons
  modes_playlist_setCurrentRow modes_playlist_blockSignals modes_update_speed
  modes_update_volume modes_toggle_mute modes_btn_mute_setChecked
  modes_volume_slider_setValue modes_speed_slider_setValue
  modes_reset_playback modes_reset_ui modes_populate_playlist
  modes_open_folder : modes.

Section Frames.
Variable fs : TrackManager.FileSystem.
Variable media_duration : string -> Z.
Variable emit : PlaybackState -> MainWindow -> option MainWindow.
Hypothesis emit_keeps : forall s, keeps_modes (emit s).

Ltac chain :=
  repeat match goal with
  | H : emit _ _ = Some _ |- _ => apply emit_keeps in H
  end;
  autorewrite with modes in *; unfold modes in *; simpl in *; congruence.

Lemma keeps_setPlaybackState s : keeps_modes (setPlaybackState emit s).
Proof. intros w w' H. unfold setPlaybackState in H. split_run; chain. Qed.

Lemma keeps_media_player_play : keeps_modes (media_player_play emit).
Proof.
  intros w w' H. unfold media_player_play in H. simpl in H. split_run.
  - use keeps_setPlaybackState. chain.
  - chain.
Qed.

Lemma keeps_media_player_pause : keeps_modes (media_player_pause emit).
Proof.
  intros w w' H. unfold media_player_pause in H. simpl in H. split_run.
  - use keeps_setPlaybackState. chain.
  - chain.
Qed.

Lemma keeps_media_player_stop : keeps_modes (media_player_stop emit).
Proof.
  intros w w' H. unfold media_player_stop in H.
  use keeps_setPlaybackState. chain.
Qed.

Lemma keeps_media_player_setSource url :
  keeps_modes (media_player_setSource media_duration emit url).
Proof.
  intros w w' H. unfold media_player_setSource in H.
  use keeps_setPlaybackState. chain.
Qed.

Lemma keeps_play : keeps_modes (play emit).
Proof.
  intros w w' H. unfold play in H. split_run.
  use keeps_media_player_play. chain.
Qed.

Lemma keeps_pause : keeps_modes (pause emit).
Proof.
  intros w w' H. unfold pause in H. split_run.
  use keeps_media_player_pause. chain.
Qed.

Lemma keeps_stop : keeps_modes (stop emit).
Proof.
  intros w w' H. unfold stop in H. split_run.
  use keeps_media_player_stop. chain.
Qed.

Lemma keeps_load_track path : keeps_modes (load_track fs media_duration emit path).
Proof.
  intros w w' H. unfold load_track in H. split_run; [chain|].
  use keeps_media_player_setSource. chain.
Qed.

Lemma keeps_fade_step : keeps_modes (_fade_step emit).
Proof.
  intros w w' H. unfold _fade_step in H. split_run; [chain|].
  use keeps_media_player_stop. chain.
Qed.

Lemma keeps_fade_timer_timeout : keeps_modes (fade_timer_timeout emit).
Proof.
  intros w w' H. unfold fade_timer_timeout in H. split_run; [|chain].
  use keeps_fade_step. chain.
Qed.

Lemma keeps_play_selected_track :
  keeps_modes (play_selected_track fs media_duration emit).
Proof.
  intros w w' H. unfold play_selected_track in H. split_run;
    repeat first [use keeps_stop | use keeps_load_track | use keeps_play];
    chain.
Qed.

Lemma keeps_toggle_play_pause :
  keeps_modes (toggle_play_pause fs media_duration emit).
Proof.
  intros w w' H. unfold toggle_play_pause in H. split_run;
    repeat first [use keeps_pause | use keeps_play
                 | use keeps_play_selected_track];
    chain.
Qed.

Lemma keeps_skip_to_next : keeps_modes (skip_to_next fs media_duration emit).
Proof.
  intros w w' H. unfold skip_to_next in H. split_run;
    try use keeps_play_selected_track; chain.
Qed.

Lemma keeps_skip_to_previous :
  keeps_modes (skip_to_previous fs media_duration emit).
Proof.
  intros w w' H. unfold skip_to_previous in H. split_run;
    try use keeps_play_selected_track; chain.
Qed.

Lemma keeps_handle_playback_state_changed s :
  keeps_modes (handle_playback_state_changed fs media_duration emit s).
Proof.
  intros w w' H. unfold handle_playback_state_changed in H.
  split_run;
    repeat first [use keeps_play | use keeps_play_selected_track]; chain.
Qed.

Lemma keeps_handle_media_status_changed s :
  keeps_modes (handle_media_status_changed fs media_duration emit s).
Proof.
  intros w w' H. unfold handle_media_status_changed in H.
  split_run;
    repeat first [use keeps_play | use keeps_play_selected_track]; chain.
Qed.

End Frames.

Lemma keeps_playbackStateChanged fs media_duration depth s :
  keeps_modes (playbackStateChanged fs media_duration depth s).
Proof.
  revert s. induction depth as [|n IH]; intros s w w' H; simpl in H.
  - discriminate.
  - eapply keeps_handle_playback_state_changed; [exact IH | exact H].
Qed.

(* ===================================================================== *)
(** ** Repeat and play-all exclude each other *)
(* ===================================================================== *)

Lemma setChecked_blocked b c :
  signalsBlocked c = true -> (setChecked b c).2 = None.
Proof.
  intros H. unfold setChecked. destruct (Bool.eqb _ _); simpl; [reflexivity|].
  rewrite H. reflexivity.
Qed.

Lemma modes_ok_of_modes w w' : modes w' = modes w -> modes_ok w -> modes_ok w'.
Proof.
  unfold modes, modes_ok, repeat_on, play_all_on. intros [= -> ->]. tauto.
Qed.

Lemma modes_ok_init : modes_ok init.
Proof. repeat split. Qed.

Lemma repeat_setChecked_ok b w :
  modes_ok w ->
  let w' := btn_repeat_setChecked b w in
  modes_ok w' /\ repeat_on w' = b /\
  (b = true -> play_all_on w' = false) /\
  (b = false -> play_all_on w' = play_all_on w).
Proof.
  unfold modes_ok, repeat_on, play_all_on, btn_repeat_setChecked,
    on_repeat_toggled, setChecked, blockSignals.
  destruct w as [ap tm us ig [r rb] bm [p pb] vs ss pl ic br bp bn wn].
  simpl. intros (-> & -> & H).
  destruct b, r, p; simpl in *; try discriminate; repeat split; congruence.
Qed.

Lemma play_all_setChecked_ok b w :
  modes_ok w ->
  let w' := btn_play_all_setChecked b w in
  modes_ok w' /\ play_all_on w' = b /\
  (b = true -> repeat_on w' = false) /\
  (b = false -> repeat_on w' = repeat_on w).
Proof.
  unfold modes_ok, repeat_on, play_all_on, btn_play_all_setChecked,
    on_play_all_toggled, setChecked, blockSignals.
  destruct w as [ap tm us ig [r rb] bm [p pb] vs ss pl ic br bp bn wn].
  simpl. intros (-> & -> & H).
  destruct b, r, p; simpl in *; try discriminate; repeat split; congruence.
Qed.

Lemma modes_ok_apply_mode o w : modes_ok w -> modes_ok (apply_mode w o).
Proof.
  intros H. destruct o; simpl; unfold btn_repeat_toggle, btn_play_all_toggle.
  - apply (repeat_setChecked_ok b w H).
  - apply (play_all_setChecked_ok b w H).
  - apply (repeat_setChecked_ok _ w H).
  - apply (play_all_setChecked_ok _ w H).
Qed.

Lemma modes_ok_apply_modes ops w :
  modes_ok w -> modes_ok (fold_left apply_mode ops w).
Proof.
  revert w. induction ops as [|o ops IH]; intros w H; [exact H|].
  simpl. apply IH. apply modes_ok_apply_mode. exact H.
Qed.

Lemma modes_ok_load_settings fs rel c pc w w' :
  load_settings fs rel c pc w = Py.Ok w' -> modes_ok w -> modes_ok w'.
Proof.
  unfold load_settings. intros H Hok.
  destruct (ConfigManager.get_int c "volume" 50) as [volume|]; [|discriminate].
  destruct (ConfigManager.get_int c "speed" 100) as [speed|]; [|discriminate].
  destruct (ConfigManager.get_bool c "repeat" false) as [rp|]; [|discriminate].
  destruct (ConfigManager.get_bool c "mute" false) as [mu|]; [|discriminate].
  destruct (ConfigManager.get_bool c "play_all" false) as [pa|]; [|discriminate].
  destruct (ConfigManager.get c "last_folder" "") as [lf|]; [|discriminate].
  destruct (ConfigManager.get c "last_track" "") as [lt|]; [|discriminate].
  simpl in H. injection H as <-.
  set (w1 := btn_play_all_setChecked pa _).
  assert (H1 : modes_ok w1).
  { apply play_all_setChecked_ok.
    eapply modes_ok_of_modes; [apply modes_btn_mute_setChecked|].
    apply repeat_setChecked_ok.
    eapply modes_ok_of_modes; [|exact Hok].
    rewrite modes_speed_slider_setValue. apply modes_volume_slider_setValue. }
  eapply modes_ok_of_modes; [|exact H1].
  rewrite modes_update_skip_buttons, modes_update_speed, modes_update_volume.
  repeat (case_match; rewrite ?modes_playlist_setCurrentRow, ?modes_open_folder);
    reflexivity.
Qed.

Lemma modes_ok_dispatch fs media_duration depth e w w' :
  dispatch fs media_duration depth e w = Some w' -> modes_ok w -> modes_ok w'.
Proof.
  intros H Hok.
  pose proof (keeps_playbackStateChanged fs media_duration depth) as Hemit.
  destruct e; simpl in H;
    try (apply (inj Some) in H; subst w');
    [ eapply modes_ok_of_modes; [|exact Hok]
    | eapply modes_ok_of_modes; [|exact Hok]
    | eapply modes_ok_of_modes; [|exact Hok]
    | eapply modes_ok_of_modes; [|exact Hok]
    | eapply modes_ok_of_modes; [|exact Hok]
    | eapply modes_ok_of_modes; [|exact Hok]
    | eapply modes_ok_of_modes; [|exact Hok]
    | eapply modes_ok_of_modes; [|exact Hok]
    | | 
    | eapply modes_ok_of_modes; [|exact Hok]
    | eapply modes_ok_of_modes; [|exact Hok]
    | eapply modes_ok_of_modes; [|exact Hok]
    | eapply modes_ok_of_modes; [|exact Hok]
    | eapply modes_ok_of_modes; [|exact Hok] ].
  - eapply keeps_toggle_play_pause; eassumption.
  - eapply keeps_play_selected_track; eassumption.
  - apply modes_reset_playback.
  - eapply keeps_skip_to_previous; eassumption.
  - eapply keeps_skip_to_next; eassumption.
  - apply modes_volume_slider_setValue.
  - apply modes_speed_slider_setValue.
  - apply modes_btn_mute_setChecked.
  - apply (modes_ok_apply_mode click_repeat w Hok).
  - apply (modes_ok_apply_mode click_play_all w Hok).
  - apply modes_playlist_setCurrentRow.
  - apply modes_open_folder.
  - eapply keeps_fade_timer_timeout; eassumption.
  - unfold finish_track in H. split_run.
    + use (keeps_setPlaybackState _ Hemit). exact H.
    + reflexivity.
  - eapply keeps_handle_media_status_changed; eassumption.
Qed.

Lemma reachable_modes_ok fs media_duration rel w :
  reachable fs media_duration rel w -> modes_ok w.
Proof.
  induction 1 as [c pc w Hstart | depth e w w' _ IH Hstep].
  - eapply modes_ok_load_settings; [exact Hstart | apply modes_ok_init].
  - eapply modes_ok_dispatch; eassumption.
Qed.

(** C1: in every reachable state, and after any further sequence of
    operations on the repeat and play-all boxes, the two boxes are not
    both checked; checking either one (by [setChecked(True)] or by a click
    on the unchecked box) leaves it checked and the other one unchecked. *)
Theorem repeat_play_all_exclusive fs media_duration rel (w : MainWindow)
    (ops : list ModeOp) :
  reachable fs media_duration rel w ->
  let w' := fold_left apply_mode ops w in
  (repeat_on w' && play_all_on w')%bool = false /\
  (repeat_on (btn_repeat_setChecked true w') = true /\
   play_all_on (btn_repeat_setChecked true w') = false) /\
  (play_all_on (btn_play_all_setChecked true w') = true /\
   repeat_on (btn_play_all_setChecked true w') = false) /\
  (repeat_on w' = false ->
   repeat_on (btn_repeat_toggle w') = true /\
   play_all_on (btn_repeat_toggle w') = false) /\
  (play_all_on w' = false ->
   play_all_on (btn_play_all_toggle w') = true /\
   repeat_on (btn_play_all_toggle w') = false).
Proof.
  intros Hreach w'.
  assert (Hok : modes_ok w').
  { apply modes_ok_apply_modes. eapply reachable_modes_ok. exact Hreach. }
  pose proof (repeat_setChecked_ok true w' Hok) as (_ & Hr & Hrp & _).
  pose proof (play_all_setChecked_ok true w' Hok) as (_ & Hp & Hpr & _).
  split; [apply Hok|].
  split; [split; [exact Hr | apply Hrp; reflexivity]|].
  split; [split; [exact Hp | apply Hpr; reflexivity]|].
  unfold btn_repeat_toggle, btn_play_all_toggle.
  split; intros Hoff.
  - change (isChecked (btn_repeat w')) with (repeat_on w'). rewrite Hoff.
    split; [exact Hr | apply Hrp; reflexivity].
  - change (isChecked (btn_play_all w')) with (play_all_on w'). rewrite Hoff.
    split; [exact Hp | apply Hpr; reflexivity].
Qed.

Lemma started_reachable :
  reachable music music_duration no_saved_track started.
Proof.
  apply (reachable_start _ _ _
           (ConfigManager.new "mini_player.ini" "Settings") never_cancel).
  vm_compute. reflexivity.
Defined.

Lemma run_reachable fs media_duration rel depth es w w' :
  reachable fs media_duration rel w ->
  run fs media_duration depth es w = Some w' ->
  reachable fs media_duration rel w'.
Proof.
  revert w. induction es as [|e es IH]; intros w Hw Hrun; simpl in Hrun.
  - apply (inj Some) in Hrun. subst w'. exact Hw.
  - apply bind_Some in Hrun as (w1 & Hstep & Hrun).
    apply (IH w1); [|exact Hrun].
    apply (reachable_step _ _ _ depth e w); assumption.
Qed.

(** The sample states are states of a session. *)
Lemma after_reachable es w' :
  run music music_duration signal_depth es started = Some w' ->
  reachable music music_duration no_saved_track w'.
Proof. apply run_reachable. exact started_reachable. Qed.

Lemma repeat_play_all_exclusive_witness :
  let w' := fold_left apply_mode [click_play_all; set_repeat true; click_play_all]
              started in
  (repeat_on w' && play_all_on w')%bool = false /\
  play_all_on (btn_repeat_setChecked true w') = false.
Proof.
  pose proof (repeat_play_all_exclusive music music_duration no_saved_track
                started [click_play_all; set_repeat true; click_play_all]
                started_reachable) as (H1 & (_ & H2) & _).
  split; [exact H1 | exact H2].
Defined.

(* ===================================================================== *)
(** ** Volume and mute *)
(* ===================================================================== *)

Lemma gain_ok_init : gain_ok init.
Proof. repeat split. Qed.

Lemma volume_slider_setValue_ok v w :
  gain_ok w -> 0 <= v <= 100 ->
  let w' := volume_slider_setValue v w in
  gain_ok w' /\ recorded_volume w' = v /\ mute_on w' = mute_on w.
Proof.
  unfold gain_ok, gain, recorded_volume, mute_on, volume_slider_setValue,
    setValue, update_volume.
  destruct w as [ap tm us ig br [m mb] bp [lo hi x] ss pl ic rs bv bn wn].
  simpl. intros (-> & -> & -> & Hg) Hv.
  replace (Z.max 0 (Z.min 100 v)) with v by lia.
  destruct (Z.eqb_spec v x) as [-> | Hne]; simpl.
  - repeat split; assumption.
  - destruct m; simpl; repeat split; try assumption; reflexivity.
Qed.

Lemma btn_mute_setChecked_ok b w :
  gain_ok w ->
  let w' := btn_mute_setChecked b w in
  gain_ok w' /\ recorded_volume w' = recorded_volume w /\ mute_on w' = b.
Proof.
  unfold gain_ok, gain, recorded_volume, mute_on, btn_mute_setChecked,
    setChecked, toggle_mute.
  destruct w as [ap tm us ig br [m mb] bp [lo hi x] ss pl ic rs bv bn wn].
  simpl. intros (-> & -> & -> & Hg).
  destruct m, b; simpl; repeat split; try assumption; reflexivity.
Qed.

Lemma apply_volume_ok o w :
  gain_ok w -> level_ok o ->
  let w' := apply_volume w o in
  gain_ok w' /\ recorded_volume w' = last_level [o] (recorded_volume w).
Proof.
  intros Hok Hl. destruct o as [level | b]; simpl in *.
  - destruct (volume_slider_setValue_ok level w Hok Hl) as (? & ? & _). auto.
  - destruct (btn_mute_setChecked_ok b w Hok) as (? & ? & _). auto.
Qed.

Lemma apply_volumes_ok ops w :
  gain_ok w -> Forall level_ok ops ->
  let w' := fold_left apply_volume ops w in
  gain_ok w' /\ recorded_volume w' = last_level ops (recorded_volume w).
Proof.
  revert w. induction ops as [|o ops IH]; intros w Hok Hall; simpl.
  - auto.
  - apply Forall_cons in Hall as [Ho Hall].
    destruct (apply_volume_ok o w Hok Ho) as [Hok' Hrec].
    destruct (IH _ Hok' Hall) as [Hok'' Hrec'].
    split; [exact Hok''|]. rewrite Hrec', Hrec.
    destruct o; reflexivity.
Qed.

(** The window of a new session satisfies [gain_ok], whatever the saved
    settings are. *)
Lemma gain_ok_of_view w w' :
  volume_view w' = volume_view w -> gain_ok w -> gain_ok w'.
Proof.
  unfold volume_view, gain_ok, gain, mute_on, recorded_volume.
  intros [= -> -> ->]. tauto.
Qed.

Ltac pure_view :=
  intros; unfold volume_view; simpl;
  repeat (case_match; simpl); try reflexivity; try congruence.

Lemma view_speed_slider_setValue v w :
  volume_view (speed_slider_setValue v w) = volume_view w.
Proof. unfold speed_slider_setValue, setValue, update_speed. pure_view. Qed.
Lemma view_btn_repeat_setChecked b w :
  volume_view (btn_repeat_setChecked b w) = volume_view w.
Proof.
  unfold btn_repeat_setChecked, on_repeat_toggled, setChecked. pure_view.
Qed.
Lemma view_btn_play_all_setChecked b w :
  volume_view (btn_play_all_setChecked b w) = volume_view w.
Proof.
  unfold btn_play_all_setChecked, on_play_all_toggled, setChecked. pure_view.
Qed.
Lemma view_playlist_setCurrentRow r w :
  volume_view (playlist_setCurrentRow r w) = volume_view w.
Proof. unfold playlist_setCurrentRow, setCurrentRow. pure_view. Qed.
Lemma view_playlist_clear w : volume_view (playlist_clear w) = volume_view w.
Proof. unfold playlist_clear. pure_view. Qed.
Lemma view_add_items tracks w :
  volume_view (fold_left playlist_addItem tracks w) = volume_view w.
Proof.
  revert w. induction tracks as [|t tracks IH]; intros w; [reflexivity|].
  simpl. rewrite IH. reflexivity.
Qed.
Lemma view_update_skip_buttons w :
  volume_view (update_skip_buttons w) = volume_view w.
Proof. reflexivity. Qed.
Lemma view_open_folder fs path pc w :
  volume_view (open_folder fs path pc w) = volume_view w.
Proof.
  unfold open_folder, populate_playlist.
  destruct (TrackManager.set_folder _ _ _ _) as [[ok tm] u].
  destruct (TrackManager.scan_folder _ _ _ _) as [[tracks tm'] d].
  rewrite view_update_skip_buttons.
  case_match; rewrite ?view_playlist_setCurrentRow, view_add_items;
    change (volume_view (playlist_clear (with_track_manager tm w))
            = volume_view w);
    rewrite view_playlist_clear; reflexivity.
Qed.
Lemma view_update_speed w : volume_view (update_speed w) = volume_view w.
Proof. unfold update_speed. pure_view. Qed.

Lemma volume_slider_setValue_gain_ok v w :
  gain_ok w -> gain_ok (volume_slider_setValue v w).
Proof.
  unfold gain_ok, gain, recorded_volume, mute_on, volume_slider_setValue,
    setValue, update_volume.
  destruct w as [ap tm us ig br [m mb] bp [lo hi x] ss pl ic rs bv bn wn].
  simpl. intros (-> & -> & -> & Hg).
  destruct (Z.eqb_spec (Z.max 0 (Z.min 100 v)) x) as [_ | Hne]; simpl.
  - repeat split; assumption.
  - destruct m; simpl; repeat split; try assumption; reflexivity.
Qed.

Lemma update_volume_gain_ok w : gain_ok w -> gain_ok (update_volume w).
Proof.
  unfold gain_ok, gain, recorded_volume, mute_on, update_volume.
  destruct w as [ap tm us ig br [m mb] bp [lo hi x] ss pl ic rs bv bn wn].
  simpl. intros (-> & -> & -> & Hg).
  destruct m; simpl; repeat split; try assumption; reflexivity.
Qed.

Lemma load_settings_gain_ok fs rel c pc w :
  load_settings fs rel c pc init = Py.Ok w -> gain_ok w.
Proof.
  unfold load_settings. intros H.
  destruct (ConfigManager.get_int c "volume" 50) as [volume|]; [|discriminate].
  destruct (ConfigManager.get_int c "speed" 100) as [speed|]; [|discriminate].
  destruct (ConfigManager.get_bool c "repeat" false) as [rp|]; [|discriminate].
  destruct (ConfigManager.get_bool c "mute" false) as [mu|]; [|discriminate].
  destruct (ConfigManager.get_bool c "play_all" false) as [pa|]; [|discriminate].
  destruct (ConfigManager.get c "last_folder" "") as [lf|]; [|discriminate].
  destruct (ConfigManager.get c "last_track" "") as [lt|]; [|discriminate].
  simpl in H. injection H as <-.
  set (w1 := btn_play_all_setChecked pa _).
  assert (H1 : gain_ok w1).
  { eapply gain_ok_of_view; [apply view_btn_play_all_setChecked|].
    apply btn_mute_setChecked_ok.
    eapply gain_ok_of_view; [apply view_btn_repeat_setChecked|].
    eapply gain_ok_of_view; [apply view_speed_slider_setValue|].
    apply volume_slider_setValue_gain_ok. apply gain_ok_init. }
  eapply gain_ok_of_view; [apply view_update_skip_buttons|].
  eapply gain_ok_of_view; [apply view_update_speed|].
  apply update_volume_gain_ok.
  eapply gain_ok_of_view; [|exact H1].
  repeat (case_match; rewrite ?view_playlist_setCurrentRow, ?view_open_folder);
    reflexivity.
Qed.

(** The playback slots leave the volume slider, the mute box and the gain
    alone. *)
Lemma view_audio_state s w :
  volume_view (with_audio_player (ap_state s) w) = volume_view w.
Proof. reflexivity. Qed.
Lemma view_set_playback_rate q w :
  volume_view (set_playback_rate q w) = volume_view w.
Proof. reflexivity. Qed.
Lemma view_seek x w : volume_view (seek x w) = volume_view w.
Proof. reflexivity. Qed.
Lemma view_reset_ui w : volume_view (reset_ui w) = volume_view w.
Proof. reflexivity. Qed.
Lemma view_playlist_blockSignals b w :
  volume_view (playlist_blockSignals b w) = volume_view w.
Proof. reflexivity. Qed.

Create Rewrite HintDb volume.
#[local] Hint Rewrite view_audio_state view_set_playback_rate view_seek
  view_reset_ui view_playlist_blockSignals view_update_skip_buttons
  view_playlist_setCurrentRow view_update_speed view_speed_slider_setValue
  view_open_folder : volume.

Section VolumeFrames.
Variable fs : TrackManager.FileSystem.
Variable media_duration : string -> Z.
Variable emit : PlaybackState -> MainWindow -> option MainWindow.
Hypothesis emit_keeps : forall s, keeps_volume (emit s).

Ltac chain_volume :=
  repeat match goal with
  | H : emit _ _ = Some _ |- _ => apply emit_keeps in H
  end;
  autorewrite with volume in *; unfold volume_view in *; simpl in *;
  congruence.

Lemma volume_setPlaybackState s : keeps_volume (setPlaybackState emit s).
Proof. intros w w' H. unfold setPlaybackState in H. split_run; chain_volume. Qed.

Lemma volume_media_player_play : keeps_volume (media_player_play emit).
Proof.
  intros w w' H. unfold media_player_play in H. simpl in H. split_run.
  - use volume_setPlaybackState. chain_volume.
  - chain_volume.
Qed.

Lemma volume_media_player_pause : keeps_volume (media_player_pause emit).
Proof.
  intros w w' H. unfold media_player_pause in H. simpl in H. split_run.
  - use volume_setPlaybackState. chain_volume.
  - chain_volume.
Qed.

Lemma volume_media_player_stop : keeps_volume (media_player_stop emit).
Proof.
  intros w w' H. unfold media_player_stop in H.
  use volume_setPlaybackState. chain_volume.
Qed.

Lemma volume_media_player_setSource url :
  keeps_volume (media_player_setSource media_duration emit url).
Proof.
  intros w w' H. unfold media_player_setSource in H.
  use volume_setPlaybackState. chain_volume.
Qed.

Lemma volume_play : keeps_volume (play emit).
Proof.
  intros w w' H. unfold play in H. split_run.
  use volume_media_player_play. chain_volume.
Qed.

Lemma volume_pause : keeps_volume (pause emit).
Proof.
  intros w w' H. unfold pause in H. split_run.
  use volume_media_player_pause. chain_volume.
Qed.

Lemma volume_stop : keeps_volume (stop emit).
Proof.
  intros w w' H. unfold stop in H. split_run.
  use volume_media_player_stop. chain_volume.
Qed.

Lemma volume_load_track path :
  keeps_volume (load_track fs media_duration emit path).
Proof.
  intros w w' H. unfold load_track in H. split_run; [chain_volume|].
  use volume_media_player_setSource. chain_volume.
Qed.

Lemma volume_play_selected_track :
  keeps_volume (play_selected_track fs media_duration emit).
Proof.
  intros w w' H. unfold play_selected_track in H. split_run;
    repeat first [use volume_stop | use volume_load_track | use volume_play];
    chain_volume.
Qed.

Lemma volume_toggle_play_pause :
  keeps_volume (toggle_play_pause fs media_duration emit).
Proof.
  intros w w' H. unfold toggle_play_pause in H. split_run;
    repeat first [use volume_pause | use volume_play
                 | use volume_play_selected_track];
    chain_volume.
Qed.

Lemma volume_skip_to_next :
  keeps_volume (skip_to_next fs media_duration emit).
Proof.
  intros w w' H. unfold skip_to_next in H. split_run;
    try use volume_play_selected_track; chain_volume.
Qed.

Lemma volume_skip_to_previous :
  keeps_volume (skip_to_previous fs media_duration emit).
Proof.
  intros w w' H. unfold skip_to_previous in H. split_run;
    try use volume_play_selected_track; chain_volume.
Qed.

Lemma volume_handle_playback_state_changed s :
  keeps_volume (handle_playback_state_changed fs media_duration emit s).
Proof.
  intros w w' H. unfold handle_playback_state_changed in H.
  split_run;
    repeat first [use volume_play | use volume_play_selected_track];
    chain_volume.
Qed.

Lemma volume_handle_media_status_changed s :
  keeps_volume (handle_media_status_changed fs media_duration emit s).
Proof.
  intros w w' H. unfold handle_media_status_changed in H.
  split_run;
    repeat first [use volume_play | use volume_play_selected_track];
    chain_volume.
Qed.

End VolumeFrames.

Lemma volume_playbackStateChanged fs media_duration depth s :
  keeps_volume (playbackStateChanged fs media_duration depth s).
Proof.
  revert s. induction depth as [|n IH]; intros s w w' H; simpl in H.
  - discriminate.
  - eapply volume_handle_playback_state_changed; [exact IH | exact H].
Qed.

(** Every event other than those of a fade keeps the gain in agreement
    with the controls. *)
Lemma gain_ok_dispatch fs media_duration depth e w w' :
  fades e = false ->
  dispatch fs media_duration depth e w = Some w' -> gain_ok w -> gain_ok w'.
Proof.
  intros Hfade H Hok.
  pose proof (volume_playbackStateChanged fs media_duration depth) as Hemit.
  destruct e; try discriminate Hfade; simpl in H;
    try (apply (inj Some) in H; subst w').
  - eapply gain_ok_of_view; [|exact Hok].
    eapply volume_toggle_play_pause; eassumption.
  - eapply gain_ok_of_view; [|exact Hok].
    eapply volume_play_selected_track; eassumption.
  - eapply gain_ok_of_view; [|exact Hok].
    eapply volume_skip_to_previous; eassumption.
  - eapply gain_ok_of_view; [|exact Hok].
    eapply volume_skip_to_next; eassumption.
  - apply volume_slider_setValue_gain_ok. exact Hok.
  - eapply gain_ok_of_view; [|exact Hok]. apply view_speed_slider_setValue.
  - apply btn_mute_setChecked_ok. exact Hok.
  - eapply gain_ok_of_view; [|exact Hok]. apply view_btn_repeat_setChecked.
  - eapply gain_ok_of_view; [|exact Hok]. apply view_btn_play_all_setChecked.
  - eapply gain_ok_of_view; [|exact Hok]. apply view_playlist_setCurrentRow.
  - eapply gain_ok_of_view; [|exact Hok]. apply view_open_folder.
  - eapply gain_ok_of_view; [|exact Hok].
    unfold finish_track in H. split_run.
    + use (volume_setPlaybackState _ Hemit). exact H.
    + reflexivity.
  - eapply gain_ok_of_view; [|exact Hok].
    eapply volume_handle_media_status_changed; eassumption.
Qed.

(** In a session without fade the gain agrees with the controls. *)
Lemma steady_gain_ok fs media_duration rel w :
  steady fs media_duration rel w -> gain_ok w.
Proof.
  induction 1 as [c pc w Hload | depth e w w' _ IH Hfade Hstep].
  - eapply load_settings_gain_ok. exact Hload.
  - eapply gain_ok_dispatch; eassumption.
Qed.

Lemma run_steady fs media_duration rel depth es w w' :
  forallb (fun e => negb (fades e)) es = true ->
  steady fs media_duration rel w ->
  run fs media_duration depth es w = Some w' ->
  steady fs media_duration rel w'.
Proof.
  revert w. induction es as [|e es IH]; intros w Hes Hw H; simpl in H.
  - apply (inj Some) in H. subst. exact Hw.
  - cbn [forallb] in Hes. apply andb_true_iff in Hes as [He Hes].
    apply negb_true_iff in He.
    apply bind_Some in H as (w1 & H1 & H).
    apply (IH w1 Hes); [|exact H].
    eapply steady_step; eassumption.
Qed.

(** The volume operations and the mute box. *)
Lemma apply_volume_mute o w :
  gain_ok w -> level_ok o ->
  mute_on (apply_volume w o) = last_mute [o] (mute_on w).
Proof.
  intros Hok Hl. destruct o as [level | b]; simpl in *.
  - destruct (volume_slider_setValue_ok level w Hok Hl) as (_ & _ & H).
    exact H.
  - destruct (btn_mute_setChecked_ok b w Hok) as (_ & _ & H). exact H.
Qed.

Lemma apply_volumes_mute ops w :
  gain_ok w -> Forall level_ok ops ->
  mute_on (fold_left apply_volume ops w) = last_mute ops (mute_on w).
Proof.
  revert w. induction ops as [|o ops IH]; intros w Hok Hall; simpl.
  - reflexivity.
  - apply Forall_cons in Hall as [Ho Hall].
    destruct (apply_volume_ok o w Hok Ho) as [Hok' _].
    rewrite (IH _ Hok' Hall), (apply_volume_mute o w Hok Ho).
    destruct o; reflexivity.
Qed.

(** The volume operations leave the folder and the track alone. *)
Lemma apply_volume_same_track o w :
  track_manager (apply_volume w o) = track_manager w /\
  current_track_url (audio_player (apply_volume w o))
  = current_track_url (audio_player w).
Proof.
  destruct o as [level | b]; simpl.
  - unfold volume_slider_setValue, setValue, update_volume.
    repeat (case_match; simpl); split; reflexivity.
  - unfold btn_mute_setChecked, setChecked, toggle_mute.
    repeat (case_match; simpl); split; reflexivity.
Qed.

Lemma apply_volumes_same_track ops w :
  track_manager (fold_left apply_volume ops w) = track_manager w /\
  current_track_url (audio_player (fold_left apply_volume ops w))
  = current_track_url (audio_player w).
Proof.
  revert w. induction ops as [|o ops IH]; intros w; simpl.
  - split; reflexivity.
  - destruct (IH (apply_volume w o)) as [-> ->]. apply apply_volume_same_track.
Qed.

(** C2: in a session in which no fade has run, after any sequence of
    volume settings (0 to 100) and mute settings, the recorded volume is
    the argument of the last volume setting, whatever mute settings came
    in between, and the mute box is as the last mute setting left it; the
    gain is 0 when mute is on and the recorded volume when mute is off.
    The folder and the URL of the track holding no percent sign, the
    saving of the settings that ends each of these slots returns, after
    every setting of the sequence. *)
Theorem volume_recorded_gain_muted fs media_duration rel
    (toString : string -> string) (c : ConfigManager.t)
    (w : MainWindow) (ops : list VolumeOp) :
  steady fs media_duration rel w ->
  Forall level_ok ops ->
  Ui.savable toString w ->
  ConfigManager.config_section c <> "DEFAULT" ->
  let w' := fold_left apply_volume ops w in
  recorded_volume w' = last_level ops (recorded_volume w) /\
  mute_on w' = last_mute ops (mute_on w) /\
  (mute_on w' = true -> (gain w' == 0)%Q) /\
  (mute_on w' = false -> (gain w' == percent (recorded_volume w'))%Q) /\
  forall n,
    exists c',
      Ui.save_settings toString (fold_left apply_volume (take n ops) w) c
      = Py.Ok c'.
Proof.
  intros Hsteady Hall Hsav Hsec w'.
  pose proof (steady_gain_ok _ _ _ _ Hsteady) as Hok.
  destruct (apply_volumes_ok ops w Hok Hall) as [(_ & _ & _ & Hg) Hrec].
  fold w' in Hg, Hrec.
  split; [exact Hrec|].
  split; [apply apply_volumes_mute; assumption|].
  split; [intros Hm; rewrite Hm in Hg; exact Hg|].
  split; [intros Hm; rewrite Hm in Hg; exact Hg|].
  intros n. apply save_settings_returns; [exact Hsec|].
  destruct (apply_volumes_same_track (take n ops) w) as [Htm Hurl].
  apply (savable_same toString w); [rewrite Htm; reflexivity
                                   | exact Hurl | exact Hsav].
Qed.

Lemma playing_muted_steady :
  steady music music_duration no_saved_track playing_muted.
Proof.
  apply (run_steady music music_duration no_saved_track signal_depth
           to_playing_muted started).
  - reflexivity.
  - apply (steady_start _ _ _
             (ConfigManager.new "mini_player.ini" "Settings") never_cancel).
    vm_compute. reflexivity.
  - vm_compute. reflexivity.
Qed.

Lemma volume_recorded_gain_muted_witness :
  let w' := fold_left apply_volume
              [set_volume_to 30; set_mute false; set_volume_to 80;
               set_mute true; set_mute false]
              playing_muted in
  recorded_volume w' = 80 /\ mute_on w' = false /\
  (gain w' == percent 80)%Q /\
  exists c',
    Ui.save_settings (fun path => "file://" ++ path) w' settings_maybe
    = Py.Ok c'.
Proof.
  assert (Hall : Forall level_ok
            [set_volume_to 30; set_mute false; set_volume_to 80;
             set_mute true; set_mute false]).
  { repeat constructor; simpl; lia. }
  assert (Hsav : Ui.savable (fun path => "file://" ++ path) playing_muted).
  { split; intros x Hx; vm_compute in Hx; injection Hx as <-; reflexivity. }
  assert (Hsec : ConfigManager.config_section settings_maybe <> "DEFAULT")
    by discriminate.
  pose proof (volume_recorded_gain_muted music music_duration no_saved_track
                (fun path => "file://" ++ path) settings_maybe playing_muted _
                playing_muted_steady Hall Hsav Hsec)
    as (H1 & H2 & _ & H4 & H5).
  split; [exact H1|]. split; [exact H2|].
  split; [apply H4; reflexivity | exact (H5 5%nat)].
Defined.

(* ===================================================================== *)
(** ** The end of a track *)
(* ===================================================================== *)

Lemma slot_ignores_playing fs media_duration depth w :
  (1 <= depth)%nat ->
  playbackStateChanged fs media_duration depth PlayingState w = Some w.
Proof. destruct depth as [|n]; [lia|]. reflexivity. Qed.

Lemma slot_ignores_paused fs media_duration depth w :
  (1 <= depth)%nat ->
  playbackStateChanged fs media_duration depth PausedState w = Some w.
Proof. destruct depth as [|n]; [lia|]. reflexivity. Qed.

Lemma issued_since_app w w' cs :
  commands (audio_player w') = (commands (audio_player w) ++ cs)%list ->
  issued_since w w' = cs.
Proof. unfold issued_since. intros ->. apply drop_app_length. Qed.

(** [play()] on a loaded player ends in [PlayingState], whatever the state
    before. *)
Lemma play_loaded fs media_duration depth w url :
  (1 <= depth)%nat ->
  current_track_url (audio_player w) = Some url ->
  play (playbackStateChanged fs media_duration depth) w
  = Some (with_audio_player
            (fun p => ap_timer true (ap_state PlayingState (ap_log play_cmd p)))
            w).
Proof.
  intros Hd Hurl. unfold play, media_player_play, setPlaybackState.
  destruct w as [ap tm us ig br bm bp vs ss pl ic rs bv bn wn].
  destruct ap as [st pos dur rate vol tmr u fade orig cmds].
  simpl in *. subst u.
  destruct st; simpl; rewrite ?slot_ignores_playing by exact Hd; reflexivity.
Qed.

(** C4: with repeat checked and a track loaded, the end-of-media handler
    seeks to position 0 and plays: the player is in [PlayingState] at
    position 0 on the same track, the selection is where it was, and the
    only commands issued are the seek and the play.  Nothing is assumed of
    the play-all box: the repeat branch comes first. *)
Theorem repeat_restarts_same_track fs media_duration depth (w : MainWindow)
    (url : string) :
  repeat_on w = true ->
  current_track_url (audio_player w) = Some url ->
  (1 <= depth)%nat ->
  exists w',
    handle_media_status_changed fs media_duration
      (playbackStateChanged fs media_duration depth) EndOfMedia w = Some w' /\
    playbackState (audio_player w') = PlayingState /\
    position (audio_player w') = 0 /\
    current_track_url (audio_player w') = Some url /\
    currentRow (playlist w') = currentRow (playlist w) /\
    play_all_on w' = play_all_on w /\
    issued_since w w' = [setPosition 0; play_cmd].
Proof.
  intros Hr Hurl Hd. unfold handle_media_status_changed, repeat_on in *.
  simpl. rewrite Hr, Hurl. simpl.
  rewrite (play_loaded _ _ _ _ url Hd) by exact Hurl.
  eexists. split; [reflexivity|].
  repeat split; simpl.
  - lia.
  - exact Hurl.
  - apply issued_since_app. simpl. rewrite <- app_assoc. reflexivity.
Qed.

Lemma repeat_restarts_same_track_witness :
  exists w',
    handle_media_status_changed music music_duration
      (playbackStateChanged music music_duration signal_depth) EndOfMedia
      repeating = Some w' /\
    playbackState (audio_player w') = PlayingState /\
    position (audio_player w') = 0 /\
    current_track_url (audio_player w') = Some "/music/a.mp3" /\
    currentRow (playlist w') = 0 /\
    play_all_on w' = play_all_on repeating /\
    issued_since repeating w' = [setPosition 0; play_cmd].
Proof.
  apply (repeat_restarts_same_track music music_duration signal_depth
           repeating "/music/a.mp3").
  - vm_compute. reflexivity.
  - vm_compute. reflexivity.
  - unfold signal_depth. lia.
Defined.

Lemma item_in_range (l : QListWidget) (i : Z) :
  0 <= i < count l -> exists track, item l i = Some track.
Proof.
  unfold item, count. intros Hi.
  destruct (Z.ltb_spec i 0) as [|_]; [lia|].
  destruct (lookup_lt_is_Some_2 (items l) (Z.to_nat i)) as [track Ht]; [lia|].
  exists track. exact Ht.
Qed.

(** The selection moves to a valid row other than the current one. *)
Lemma setCurrentRow_moves (l : QListWidget) (r : Z) :
  0 <= r < count l -> r <> currentRow l ->
  setCurrentRow r l
  = ({| items := items l; currentRow := r;
        listSignalsBlocked := listSignalsBlocked l |},
     negb (listSignalsBlocked l)).
Proof.
  intros Hr Hne. unfold setCurrentRow.
  destruct (Z.leb_spec 0 r) as [_|]; [|lia].
  destruct (Z.ltb_spec r (count l)) as [_|]; [|lia].
  simpl. destruct (Z.eqb_spec r (currentRow l)) as [|_]; [contradiction|].
  reflexivity.
Qed.

Lemma absolute_path_in_folder (tm : TrackManager.t) (folder rel : string) :
  TrackManager.current_folder tm = Some folder -> folder <> "" ->
  TrackManager.get_absolute_path tm rel
  = Some (TrackManager.path_join folder rel).
Proof.
  intros Hf Hne. unfold TrackManager.get_absolute_path. rewrite Hf. simpl.
  destruct (String.eqb_spec folder "") as [|_]; [contradiction|]. reflexivity.
Qed.

(** A new source on a stopped player emits nothing. *)
Lemma setSource_stopped media_duration emit url w :
  playbackState (audio_player w) = StoppedState ->
  media_player_setSource media_duration emit url w
  = Some (with_audio_player
            (fun p => ap_log (setSource url)
                        (ap_duration (media_duration url) (ap_position 0 p)))
            w).
Proof.
  intros Hst. unfold media_player_setSource, setPlaybackState.
  destruct w as [ap tm us ig br bm bp vs ss pl ic rs bv bn wn].
  destruct ap as [st pos dur rate vol tmr u fade orig cmds].
  cbn in Hst. subst st. reflexivity.
Qed.

(** [play_selected_track] on a stopped player whose selected track is
    there: the track is loaded, the rate is set from the slider, and the
    track plays. *)
Lemma play_selected_track_stopped fs media_duration depth (w : MainWindow)
    (track file_path : string) :
  (1 <= depth)%nat ->
  playbackState (audio_player w) = StoppedState ->
  currentItem (playlist w) = Some track ->
  TrackManager.get_absolute_path (track_manager w) track = Some file_path ->
  TrackManager.fs_exists fs file_path = true ->
  play_selected_track fs media_duration
    (playbackStateChanged fs media_duration depth) w
  = Some (track_started media_duration file_path w).
Proof.
  intros Hd Hst Hitem Habs Hex.
  destruct depth as [|n]; [lia|].
  destruct w as [ap tm us ig br bm bp vs ss pl ic rs bv bn wn].
  destruct ap as [st pos dur rate vol tmr u fade orig cmds].
  cbn in Hst, Hitem, Habs. subst st.
  unfold play_selected_track, load_track.
  cbn [playlist track_manager].
  rewrite Hitem, Habs, !Hex.
  vm_compute. reflexivity.
Qed.

Lemma track_started_facts media_duration file_path w :
  let w' := track_started media_duration file_path w in
  playlist w' = playlist w /\
  current_track_url (audio_player w') = Some file_path /\
  playbackState (audio_player w') = PlayingState /\
  ignore_auto_advance w' = true /\
  commands (audio_player w')
  = (commands (audio_player w)
     ++ [setSource file_path;
         setPlaybackRate (percent (value (speed_slider w)));
         play_cmd])%list.
Proof.
  destruct w as [ap tm us ig br bm bp vs ss pl ic rs bv bn wn].
  destruct ap as [st pos dur rate vol tmr u fade orig cmds].
  cbv [track_started with_ignore_auto_advance with_audio_player
       set_playback_rate with_btn_play_pause with_btn_reset update_skip_buttons
       with_skip_buttons ap_log ap_duration ap_position ap_url ap_rate ap_timer
       ap_state audio_player playlist current_track_url playbackState
       ignore_auto_advance commands speed_slider].
  repeat split. rewrite <- !app_assoc. reflexivity.
Qed.

(** The selection moves on by one row while the signals of the list are
    blocked. *)
Lemma advance_row_blocked (w : MainWindow) :
  0 <= currentRow (playlist w) + 1 < count (playlist w) ->
  playlist_blockSignals false
    (playlist_setCurrentRow (currentRow (playlist w) + 1)
       (playlist_blockSignals true w))
  = with_playlist {| items := items (playlist w);
                     currentRow := currentRow (playlist w) + 1;
                     listSignalsBlocked := false |} w.
Proof.
  intros Hr.
  destruct w as [ap tm us ig br bm bp vs ss pl ic rs bv bn wn].
  destruct pl as [its row blk].
  cbn [playlist currentRow] in *.
  unfold playlist_blockSignals, playlist_setCurrentRow.
  cbn [playlist with_playlist listBlockSignals items currentRow
       listSignalsBlocked].
  rewrite setCurrentRow_moves;
    [reflexivity | exact Hr | simpl; lia].
Qed.

(** C3: play-all is checked, repeat is not, the player is stopped at row
    [i] of a playlist of [N] rows under a root folder.  The end-of-media
    handler then, for [i < N - 1] and the next track's file present,
    selects row [i + 1], loads that track and tells the media player to
    play it: the commands are [setSource], [setPlaybackRate] and [play];
    the folder and the URL of the track holding no percent sign, the
    saving of the settings that ends [play_selected_track] returns.  For
    [i = N - 1] the handler issues no command: the selection, the loaded
    track and the stopped state stay.  The playback state at the return
    of the handler is left open in the first case: the toolkit starts a
    new source once it is loaded. *)
Theorem play_all_advances_or_settles fs media_duration depth
    (toString : string -> string) (c : ConfigManager.t) (w : MainWindow)
    (folder : string) :
  play_all_on w = true ->
  repeat_on w = false ->
  playbackState (audio_player w) = StoppedState ->
  0 <= currentRow (playlist w) < count (playlist w) ->
  TrackManager.current_folder (track_manager w) = Some folder ->
  folder <> "" ->
  ConfigManager.plain folder ->
  ConfigManager.config_section c <> "DEFAULT" ->
  (1 <= depth)%nat ->
  let i := currentRow (playlist w) in
  let N := count (playlist w) in
  let handled :=
    handle_media_status_changed fs media_duration
      (playbackStateChanged fs media_duration depth) EndOfMedia w in
  (i < N - 1 ->
   exists track,
     item (playlist w) (i + 1) = Some track /\
     let file_path := TrackManager.path_join folder track in
     (TrackManager.fs_exists fs file_path = true ->
      ConfigManager.plain (toString file_path) ->
      exists w',
        handled = Some w' /\
        currentRow (playlist w') = i + 1 /\
        current_track_url (audio_player w') = Some file_path /\
        issued_since w w'
        = [setSource file_path;
           setPlaybackRate (percent (value (speed_slider w)));
           play_cmd] /\
        exists c', Ui.save_settings toString w' c = Py.Ok c')) /\
  (i = N - 1 ->
   exists w',
     handled = Some w' /\
     currentRow (playlist w') = i /\
     audio_player w' = audio_player w /\
     playbackState (audio_player w') = StoppedState /\
     issued_since w w' = []).
Proof.
  intros Hpa Hrp Hst Hrow Hfolder Hne Hplain Hsec Hd i N handled.
  unfold play_all_on, repeat_on in *.
  assert (Hhandled :
    handled
    = if currentRow (playlist w) <? count (playlist w) - 1
      then play_selected_track fs media_duration
             (playbackStateChanged fs media_duration depth)
             (playlist_blockSignals false
                (playlist_setCurrentRow (currentRow (playlist w) + 1)
                   (playlist_blockSignals true w)))
      else Some (reset_ui w)).
  { unfold handled, handle_media_status_changed.
    cbn [MediaStatus_is_end]. rewrite Hrp, Hpa. reflexivity. }
  split.
  - intros Hlt.
    destruct (item_in_range (playlist w) (i + 1)) as [track Htrack];
      [unfold i, N in *; lia|].
    exists track. split; [exact Htrack|].
    intros Hexists Hurlplain.
    set (w1 := with_playlist {| items := items (playlist w);
                                currentRow := i + 1;
                                listSignalsBlocked := false |} w).
    pose proof (track_started_facts media_duration
                  (TrackManager.path_join folder track) w1)
      as (Hpl & Hurl & _ & _ & Hcmds).
    exists (track_started media_duration
              (TrackManager.path_join folder track) w1).
    split; [|split; [|split; [exact Hurl | split]]].
    + rewrite Hhandled.
      replace (currentRow (playlist w) <? count (playlist w) - 1) with true
        by (symmetry; apply Z.ltb_lt; exact Hlt).
      rewrite advance_row_blocked by (unfold i, N in *; lia).
      apply (play_selected_track_stopped _ _ _ _ track).
      * exact Hd.
      * exact Hst.
      * exact Htrack.
      * apply absolute_path_in_folder; assumption.
      * exact Hexists.
    + rewrite Hpl. reflexivity.
    + apply issued_since_app. exact Hcmds.
    + apply save_settings_returns; [exact Hsec|]. split.
      * intros folder' Hf'.
        change (TrackManager.current_folder (track_manager w) = Some folder')
          in Hf'.
        rewrite Hfolder in Hf'. injection Hf' as <-. exact Hplain.
      * intros url Hu. rewrite Hurl in Hu. injection Hu as <-.
        exact Hurlplain.
  - intros Heq.
    exists (reset_ui w).
    split; [|split; [reflexivity | split; [reflexivity | split; [exact Hst|]]]].
    + rewrite Hhandled.
      replace (currentRow (playlist w) <? count (playlist w) - 1) with false
        by (symmetry; apply Z.ltb_ge; unfold i, N in *; lia).
      reflexivity.
    + apply issued_since_app. symmetry. apply app_nil_r.
Qed.

Lemma play_all_advances_or_settles_witness :
  exists w',
    handle_media_status_changed music music_duration
      (playbackStateChanged music music_duration signal_depth) EndOfMedia
      playing_all = Some w' /\
    currentRow (playlist w') = 1 /\
    current_track_url (audio_player w') = Some "/music/b.flac" /\
    issued_since playing_all w'
    = [setSource "/music/b.flac";
       setPlaybackRate (percent (value (speed_slider playing_all)));
       play_cmd] /\
    exists c',
      Ui.save_settings (fun path => "file://" ++ path) w' settings_maybe
      = Py.Ok c'.
Proof.
  assert (Hd : (1 <= signal_depth)%nat) by (unfold signal_depth; lia).
  assert (Hrow : 0 <= currentRow (playlist playing_all)
                 < count (playlist playing_all)) by (vm_compute; split; congruence).
  assert (Hne : "/music" <> "") by discriminate.
  assert (Hsec : ConfigManager.config_section settings_maybe <> "DEFAULT")
    by discriminate.
  destruct (play_all_advances_or_settles music music_duration signal_depth
              (fun path => "file://" ++ path) settings_maybe
              playing_all "/music" eq_refl eq_refl eq_refl Hrow eq_refl Hne
              eq_refl Hsec Hd)
    as [Hnext _].
  destruct Hnext as (track & Htrack & Hplay); [vm_compute; reflexivity|].
  vm_compute in Htrack. injection Htrack as <-.
  destruct Hplay as (w' & Hw' & H1 & H2 & H3 & H4);
    [vm_compute; reflexivity | vm_compute; reflexivity |].
  exists w'. repeat split; assumption.
Defined.

(* ===================================================================== *)
(** ** The fade before a stop *)
(* ===================================================================== *)

Lemma Qgtb_true a b : Qgtb a b = true <-> (b < a)%Q.
Proof.
  unfold Qgtb. rewrite negb_true_iff, <- not_true_iff_false, Qle_bool_iff.
  split; [apply Qnot_le_lt | apply Qlt_not_le].
Qed.

Lemma Qgtb_false a b : Qgtb a b = false <-> (a <= b)%Q.
Proof.
  unfold Qgtb. rewrite negb_false_iff, Qle_bool_iff. reflexivity.
Qed.

(** One reducing step and the ending step of a fade in floats. *)
Lemma float_fade_reduces emit g c w :
  original_volume (audio_player w) = g ->
  fade_timer_active (audio_player w) = true ->
  gain w = c ->
  Qgtb c (Floats.truediv g (inject_Z fade_steps)) = true ->
  Floats.fade_timer_timeout emit w
  = Some (Floats.set_volume
            (max0 (Floats.sub c (Floats.truediv g (inject_Z fade_steps)))) w).
Proof.
  unfold gain. intros Horig Htimer Hgain Hgt.
  unfold Floats.fade_timer_timeout, Floats._fade_step.
  rewrite Htimer, Horig, Hgain, Hgt. reflexivity.
Qed.

Lemma float_fade_ends g c w :
  original_volume (audio_player w) = g ->
  fade_timer_active (audio_player w) = true ->
  gain w = c ->
  Qgtb c (Floats.truediv g (inject_Z fade_steps)) = false ->
  exists w',
    Floats.fade_timer_timeout no_listener w = Some w' /\
    fade_timer_active (audio_player w') = false /\
    playbackState (audio_player w') = StoppedState /\
    gain w' = Floats.kept g /\
    commands (audio_player w')
    = (commands (audio_player w) ++ [setVolume 0; stop_cmd; setVolume g])%list.
Proof.
  unfold gain. intros Horig Htimer Hgain Hgt.
  unfold Floats.fade_timer_timeout, Floats._fade_step.
  rewrite Htimer, Horig, Hgain, Hgt.
  unfold media_player_stop, setPlaybackState, no_listener. simpl.
  destruct (PlaybackState_eqb _ _) eqn:Hs; simpl.
  - eexists. split; [reflexivity|]. simpl. rewrite Horig.
    repeat split.
    + destruct (playbackState (audio_player w)); (discriminate || reflexivity).
    + rewrite <- !app_assoc. reflexivity.
  - eexists. split; [reflexivity|]. simpl. rewrite Horig.
    repeat split. rewrite <- !app_assoc. reflexivity.
Qed.

(** A fade in floats, from the gain [c] on: the reducing steps set the
    volumes of [fade_volumes], the next firing of the timer ends it. *)
Lemma float_fade_run g s n : forall c w,
  original_volume (audio_player w) = g ->
  fade_timer_active (audio_player w) = true ->
  playbackState (audio_player w) = s ->
  gain w = c ->
  let vs := Floats.fade_volumes g n c in
  (length vs < n)%nat ->
  (forall k, (k <= length vs)%nat ->
     exists wk,
       Floats.fade_ticks no_listener k w = Some wk /\
       fade_timer_active (audio_player wk) = true /\
       playbackState (audio_player wk) = s /\
       gain wk = Floats.gain_after (take k vs) c /\
       commands (audio_player wk)
       = (commands (audio_player w) ++ map setVolume (take k vs))%list) /\
  exists w',
    Floats.fade_ticks no_listener (S (length vs)) w = Some w' /\
    fade_timer_active (audio_player w') = false /\
    playbackState (audio_player w') = StoppedState /\
    gain w' = Floats.kept g /\
    commands (audio_player w')
    = (commands (audio_player w)
       ++ map setVolume vs ++ [setVolume 0; stop_cmd; setVolume g])%list.
Proof.
  induction n as [|n IH]; intros c w Horig Htimer Hstate Hgain vs Hlen.
  - simpl in Hlen. lia.
  - unfold vs in *. clear vs. cbn [Floats.fade_volumes] in *.
    destruct (Qgtb c (Floats.truediv g (inject_Z fade_steps))) eqn:Hgt.
    + set (v := max0 (Floats.sub c (Floats.truediv g (inject_Z fade_steps))))
        in *.
      pose proof (float_fade_reduces no_listener g c w Horig Htimer Hgain Hgt)
        as Hstep.
      fold v in Hstep.
      cbn [length] in Hlen.
      destruct (IH (Floats.kept v) (Floats.set_volume v w))
        as [Hks (w' & Hw' & Hoff & Hstopped & Hg' & Hcmds)];
        [exact Horig | exact Htimer | exact Hstate | reflexivity | lia |].
      split.
      * intros [|k] Hk.
        { exists w. repeat split; try assumption.
          simpl. rewrite app_nil_r. reflexivity. }
        cbn [length] in Hk.
        destruct (Hks k) as (wk & Hwk & H1 & H2 & H3 & H4); [lia|].
        exists wk. cbn [Floats.fade_ticks]. rewrite Hstep.
        split; [exact Hwk|]. split; [exact H1|]. split; [exact H2|].
        split; [exact H3|].
        rewrite H4. cbn [take map]. simpl. rewrite <- app_assoc. reflexivity.
      * exists w'. cbn [length Floats.fade_ticks]. rewrite Hstep.
        split; [exact Hw'|]. split; [exact Hoff|]. split; [exact Hstopped|].
        split; [exact Hg'|].
        rewrite Hcmds. simpl. rewrite <- app_assoc. reflexivity.
    + destruct (float_fade_ends g c w Horig Htimer Hgain Hgt)
        as (w' & Hw' & Hoff & Hstopped & Hg' & Hcmds).
      split.
      * intros k Hk. cbn [length] in Hk. replace k with 0%nat by lia.
        exists w. repeat split; try assumption.
        simpl. rewrite app_nil_r. reflexivity.
      * exists w'. cbn [length Floats.fade_ticks]. rewrite Hw'.
        split; [reflexivity|]. repeat split; assumption.
Qed.

(** Equality of two rationals, numerator and denominator. *)
Lemma Q_same (a b : Q) :
  ((Qnum a =? Qnum b) && (Qden a =? Qden b)%positive)%bool = true -> a = b.
Proof.
  destruct a, b. simpl. intros H.
  apply andb_true_iff in H as [Hn Hd].
  apply Z.eqb_eq in Hn. apply Pos.eqb_eq in Hd. congruence.
Qed.

(** The fades from the gains of the volume slider, by evaluation. *)
Lemma slider_fades (level : Z) :
  0 <= level <= 100 ->
  let g := Floats.slider_gain level in
  let vs := Floats.fade_volumes g 11 g in
  Floats.kept g = g /\
  Floats.descending g vs = true /\
  (level = 0 -> length vs = 0%nat) /\
  (0 < level -> length vs = 9%nat \/ length vs = 10%nat).
Proof.
  intros Hl g vs.
  assert (Hall :
    forallb
      (fun level =>
         let g := Floats.slider_gain level in
         let vs := Floats.fade_volumes g 11 g in
         ((Qnum (Floats.kept g) =? Qnum g)
          && (Qden (Floats.kept g) =? Qden g)%positive
          && Floats.descending g vs
          && (if level =? 0 then (length vs =? 0)%nat
              else ((length vs =? 9)%nat || (length vs =? 10)%nat)))%bool)
      (map Z.of_nat (seq 0 101)) = true) by (vm_compute; reflexivity).
  rewrite forallb_forall in Hall.
  specialize (Hall level).
  assert (Hin : In level (map Z.of_nat (seq 0 101))).
  { apply in_map_iff. exists (Z.to_nat level). split; [lia|].
    apply in_seq. lia. }
  specialize (Hall Hin). cbv zeta in Hall. fold g in Hall. fold vs in Hall.
  apply andb_true_iff in Hall as [Hall Hlen].
  apply andb_true_iff in Hall as [Hkept Hdesc].
  split; [apply Q_same; exact Hkept|]. split; [exact Hdesc|]. split.
  - intros ->. apply Nat.eqb_eq. exact Hlen.
  - intros Hpos. destruct (Z.eqb_spec level 0) as [->|_]; [lia|].
    apply orb_true_iff in Hlen as [H|H]; apply Nat.eqb_eq in H; auto.
Qed.

(** C5, as the claim states it, fails at gain 0: a player that is playing
    with the gain at 0 (mute is on) ends its fade at the first firing of
    the timer, not at the tenth. *)
Lemma fade_at_gain_zero_ends_at_first_step :
  reachable music music_duration no_saved_track playing_muted /\
  is_stopped playing_muted = false /\
  (gain playing_muted == 0)%Q /\
  exists w1,
    fade_ticks no_listener 1 (fade_out playing_muted) = Some w1 /\
    fade_timer_active (audio_player w1) = false /\
    playbackState (audio_player w1) = StoppedState /\
    fade_ticks no_listener 10 (fade_out playing_muted) = Some w1.
Proof.
  split; [apply (after_reachable to_playing_muted); vm_compute; reflexivity|].
  split; [vm_compute; reflexivity|].
  split; [vm_compute; reflexivity|].
  eexists. split; [vm_compute; reflexivity|].
  vm_compute. repeat split.
Qed.

(** C5 (amended): [fade_out] does nothing on a stopped player; otherwise
    it records the current gain [g] and starts the timer.  On the audio
    player taken alone, with the gains and the step computed in floats as
    the code computes them, each firing of the timer lowers the gain by
    [g / 10] while the gain is above [g / 10], leaving the timer on and the
    playback state as it was; the next firing ends the fade: it sets the
    gain to 0, stops the media player and sets the gain to [g] again, and
    the player is then stopped with the timer off.  For a gain set from the
    volume slider, the gains go down strictly and the fade ends at the
    first firing for level 0 and at the tenth or the eleventh firing for
    the levels 1 to 100: at the tenth for level 50, at the eleventh for
    level 80. *)
Theorem fade_out_then_stop_steps (w : MainWindow) :
  let g := gain w in
  let w0 := fade_out w in
  (is_stopped w = true -> w0 = w) /\
  (is_stopped w = false ->
   original_volume (audio_player w0) = g /\
   fade_timer_active (audio_player w0) = true /\
   (forall n,
      let vs := Floats.fade_volumes g n g in
      (length vs < n)%nat ->
      (forall k, (k <= length vs)%nat ->
         exists wk,
           Floats.fade_ticks no_listener k w0 = Some wk /\
           fade_timer_active (audio_player wk) = true /\
           playbackState (audio_player wk) = playbackState (audio_player w) /\
           gain wk = Floats.gain_after (take k vs) g /\
           issued_since w wk = map setVolume (take k vs)) /\
      exists w',
        Floats.fade_ticks no_listener (S (length vs)) w0 = Some w' /\
        faded (Floats.kept g) w' /\
        issued_since w w'
        = (map setVolume vs ++ [setVolume 0; stop_cmd; setVolume g])%list) /\
   (forall level,
      0 <= level <= 100 -> g = Floats.slider_gain level ->
      let vs := Floats.fade_volumes g 11 g in
      Floats.kept g = g /\
      Floats.descending g vs = true /\
      (level = 0 -> length vs = 0%nat) /\
      (0 < level -> length vs = 9%nat \/ length vs = 10%nat))) /\
  length (Floats.fade_volumes (Floats.slider_gain 50) 11
            (Floats.slider_gain 50)) = 9%nat /\
  length (Floats.fade_volumes (Floats.slider_gain 80) 11
            (Floats.slider_gain 80)) = 10%nat.
Proof.
  intros g w0. unfold w0, fade_out.
  split; [intros ->; reflexivity|].
  split; [|split; vm_compute; reflexivity].
  intros Hs. rewrite Hs. cbv iota.
  split; [reflexivity|]. split; [reflexivity|].
  set (w1 := with_audio_player _ w).
  assert (Hcmds : commands (audio_player w1) = commands (audio_player w))
    by reflexivity.
  split.
  - intros n Hlen. set (vs := Floats.fade_volumes g n g) in *.
    destruct (float_fade_run g (playbackState (audio_player w)) n g w1)
      as [Hks (w' & Hw' & Hoff & Hstopped & Hg' & Hc')];
      [reflexivity | reflexivity | reflexivity | reflexivity | exact Hlen |].
    split.
    + intros k Hk. destruct (Hks k Hk) as (wk & Hwk & H1 & H2 & H3 & H4).
      exists wk. split; [exact Hwk|]. split; [exact H1|]. split; [exact H2|].
      split; [exact H3|]. apply issued_since_app. rewrite H4, Hcmds.
      reflexivity.
    + exists w'. split; [exact Hw'|]. split; [repeat split; assumption|].
      apply issued_since_app. rewrite Hc', Hcmds. reflexivity.
  - intros level Hl ->. apply slider_fades. exact Hl.
Qed.

Lemma fade_out_then_stop_steps_witness :
  let w := Floats.set_volume (Floats.truediv 80 100) playing in
  exists w',
    Floats.fade_ticks no_listener 11 (fade_out w) = Some w' /\
    faded (Floats.slider_gain 80) w'.
Proof.
  intros w.
  destruct (fade_out_then_stop_steps w) as (_ & H & _).
  destruct H as (_ & _ & Hrun & _); [vm_compute; reflexivity|].
  destruct (Hrun 11%nat) as (_ & w' & Hw' & Hfaded & _);
    [vm_compute; apply le_n|].
  exists w'. split; [exact Hw' | exact Hfaded].
Defined.

(* ===================================================================== *)
(** ** A stop by the user *)
(* ===================================================================== *)

(** [reset_playback] sets [user_stopped] and leaves [ignore_auto_advance],
    the flag that the handler of the stopped state tests, as it is. *)
Lemma reset_playback_flags w :
  ignore_auto_advance (reset_playback w) = ignore_auto_advance w /\
  (is_stopped w = false -> user_stopped (reset_playback w) = true).
Proof.
  unfold reset_playback, fade_out, is_stopped.
  destruct (PlaybackState_eqb _ _) eqn:Hs; simpl.
  - split; [reflexivity | discriminate].
  - split; reflexivity.
Qed.

(** C6 at the failing input: play-all is checked, the first of two tracks
    is playing after a reset and a new start with the play button, and
    [ignore_auto_advance] is clear.  The user presses reset: [user_stopped]
    is set, [ignore_auto_advance] stays clear, and when the fade ends the
    handler of the stopped state selects the second track and plays it. *)
Theorem user_stop_starts_next_track :
  run music music_duration signal_depth to_resumed started = Some resumed /\
  reachable music music_duration no_saved_track resumed /\
  playbackState (audio_player resumed) = PlayingState /\
  play_all_on resumed = true /\
  currentRow (playlist resumed) = 0 /\
  ignore_auto_advance resumed = false /\
  user_stopped (reset_playback resumed) = true /\
  ignore_auto_advance (reset_playback resumed) = false /\
  exists w',
    run music music_duration signal_depth (reset_clicked :: ten_ticks) resumed
      = Some w' /\
    currentRow (playlist w') = 1 /\
    current_track_url (audio_player w') = Some "/music/b.flac" /\
    playbackState (audio_player w') = PlayingState /\
    user_stopped w' = true.
Proof.
  split; [vm_compute; reflexivity|].
  split; [apply (after_reachable to_resumed); vm_compute; reflexivity|].
  do 6 (split; [vm_compute; reflexivity|]).
  eexists. split; [vm_compute; reflexivity|].
  vm_compute. repeat split.
Qed.

(* ===================================================================== *)
(** ** The playback rate *)
(* ===================================================================== *)

(** Moving the speed slider reaches the media player exactly when the
    player is playing. *)
Lemma update_speed_applied w :
  (is_playing w = true ->
   playbackRate (audio_player (update_speed w))
   = percent (value (speed_slider w))) /\
  (is_playing w = false -> update_speed w = w).
Proof.
  unfold update_speed. split; intros ->; reflexivity.
Qed.

(** C8 at the failing input: the first track is paused at speed 100; the
    speed slider is moved to 150, which is not passed on since the player
    is not playing; the play button resumes the playback with the single
    command [play]: the rate of the media player is still 1.00 while the
    slider says 1.50. *)
Theorem rate_not_applied_on_resume :
  let w1 := speed_slider_setValue 150 paused in
  reachable music music_duration no_saved_track paused /\
  playbackState (audio_player paused) = PausedState /\
  value (speed_slider w1) = 150 /\
  issued_since paused w1 = [] /\
  exists w2,
    toggle_play_pause music music_duration
      (playbackStateChanged music music_duration signal_depth) w1 = Some w2 /\
    playbackState (audio_player w2) = PlayingState /\
    issued_since w1 w2 = [play_cmd] /\
    (playbackRate (audio_player w2) == 1)%Q /\
    (percent (value (speed_slider w2)) == 3 # 2)%Q /\
    ~ (playbackRate (audio_player w2) == percent (value (speed_slider w2)))%Q.
Proof.
  split; [apply (after_reachable to_paused); vm_compute; reflexivity|].
  split; [vm_compute; reflexivity|].
  split; [vm_compute; reflexivity|].
  split; [vm_compute; reflexivity|].
  eexists. split; [vm_compute; reflexivity|].
  split; [vm_compute; reflexivity|].
  split; [vm_compute; reflexivity|].
  split; [vm_compute; reflexivity|].
  split; [vm_compute; reflexivity|].
  vm_compute. discriminate.
Qed.

(* ===================================================================== *)
(** ** Every event is handled *)
(* ===================================================================== *)

(** The nesting budget is never the reason for a missing result: with a
    budget of two deliveries, every event returns a window. *)

Lemma is_Some_bind {A B} (m : option A) (f : A -> option B) :
  is_Some m -> (forall a, is_Some (f a)) -> is_Some (m ≫= f).
Proof. intros [a ->] Hf. apply Hf. Qed.

Lemma is_Some_bind_with {A B} (P : A -> Prop) (m : option A)
    (f : A -> option B) :
  (exists a, m = Some a /\ P a) -> (forall a, P a -> is_Some (f a)) ->
  is_Some (m ≫= f).
Proof. intros (a & -> & Ha) Hf. apply Hf. exact Ha. Qed.

Ltac total :=
  repeat first
    [ progress cbv zeta beta
    | match goal with
      | |- is_Some (Some _) => eexists; reflexivity
      | |- is_Some (mbind _ _) => apply is_Some_bind; [|intros ?]
      | |- is_Some (if ?c then _ else _) => destruct c
      | |- is_Some (match ?x with Some _ => _ | None => _ end) => destruct x
      end ].

Lemma stopped_setCurrentRow r w :
  audio_player (playlist_setCurrentRow r w) = audio_player w.
Proof.
  unfold playlist_setCurrentRow.
  destruct (setCurrentRow r (playlist w)) as [l changed].
  destruct changed; reflexivity.
Qed.

Section Inner.
Variable fs : TrackManager.FileSystem.
Variable media_duration : string -> Z.
Variable emit : PlaybackState -> MainWindow -> option MainWindow.
Hypothesis emit_running : delivers_running emit.

Lemma play_returns w : is_Some (play emit w).
Proof.
  unfold play, media_player_play, setPlaybackState. total.
  apply emit_running. discriminate.
Qed.

Lemma load_track_returns_stopped path w :
  playbackState (audio_player w) = StoppedState ->
  is_Some (load_track fs media_duration emit path w).
Proof.
  intros Hst. unfold load_track.
  destruct (negb (TrackManager.fs_exists fs path)); [eexists; reflexivity|].
  rewrite setSource_stopped; [eexists; reflexivity | exact Hst].
Qed.

Lemma play_selected_track_returns_stopped w :
  playbackState (audio_player w) = StoppedState ->
  is_Some (play_selected_track fs media_duration emit w).
Proof.
  intros Hst. unfold play_selected_track.
  destruct (currentItem (playlist w)); [|eexists; reflexivity].
  destruct (TrackManager.get_absolute_path _ _); [|eexists; reflexivity].
  destruct (negb (TrackManager.fs_exists fs _)); [eexists; reflexivity|].
  apply (is_Some_bind_with
           (fun a => playbackState (audio_player a) = StoppedState)).
  - exists w. split; [|exact Hst].
    unfold is_playing. rewrite Hst. reflexivity.
  - intros a Ha. cbv zeta. apply is_Some_bind.
    + apply load_track_returns_stopped. exact Ha.
    + intros b. apply is_Some_bind; [apply play_returns|].
      intros c. eexists. reflexivity.
Qed.

Lemma handle_playback_state_changed_returns s w :
  playbackState (audio_player w) = s ->
  is_Some (handle_playback_state_changed fs media_duration emit s w).
Proof.
  intros Hst. unfold handle_playback_state_changed.
  destruct s; cbn [PlaybackState_eqb]; [|eexists; reflexivity..].
  destruct (ignore_auto_advance w); [eexists; reflexivity|].
  destruct (_ && _ && _)%bool; [apply play_returns|].
  cbv zeta. destruct (_ && _)%bool; [|eexists; reflexivity].
  apply play_selected_track_returns_stopped.
  rewrite stopped_setCurrentRow. exact Hst.
Qed.

End Inner.

Section Outer.
Variable fs : TrackManager.FileSystem.
Variable media_duration : string -> Z.
Variable emit : PlaybackState -> MainWindow -> option MainWindow.
Hypothesis emit_delivers : delivers emit.

Lemma setPlaybackState_returns s w : is_Some (setPlaybackState emit s w).
Proof.
  unfold setPlaybackState. total. apply emit_delivers. reflexivity.
Qed.

Lemma stop_returns w : is_Some (stop emit w).
Proof.
  unfold stop, media_player_stop. total. apply setPlaybackState_returns.
Qed.

Lemma pause_returns w : is_Some (pause emit w).
Proof.
  unfold pause, media_player_pause. total. apply setPlaybackState_returns.
Qed.

Lemma play_returns_any w : is_Some (play emit w).
Proof.
  unfold play, media_player_play. total. apply setPlaybackState_returns.
Qed.

Lemma load_track_returns path w :
  is_Some (load_track fs media_duration emit path w).
Proof.
  unfold load_track, media_player_setSource. total.
  apply setPlaybackState_returns.
Qed.

Lemma fade_timer_timeout_returns w : is_Some (fade_timer_timeout emit w).
Proof.
  unfold fade_timer_timeout, _fade_step, media_player_stop. total.
  apply setPlaybackState_returns.
Qed.

Lemma play_selected_track_returns w :
  is_Some (play_selected_track fs media_duration emit w).
Proof.
  unfold play_selected_track. total;
    first [apply stop_returns | apply load_track_returns
          | apply play_returns_any].
Qed.

Lemma toggle_play_pause_returns w :
  is_Some (toggle_play_pause fs media_duration emit w).
Proof.
  unfold toggle_play_pause. total;
    first [apply pause_returns | apply play_returns_any
          | apply play_selected_track_returns].
Qed.

Lemma skip_to_next_returns w :
  is_Some (skip_to_next fs media_duration emit w).
Proof.
  unfold skip_to_next. total. apply play_selected_track_returns.
Qed.

Lemma skip_to_previous_returns w :
  is_Some (skip_to_previous fs media_duration emit w).
Proof.
  unfold skip_to_previous. total. apply play_selected_track_returns.
Qed.

Lemma handle_media_status_changed_returns status w :
  is_Some (handle_media_status_changed fs media_duration emit status w).
Proof.
  unfold handle_media_status_changed. total;
    first [apply play_returns_any | apply play_selected_track_returns].
Qed.

End Outer.

Lemma slot_delivers_running fs media_duration n :
  delivers_running (playbackStateChanged fs media_duration (S n)).
Proof.
  intros s w Hs. destruct s; [contradiction | eexists; reflexivity..].
Qed.

Lemma slot_delivers fs media_duration n :
  delivers (playbackStateChanged fs media_duration (S (S n))).
Proof.
  intros s w Hs.
  change (is_Some (handle_playback_state_changed fs media_duration
                     (playbackStateChanged fs media_duration (S n)) s w)).
  apply handle_playback_state_changed_returns; [|exact Hs].
  apply slot_delivers_running.
Qed.

(** Every event returns a window when two nested deliveries are allowed. *)
Lemma dispatch_total fs media_duration depth e w :
  (2 <= depth)%nat -> is_Some (dispatch fs media_duration depth e w).
Proof.
  intros Hd. destruct depth as [|[|n]]; [lia | lia |].
  pose proof (slot_delivers fs media_duration n) as Hslot.
  destruct e; cbn [dispatch]; try (eexists; reflexivity).
  - apply toggle_play_pause_returns. exact Hslot.
  - apply play_selected_track_returns. exact Hslot.
  - apply skip_to_previous_returns. exact Hslot.
  - apply skip_to_next_returns. exact Hslot.
  - apply fade_timer_timeout_returns. exact Hslot.
  - unfold finish_track. total. apply setPlaybackState_returns. exact Hslot.
  - apply handle_media_status_changed_returns. exact Hslot.
Qed.

Lemma run_total fs media_duration depth es w :
  (2 <= depth)%nat -> is_Some (run fs media_duration depth es w).
Proof.
  intros Hd. revert w. induction es as [|e es IH]; intros w; simpl.
  - eexists. reflexivity.
  - apply is_Some_bind; [apply dispatch_total; exact Hd | exact IH].
Qed.

(* ===================================================================== *)
(** ** The catalog of a folder *)
(* ===================================================================== *)

(** The inner loop of the second pass, from any loop state: the files
    added, the number found and, for the recording callback, the calls. *)
Lemma scan_files_catalog {S : Type} (tm : TrackManager.t) (folder : string)
    (cb : option (@TrackManager.callback_t S)) (total : Z) (root : string)
    (files : list string) (result : list string) (found : Z) (s : S) :
  (fold_left (TrackManager.scan_file tm folder cb total root) files
     (result, found, s)).1
  = ((result
      ++ map (fun '(root, file) =>
                TrackManager.relpath (TrackManager.path_join root file) folder)
           (List.filter (fun '(root, file) => TrackManager.is_supported tm file)
              (map (fun file => (root, file)) files)))%list,
     found
     + Z.of_nat
         (length (List.filter
                    (fun '(root, file) => TrackManager.is_supported tm file)
                    (map (fun file => (root, file)) files)))).
Proof.
  revert result found s.
  induction files as [|file files IH]; intros result found s.
  - simpl. rewrite app_nil_r, Z.add_0_r. reflexivity.
  - cbn [fold_left map List.filter]. unfold TrackManager.scan_file at 2.
    destruct (TrackManager.is_supported tm file) eqn:Hs.
    + rewrite IH. cbn [map length]. rewrite <- app_assoc. cbn [app].
      f_equal. lia.
    + apply IH.
Qed.

Lemma scan_walk_catalog {S : Type} (tm : TrackManager.t) (folder : string)
    (cb : option (@TrackManager.callback_t S)) (total : Z)
    (walk : list (string * list string)) (result : list string) (found : Z)
    (s : S) :
  (fold_left
     (fun acc '(root, files) =>
        fold_left (TrackManager.scan_file tm folder cb total root) files acc)
     walk (result, found, s)).1
  = ((result ++ TrackManager.catalog_of tm folder walk)%list,
     found + Z.of_nat (length (TrackManager.catalog_of tm folder walk))).
Proof.
  revert result found s.
  induction walk as [|[root files] walk IH]; intros result found s.
  - unfold TrackManager.catalog_of. simpl.
    rewrite app_nil_r, Z.add_0_r. reflexivity.
  - cbn [fold_left].
    pose proof (scan_files_catalog tm folder cb total root files result found s)
      as Hin.
    destruct (fold_left (TrackManager.scan_file tm folder cb total root) files
                (result, found, s)) as [[result' found'] s'].
    cbn [fst] in Hin. injection Hin as -> ->.
    rewrite IH. unfold TrackManager.catalog_of, TrackManager.walked.
    cbn [flat_map]. rewrite List.filter_app, map_app, !length_app.
    rewrite <- app_assoc, !length_map. f_equal. lia.
Qed.

(** The first pass counts the files that the second pass collects. *)
Lemma count_files_catalog (tm : TrackManager.t) (folder : string)
    (walk : list (string * list string)) :
  TrackManager.count_files tm walk
  = Z.of_nat (length (TrackManager.catalog_of tm folder walk)).
Proof.
  unfold TrackManager.count_files.
  assert (forall files root total,
             fold_left
               (fun total file =>
                  if TrackManager.is_supported tm file then total + 1 else total)
               files total
             = total
               + Z.of_nat
                   (length (List.filter
                              (fun '(root, file) =>
                                 TrackManager.is_supported tm file)
                              (map (fun file => (root : string, file)) files))))
    as Hfiles.
  { induction files as [|file files IH]; intros root total.
    - simpl. lia.
    - cbn [fold_left map List.filter].
      destruct (TrackManager.is_supported tm file).
      + rewrite (IH root). cbn [length]. lia.
      + apply IH. }
  assert (forall total,
             fold_left
               (fun total '(root, files) =>
                  fold_left
                    (fun total file =>
                       if TrackManager.is_supported tm file then total + 1
                       else total)
                    files total)
               walk total
             = total + Z.of_nat (length (TrackManager.catalog_of tm folder walk)))
    as Hwalk.
  { induction walk as [|[root files] walk IH]; intros total.
    - unfold TrackManager.catalog_of. simpl. lia.
    - cbn [fold_left]. rewrite IH, (Hfiles files root).
      unfold TrackManager.catalog_of, TrackManager.walked.
      cbn [flat_map]. rewrite List.filter_app, map_app, !length_app, !length_map.
      lia. }
  apply Hwalk.
Qed.

(** What [scan_folder] returns and leaves in the manager, whatever the
    callback: nothing without a folder, the catalog of the folder
    otherwise. *)
Lemma scan_folder_result {S : Type} (fs : TrackManager.FileSystem)
    (cb : option (@TrackManager.callback_t S)) (s : S) (tm : TrackManager.t) :
  (TrackManager.scan_folder fs cb s tm).1
  = if Py.truthy (TrackManager.current_folder tm) then
      let folder := default "" (TrackManager.current_folder tm) in
      let catalog :=
        TrackManager.catalog_of tm folder (TrackManager.fs_walk fs folder) in
      (catalog, TrackManager.set_track_list catalog tm)
    else ([], tm).
Proof.
  unfold TrackManager.scan_folder.
  destruct (Py.truthy (TrackManager.current_folder tm)); [|reflexivity].
  cbn [negb]. cbv zeta.
  set (folder := default "" (TrackManager.current_folder tm)).
  pose proof (scan_walk_catalog tm folder cb
                (TrackManager.count_files tm (TrackManager.fs_walk fs folder))
                (TrackManager.fs_walk fs folder) [] 0 s) as H.
  destruct (fold_left _ (TrackManager.fs_walk fs folder) ([], 0, s))
    as [[result found] s'].
  cbn [fst] in H. injection H as -> _. reflexivity.
Qed.

Lemma truthy_folder (tm : TrackManager.t) (folder : string) :
  TrackManager.current_folder tm = Some folder -> folder <> "" ->
  Py.truthy (TrackManager.current_folder tm) = true.
Proof.
  intros -> H. apply String.eqb_neq in H. cbn [Py.truthy]. rewrite H.
  reflexivity.
Qed.

(** X4: [scan_folder] returns, and stores as the track list, the supported
    files of the walk in the order of the walk, each as its path relative
    to the folder; the callback and the caller's state have no part in it,
    and the folder and the extensions stay as they are. *)
Theorem scan_folder_catalog {S : Type} (fs : TrackManager.FileSystem)
    (cb : option (@TrackManager.callback_t S)) (s : S) (tm : TrackManager.t)
    (folder : string) :
  TrackManager.current_folder tm = Some folder ->
  folder <> "" ->
  let catalog :=
    TrackManager.catalog_of tm folder (TrackManager.fs_walk fs folder) in
  (TrackManager.scan_folder fs cb s tm).1
  = (catalog, TrackManager.set_track_list catalog tm).
Proof.
  intros Hf Hne. rewrite scan_folder_result.
  rewrite (truthy_folder tm folder Hf Hne), Hf. reflexivity.
Qed.

Lemma scan_folder_catalog_witness :
  (TrackManager.scan_folder music (Some (update_progress cancel_at_once))
     {| dialog_value := 0; wasCanceled := false |}
     (TrackManager.set_current_folder (Some "/music") TrackManager.init)).1
  = (["a.mp3"; "b.flac"],
     TrackManager.set_track_list ["a.mp3"; "b.flac"]
       (TrackManager.set_current_folder (Some "/music") TrackManager.init)).
Proof.
  apply (scan_folder_catalog music (Some (update_progress cancel_at_once))
           {| dialog_value := 0; wasCanceled := false |}
           (TrackManager.set_current_folder (Some "/music") TrackManager.init)
           "/music").
  - reflexivity.
  - discriminate.
Defined.

(** The calls of the recording callback in the inner loop. *)
Lemma scan_files_calls (tm : TrackManager.t) (folder : string) (total : Z)
    (root : string) (files : list string) (result : list string) (found : nat)
    (calls : list (Z * Z)) :
  (fold_left
     (TrackManager.scan_file tm folder (Some TrackManager.recording) total root)
     files (result, Z.of_nat found, calls)).2
  = (calls
     ++ map (fun i => (Z.of_nat i, total))
          (List.seq (S found)
             (length (List.filter
                        (fun '(root, file) => TrackManager.is_supported tm file)
                        (map (fun file => (root, file)) files)))))%list.
Proof.
  revert result found calls.
  induction files as [|file files IH]; intros result found calls.
  - simpl. rewrite app_nil_r. reflexivity.
  - cbn [fold_left map List.filter]. unfold TrackManager.scan_file at 2.
    destruct (TrackManager.is_supported tm file) eqn:Hs.
    + unfold TrackManager.recording at 2. cbn [snd].
      replace (Z.of_nat found + 1) with (Z.of_nat (S found)) by lia.
      rewrite IH. cbn [length List.seq map]. rewrite <- app_assoc. cbn [app].
      reflexivity.
    + apply IH.
Qed.

Lemma scan_walk_calls (tm : TrackManager.t) (folder : string) (total : Z)
    (walk : list (string * list string)) (result : list string) (found : nat)
    (calls : list (Z * Z)) :
  (fold_left
     (fun acc '(root, files) =>
        fold_left
          (TrackManager.scan_file tm folder (Some TrackManager.recording)
             total root)
          files acc)
     walk (result, Z.of_nat found, calls)).2
  = (calls
     ++ map (fun i => (Z.of_nat i, total))
          (List.seq (S found)
             (length (TrackManager.catalog_of tm folder walk))))%list.
Proof.
  revert result found calls.
  induction walk as [|[root files] walk IH]; intros result found calls.
  - unfold TrackManager.catalog_of. simpl. rewrite app_nil_r. reflexivity.
  - cbn [fold_left].
    pose proof (scan_files_calls tm folder total root files result found calls)
      as Hcalls.
    pose proof (scan_files_catalog tm folder (Some TrackManager.recording)
                  total root files result (Z.of_nat found) calls) as Hin.
    destruct (fold_left _ files (result, Z.of_nat found, calls))
      as [[result' found'] calls'].
    cbn [fst snd] in Hin, Hcalls. injection Hin as -> ->. subst calls'.
    rewrite <- Nat2Z.inj_add, IH.
    unfold TrackManager.catalog_of, TrackManager.walked.
    cbn [flat_map]. rewrite List.filter_app, map_app, !length_app, !length_map.
    rewrite <- app_assoc, List.seq_app, map_app.
    repeat f_equal.
Qed.

(** X5: a callback handed to [scan_folder] is called once for each track
    of the catalog, in order, with the number of tracks found so far and
    the number of tracks of the catalog: for [n] tracks the calls are
    [(1, n)], [(2, n)], ..., [(n, n)]. *)
Theorem scan_folder_progress_calls (fs : TrackManager.FileSystem)
    (tm : TrackManager.t) (folder : string) :
  TrackManager.current_folder tm = Some folder ->
  folder <> "" ->
  let '(catalog, _, calls) :=
    TrackManager.scan_folder fs (Some TrackManager.recording) [] tm in
  calls
  = TrackManager.progress_calls (length catalog) (Z.of_nat (length catalog)).
Proof.
  intros Hf Hne.
  pose proof (scan_folder_result fs (Some TrackManager.recording) [] tm)
    as Hcat.
  rewrite (truthy_folder tm folder Hf Hne), Hf in Hcat.
  cbv zeta in Hcat. cbn [default from_option id] in Hcat. revert Hcat.
  unfold TrackManager.scan_folder.
  rewrite Hf. cbn [Py.truthy default from_option id].
  apply String.eqb_neq in Hne. rewrite Hne. cbn [negb].
  pose proof (scan_walk_calls tm folder
                (TrackManager.count_files tm (TrackManager.fs_walk fs folder))
                (TrackManager.fs_walk fs folder) [] 0 []) as H.
  change (Z.of_nat 0) with 0 in H.
  destruct (fold_left _ (TrackManager.fs_walk fs folder) ([], 0, []))
    as [[result found] calls].
  cbn [fst snd] in *. intros [= ->]. subst calls.
  rewrite (count_files_catalog tm folder). reflexivity.
Qed.

Lemma scan_folder_progress_calls_witness :
  let '(catalog, _, calls) :=
    TrackManager.scan_folder music (Some TrackManager.recording) []
      (TrackManager.set_current_folder (Some "/music") TrackManager.init) in
  calls
  = TrackManager.progress_calls (length catalog) (Z.of_nat (length catalog)).
Proof.
  apply (scan_folder_progress_calls music
           (TrackManager.set_current_folder (Some "/music") TrackManager.init)
           "/music").
  - reflexivity.
  - discriminate.
Defined.

(** The caller's state comes back from a scan without callback. *)
Lemma scan_folder_no_callback {S : Type} (fs : TrackManager.FileSystem)
    (s : S) (tm : TrackManager.t) :
  (TrackManager.scan_folder fs None s tm).2 = s.
Proof.
  unfold TrackManager.scan_folder.
  destruct (Py.truthy (TrackManager.current_folder tm)); [|reflexivity].
  cbn [negb].
  generalize (TrackManager.count_files tm
                (TrackManager.fs_walk fs
                   (default "" (TrackManager.current_folder tm)))).
  generalize (default "" (TrackManager.current_folder tm)).
  intros folder total.
  assert (forall walk (acc : list string * Z * S),
             (fold_left
                (fun acc '(root, files) =>
                   fold_left
                     (TrackManager.scan_file tm folder None total root)
                     files acc)
                walk acc).2 = acc.2) as Hwalk.
  { induction walk as [|[root files] walk IH]; intros acc; [reflexivity|].
    cbn [fold_left]. rewrite IH. clear IH.
    revert acc. induction files as [|file files IH]; intros acc;
      [reflexivity|].
    cbn [fold_left]. rewrite IH. destruct acc as [[r k] s0].
    unfold TrackManager.scan_file. case_match; reflexivity. }
  specialize (Hwalk (TrackManager.fs_walk fs folder) ([], 0, s)).
  destruct (fold_left _ (TrackManager.fs_walk fs folder) ([], 0, s))
    as [[r k] s0].
  exact Hwalk.
Qed.

Lemma join_slash_nonempty (part : string) (parts : list string) :
  part <> "" -> TrackManager.join_slash (part :: parts) <> "".
Proof.
  intros Hne. destruct part as [|c part]; [contradiction|].
  destruct parts; [discriminate|].
  cbn [TrackManager.join_slash]. intros H. discriminate H.
Qed.

Lemma Path_nonempty (p : string) : TrackManager.Path p <> "".
Proof.
  unfold TrackManager.Path, TrackManager.path_str, TrackManager.path_root.
  destruct (String.prefix "/" p).
  - destruct (_ && _)%bool; intros H; discriminate H.
  - destruct (TrackManager.path_parts p) as [|part parts] eqn:Hparts;
      [discriminate|].
    change ("" ++ ?x) with x.
    apply join_slash_nonempty.
    assert (In part (TrackManager.path_parts p)) as Hin
        by (rewrite Hparts; left; reflexivity).
    unfold TrackManager.path_parts in Hin. apply filter_In in Hin as [_ Hin].
    intros ->. discriminate Hin.
Qed.

(** The two outcomes of [set_folder]. *)
Lemma set_folder_result {S : Type} (fs : TrackManager.FileSystem)
    (folder_path : string) (s : S) (tm : TrackManager.t) :
  TrackManager.set_folder fs folder_path s tm
  = if (TrackManager.fs_exists fs (TrackManager.Path folder_path)
        && TrackManager.fs_is_dir fs (TrackManager.Path folder_path))%bool
    then
      let folder := TrackManager.Path folder_path in
      let catalog :=
        TrackManager.catalog_of tm folder (TrackManager.fs_walk fs folder) in
      (true,
       TrackManager.set_track_list catalog
         (TrackManager.set_current_folder (Some folder) tm),
       s)
    else (false, tm, s).
Proof.
  unfold TrackManager.set_folder. rewrite <- negb_andb.
  destruct (TrackManager.fs_exists fs (TrackManager.Path folder_path)
            && TrackManager.fs_is_dir fs (TrackManager.Path folder_path))%bool;
    [|reflexivity].
  cbn [negb]. cbv zeta.
  pose proof (Path_nonempty folder_path) as Hne. revert Hne.
  generalize (TrackManager.Path folder_path). intros folder Hne.
  pose proof (scan_folder_result fs None s
                (TrackManager.set_current_folder (Some folder) tm)) as H.
  rewrite (truthy_folder (TrackManager.set_current_folder (Some folder) tm)
             folder eq_refl Hne) in H.
  pose proof (scan_folder_no_callback fs s
                (TrackManager.set_current_folder (Some folder) tm)) as Hs.
  destruct (TrackManager.scan_folder fs None s
              (TrackManager.set_current_folder (Some folder) tm))
    as [[r tm'] s'].
  cbn [fst snd] in *. injection H as -> ->. subst s'. reflexivity.
Qed.

(** X6: [set_folder] on a directory that exists answers [True], takes the
    folder as [pathlib] spells it ([str(Path(folder_path))]: doubled
    slashes, dot parts and a slash at the end are dropped) and catalogues
    it; no callback is called, so the caller's state is left as it is. *)
Theorem set_folder_success {S : Type} (fs : TrackManager.FileSystem)
    (folder_path : string) (s : S) (tm : TrackManager.t) :
  TrackManager.fs_exists fs (TrackManager.Path folder_path) = true ->
  TrackManager.fs_is_dir fs (TrackManager.Path folder_path) = true ->
  let folder := TrackManager.Path folder_path in
  let catalog :=
    TrackManager.catalog_of tm folder (TrackManager.fs_walk fs folder) in
  TrackManager.set_folder fs folder_path s tm
  = (true,
     TrackManager.set_track_list catalog
       (TrackManager.set_current_folder (Some folder) tm),
     s).
Proof.
  intros He Hd. rewrite set_folder_result, He, Hd. reflexivity.
Qed.

Lemma set_folder_success_witness :
  TrackManager.set_folder music "/music/" tt TrackManager.init
  = (true,
     TrackManager.set_track_list ["a.mp3"; "b.flac"]
       (TrackManager.set_current_folder (Some "/music") TrackManager.init),
     tt).
Proof.
  apply (set_folder_success music "/music/" tt TrackManager.init);
    reflexivity.
Defined.

(** *** Searching the catalog *)

Lemma append_cons (c : ascii) (a b : string) :
  String c a ++ b = String c (a ++ b).
Proof. reflexivity. Qed.

Lemma prefix_app (sub s : string) :
  String.prefix sub s = true <-> exists post, s = sub ++ post.
Proof.
  revert s. induction sub as [|a sub IH]; intros s.
  - split; [intros _; exists s; reflexivity|intros _; destruct s; reflexivity].
  - destruct s as [|b s].
    + split; [discriminate|intros [post H]; discriminate H].
    + cbn [String.prefix]. destruct (ascii_dec a b) as [->|Hne].
      * rewrite IH. split; intros [post H]; exists post.
        -- rewrite append_cons. rewrite H. reflexivity.
        -- rewrite append_cons in H. congruence.
      * split; [discriminate|].
        intros [post H]. rewrite append_cons in H. congruence.
Qed.

(** [sub in s]: [s] has [sub] somewhere in it. *)
Lemma contains_spec (sub s : string) :
  Py.contains sub s = true <-> exists pre post, s = pre ++ sub ++ post.
Proof.
  induction s as [|c r IH].
  - change (Py.contains sub "") with (String.prefix sub "" || false)%bool.
    rewrite orb_false_r, prefix_app. split.
    + intros [post H]. exists "", post. exact H.
    + intros (pre & post & H). exists post.
      destruct pre; [exact H|discriminate H].
  - change (Py.contains sub (String c r))
      with (String.prefix sub (String c r) || Py.contains sub r)%bool.
    rewrite orb_true_iff, prefix_app, IH. split.
    + intros [[post H]|(pre & post & H)].
      * exists "", post. exact H.
      * exists (String c pre), post. rewrite append_cons. rewrite H.
        reflexivity.
    + intros (pre & post & H). destruct pre as [|c' pre].
      * left. exists post. exact H.
      * right. exists pre, post. rewrite append_cons in H. congruence.
Qed.

(** X7: [filter_tracks] answers with the tracks of the catalog, all of
    them and in their order, and marks a track visible exactly when the
    lower-cased search text occurs in the lower-cased track; with the empty
    text that is every track. *)
Theorem filter_tracks_spec (tm : TrackManager.t) (search_text : string) :
  map fst (TrackManager.filter_tracks tm search_text)
  = TrackManager.track_list tm /\
  (forall track visible,
     In (track, visible) (TrackManager.filter_tracks tm search_text) ->
     (visible = true <->
      exists pre post,
        Py.lower track = pre ++ Py.lower search_text ++ post)) /\
  (search_text = "" ->
   forall track visible,
     In (track, visible) (TrackManager.filter_tracks tm search_text) ->
     visible = true).
Proof.
  unfold TrackManager.filter_tracks.
  destruct (String.eqb_spec search_text "") as [->|Hne].
  - split; [|split].
    + rewrite map_map. cbn [fst]. apply map_id.
    + intros track visible Hin. apply in_map_iff in Hin as (t & [= <- <-] & _).
      split; [|reflexivity]. intros _. exists "", (Py.lower t). reflexivity.
    + intros _ track visible Hin.
      apply in_map_iff in Hin as (t & [= <- <-] & _). reflexivity.
  - split; [|split].
    + rewrite map_map. cbn [fst]. apply map_id.
    + intros track visible Hin. apply in_map_iff in Hin as (t & [= <- <-] & _).
      apply contains_spec.
    + intros ->. congruence.
Qed.

(** *** From a track of the catalog back to its file *)

Lemma append_assoc (a b c : string) : (a ++ b) ++ c = a ++ b ++ c.
Proof.
  induction a as [|x a IH]; [reflexivity|].
  rewrite !append_cons, IH. reflexivity.
Qed.

Lemma substring_all (s : string) : substring 0 (String.length s) s = s.
Proof.
  induction s as [|c s IH]; [reflexivity|].
  cbn [String.length substring]. rewrite IH. reflexivity.
Qed.

Lemma substring_after (a b : string) :
  substring (String.length a)
    (String.length (a ++ b) - String.length a) (a ++ b) = b.
Proof.
  induction a as [|c a IH].
  - change ("" ++ b) with b. cbn [String.length]. rewrite Nat.sub_0_r.
    apply substring_all.
  - rewrite append_cons. cbn [String.length substring Nat.sub]. exact IH.
Qed.

(** The relative path of a path below the start is the rest of it. *)
Lemma relpath_below (start rest : string) :
  TrackManager.relpath ((start ++ "/") ++ rest) start = rest.
Proof.
  unfold TrackManager.relpath.
  assert (String.prefix (start ++ "/") ((start ++ "/") ++ rest) = true) as ->.
  { apply prefix_app. exists rest. reflexivity. }
  apply substring_after.
Qed.

Lemma relpath_rest (start rest : string) :
  TrackManager.relpath (start ++ "/" ++ rest) start = rest.
Proof. rewrite <- append_assoc. apply relpath_below. Qed.

Lemma path_join_nonempty (root file : string) :
  root <> "" -> TrackManager.path_join root file = root ++ "/" ++ file.
Proof.
  intros H. unfold TrackManager.path_join.
  apply String.eqb_neq in H. rewrite H. reflexivity.
Qed.

Lemma append_nonempty (a b : string) : a <> "" -> a ++ b <> "".
Proof. destruct a; [congruence|discriminate]. Qed.

(** X8: with a walk that stays below the folder (its directories are the
    folder or [folder/sub]), every track of the catalog is the relative
    path of a supported file that the walk yields, and
    [get_absolute_path] of the track is the path of that file. *)
Theorem catalogued_track_resolves (fs : TrackManager.FileSystem)
    (tm : TrackManager.t) (folder : string) :
  TrackManager.current_folder tm = Some folder ->
  folder <> "" ->
  folder <> "/" ->
  (forall root files,
     In (root, files) (TrackManager.fs_walk fs folder) ->
     root = folder \/ exists sub, root = folder ++ "/" ++ sub) ->
  forall track,
    In track (TrackManager.catalog_of tm folder (TrackManager.fs_walk fs folder)) ->
    exists root files file,
      In (root, files) (TrackManager.fs_walk fs folder) /\
      In file files /\
      TrackManager.is_supported tm file = true /\
      track = TrackManager.relpath (TrackManager.path_join root file) folder /\
      TrackManager.get_absolute_path tm track
      = Some (TrackManager.path_join root file).
Proof.
  intros Hf Hne _ Hbelow track Hin.
  unfold TrackManager.catalog_of in Hin.
  apply in_map_iff in Hin as ([root file] & <- & Hin).
  apply List.filter_In in Hin as [Hin Hs].
  unfold TrackManager.walked in Hin.
  apply in_flat_map in Hin as ([root' files] & Hwalk & Hin).
  apply in_map_iff in Hin as (file' & [= <- <-] & Hfile).
  exists root', files, file'. repeat (split; [assumption || reflexivity|]).
  unfold TrackManager.get_absolute_path. rewrite Hf.
  cbn [Py.truthy default from_option id].
  pose proof Hne as Hne'. apply String.eqb_neq in Hne'. rewrite Hne'.
  cbn [negb]. f_equal. rewrite (path_join_nonempty folder) by exact Hne.
  destruct (Hbelow _ _ Hwalk) as [->|[sub ->]].
  - rewrite (path_join_nonempty folder) by exact Hne.
    rewrite relpath_rest. reflexivity.
  - rewrite path_join_nonempty by (apply append_nonempty; exact Hne).
    rewrite !append_assoc, relpath_rest. reflexivity.
Qed.

Lemma catalogued_track_resolves_witness :
  exists root files file,
    In (root, files) (TrackManager.fs_walk music "/music") /\
    In file files /\
    TrackManager.is_supported (track_manager opened) file = true /\
    "b.flac" = TrackManager.relpath (TrackManager.path_join root file) "/music" /\
    TrackManager.get_absolute_path (track_manager opened) "b.flac"
    = Some (TrackManager.path_join root file).
Proof.
  apply (catalogued_track_resolves music (track_manager opened) "/music").
  - vm_compute. reflexivity.
  - discriminate.
  - discriminate.
  - intros root files [[= <- <-]|[]]. left. reflexivity.
  - vm_compute. right. left. reflexivity.
Defined.

(* ===================================================================== *)
(** ** The time labels *)
(* ===================================================================== *)

(** The minute and the second of a time of day. *)
Lemma day_part (x u m : Z) :
  0 < u -> 0 < m ->
  ((x mod (u * (60 * m))) / u) mod 60 = (x / u) mod 60.
Proof.
  intros Hu Hm.
  rewrite Z.rem_mul_r by lia.
  rewrite (Z.mul_comm u ((x / u) mod (60 * m))), Z.div_add by lia.
  rewrite (Z.div_small (x mod u) u) by (apply Z.mod_pos_bound; lia).
  rewrite Z.add_0_l, Z.rem_mul_r by lia.
  rewrite (Z.mul_comm 60), Z.mod_add by lia.
  apply Z.mod_mod. lia.
Qed.

Lemma mm_ss_addMSecs (ms : Z) :
  Helpers.mm_ss (Helpers.addMSecs ms)
  = Py.pad2 ((ms / 60000) mod 60) ++ ":" ++ Py.pad2 ((ms / 1000) mod 60).
Proof.
  unfold Helpers.mm_ss, Helpers.addMSecs.
  change 86400000 with (60000 * (60 * 24)) at 1.
  change 86400000 with (1000 * (60 * 1440)).
  rewrite !day_part by lia. reflexivity.
Qed.

(** X9: the label of [format_position_duration] shows no hours, and drops
    them: for times that the toolkit takes (C integers), a position or a
    duration that is whole hours longer gives the same label, so one hour
    and five seconds reads as five seconds. *)
Theorem position_label_drops_hours (position_ms duration_ms k j : Z) :
  Helpers.c_int position_ms ->
  Helpers.c_int (position_ms + 3600000 * k) ->
  Helpers.c_int duration_ms ->
  Helpers.c_int (duration_ms + 3600000 * j) ->
  Helpers.format_position_duration
    (position_ms + 3600000 * k) (duration_ms + 3600000 * j)
  = Helpers.format_position_duration position_ms duration_ms.
Proof.
  intros _ _ _ _.
  unfold Helpers.format_position_duration. rewrite !mm_ss_addMSecs.
  assert (forall x i, ((x + 3600000 * i) / 60000) mod 60 = (x / 60000) mod 60)
    as Hmin.
  { intros x i.
    replace (x + 3600000 * i) with (x + (60 * i) * 60000) by lia.
    rewrite Z.div_add by lia.
    rewrite (Z.mul_comm 60 i), Z.mod_add by lia. reflexivity. }
  assert (forall x i, ((x + 3600000 * i) / 1000) mod 60 = (x / 1000) mod 60)
    as Hsec.
  { intros x i.
    replace (x + 3600000 * i) with (x + (3600 * i) * 1000) by lia.
    rewrite Z.div_add by lia.
    replace (3600 * i) with ((60 * i) * 60) by lia.
    rewrite Z.mod_add by lia. reflexivity. }
  rewrite !Hmin, !Hsec. reflexivity.
Qed.

Lemma position_label_drops_hours_witness :
  Helpers.format_position_duration (5000 + 3600000 * 1) (180000 + 3600000 * 0)
  = Helpers.format_position_duration 5000 180000 /\
  Helpers.format_position_duration 5000 180000 = "00:05 / 03:00".
Proof.
  split; [|vm_compute; reflexivity].
  apply (position_label_drops_hours 5000 180000 1 0);
    unfold Helpers.c_int; lia.
Defined.

(** X10: below one hour the two formatters agree: the label that
    [format_position_duration] gives for a time in milliseconds is what
    [format_duration] gives for that time in seconds. *)
Theorem formatters_agree_below_an_hour (position_ms duration_ms : Z) :
  0 <= position_ms < 3600000 ->
  0 <= duration_ms < 3600000 ->
  Helpers.format_position_duration position_ms duration_ms
  = Helpers.format_duration (position_ms # 1000) ++ " / "
    ++ Helpers.format_duration (duration_ms # 1000).
Proof.
  intros Hp Hd.
  unfold Helpers.format_position_duration. rewrite !mm_ss_addMSecs.
  assert (forall ms, 0 <= ms < 3600000 ->
            Py.pad2 ((ms / 60000) mod 60) ++ ":" ++ Py.pad2 ((ms / 1000) mod 60)
            = Helpers.format_duration (ms # 1000)) as H.
  { intros ms Hms. unfold Helpers.format_duration, int_of_float.
    cbn [Qnum Qden]. rewrite Z.quot_div_nonneg by lia.
    rewrite Z.div_div by lia. change (1000 * 60) with 60000.
    rewrite (Z.mod_small (ms / 60000)); [reflexivity|].
    split; [apply Z.div_pos; lia|apply Z.div_lt_upper_bound; lia]. }
  rewrite !H by assumption. reflexivity.
Qed.

Lemma formatters_agree_below_an_hour_witness :
  Helpers.format_position_duration 61500 3599999
  = Helpers.format_duration (61500 # 1000) ++ " / "
    ++ Helpers.format_duration (3599999 # 1000).
Proof.
  apply (formatters_agree_below_an_hour 61500 3599999); lia.
Defined.
(* ===================================================================== *)
(** ** Rounding to a float *)
(* ===================================================================== *)

Lemma two_power_pos (e : Z) : (0 < 2 ^ e)%Q.
Proof. apply Qpower_0_lt. reflexivity. Qed.

(** Scaling by a power of two and back. *)
Lemma scale_back (e K : Z) :
  e <= 0 -> (inject_Z (K * 2 ^ (- e)) * 2 ^ e == inject_Z K)%Q.
Proof.
  intros He. rewrite inject_Z_mult, Zpower_Qpower by lia.
  change (inject_Z 2) with 2%Q.
  rewrite <- Qmult_assoc, <- Qpower_plus by discriminate.
  replace (- e + e) with 0 by lia. apply Qmult_1_r.
Qed.

(** The exponent found for [n / d] is not above its binary logarithm, and
    is negative only below 1. *)
Lemma exponent_lower (n d : positive) :
  0 <= Floats.exponent n d -> 2 ^ Floats.exponent n d * Zpos d <= Zpos n.
Proof.
  unfold Floats.exponent.
  pose proof (Z.log2_spec (Zpos n) eq_refl) as [Hn1 Hn2].
  pose proof (Z.log2_spec (Zpos d) eq_refl) as [Hd1 Hd2].
  pose proof (Z.log2_nonneg (Zpos n)) as Ha.
  pose proof (Z.log2_nonneg (Zpos d)) as Hb.
  set (a := Z.log2 (Zpos n)) in *. set (b := Z.log2 (Zpos d)) in *.
  destruct (Z.ltb_spec (Zpos n * 2 ^ Z.max 0 (- (a - b)))
                       (Zpos d * 2 ^ Z.max 0 (a - b))) as [Hlt|Hge];
    intros He.
  - replace a with ((a - b - 1) + (b + 1)) in Hn1 by lia.
    rewrite Z.pow_add_r in Hn1 by lia.
    unfold Z.succ in Hd2.
    assert (0 < 2 ^ (a - b - 1)) by (apply Z.pow_pos_nonneg; lia).
    assert (2 ^ (a - b - 1) * Zpos d <= 2 ^ (a - b - 1) * 2 ^ (b + 1))
      by (apply Z.mul_le_mono_nonneg_l; lia).
    lia.
  - rewrite (Z.max_l 0 (- (a - b))), (Z.max_r 0 (a - b)) in Hge by lia.
    rewrite Z.pow_0_r in Hge. lia.
Qed.

Lemma exponent_negative (n d : positive) :
  Floats.exponent n d < 0 -> Zpos n < Zpos d.
Proof.
  unfold Floats.exponent.
  pose proof (Z.log2_spec (Zpos n) eq_refl) as [Hn1 Hn2].
  pose proof (Z.log2_spec (Zpos d) eq_refl) as [Hd1 Hd2].
  pose proof (Z.log2_nonneg (Zpos n)) as Ha.
  pose proof (Z.log2_nonneg (Zpos d)) as Hb.
  set (a := Z.log2 (Zpos n)) in *. set (b := Z.log2 (Zpos d)) in *.
  destruct (Z.ltb_spec (Zpos n * 2 ^ Z.max 0 (- (a - b)))
                       (Zpos d * 2 ^ Z.max 0 (a - b))) as [Hlt|Hge];
    intros He.
  - rewrite (Z.max_l 0 (a - b)) in Hlt by lia. rewrite Z.pow_0_r in Hlt.
    assert (0 < 2 ^ Z.max 0 (- (a - b))) by (apply Z.pow_pos_nonneg; lia).
    nia.
  - unfold Z.succ in Hn2.
    assert (2 ^ (a + 1) <= 2 ^ b) by (apply Z.pow_le_mono_r; lia).
    lia.
Qed.

(** The multiple that [nearest] takes is the quotient or the one above
    it, and the quotient when the division leaves nothing. *)
Lemma nearest_value (e : Z) (n d : positive) :
  let num := Zpos n * 2 ^ Z.max 0 (- e) in
  let den := Zpos d * 2 ^ Z.max 0 e in
  exists m,
    (Floats.nearest e n d == inject_Z m * 2 ^ e)%Q /\
    num / den <= m <= num / den + 1 /\
    (num mod den = 0 -> m = num / den).
Proof.
  intros num den. unfold Floats.nearest. fold num. fold den.
  assert (0 < den) as Hden.
  { unfold den. assert (0 < 2 ^ Z.max 0 e) by (apply Z.pow_pos_nonneg; lia).
    nia. }
  eexists. split; [apply Qred_correct|].
  destruct (den <? 2 * (num mod den)) eqn:H1; cbn [orb].
  - split; [lia|]. intros H0. rewrite H0 in H1.
    apply Z.ltb_lt in H1. lia.
  - destruct (den =? 2 * (num mod den)) eqn:H2; cbn [andb].
    + destruct (Z.odd (num / den)); [|split; [lia|reflexivity]].
      split; [lia|]. intros H0. rewrite H0 in H2.
      apply Z.eqb_eq in H2. lia.
    + split; [lia|reflexivity].
Qed.

Lemma nearest_nonneg (e : Z) (n d : positive) : (0 <= Floats.nearest e n d)%Q.
Proof.
  destruct (nearest_value e n d) as (m & -> & [Hm _] & _).
  assert (0 <= m).
  { etransitivity; [|exact Hm]. apply Z.div_pos.
    - assert (0 < 2 ^ Z.max 0 (- e)) by (apply Z.pow_pos_nonneg; lia). nia.
    - assert (0 < 2 ^ Z.max 0 e) by (apply Z.pow_pos_nonneg; lia). nia. }
  apply Qmult_le_0_compat.
  - change 0%Q with (inject_Z 0). rewrite <- Zle_Qle. assumption.
  - apply Qlt_le_weak, two_power_pos.
Qed.

(** Below an integer, with a step that is no more than 1, the nearest
    multiple is not above the integer. *)
Lemma nearest_below (e : Z) (n d : positive) (D : Z) :
  e <= 0 -> Zpos n <= D * Zpos d ->
  (Floats.nearest e n d <= inject_Z D)%Q.
Proof.
  intros He Hq.
  destruct (nearest_value e n d) as (m & -> & [_ Hm] & Hexact).
  rewrite (Z.max_r 0 (- e)), (Z.max_l 0 e) in * by lia.
  rewrite Z.pow_0_r, Z.mul_1_r in *.
  set (s := 2 ^ (- e)) in *.
  assert (0 < s) as Hs by (apply Z.pow_pos_nonneg; lia).
  assert (m <= D * s) as HmK.
  { assert (Zpos n * s <= (D * s) * Zpos d) as Hle by nia.
    assert (Zpos n * s / Zpos d <= D * s) as Hq0.
    { apply Z.div_le_upper_bound; lia. }
    destruct (Z.eq_dec (Zpos n * s / Zpos d) (D * s)) as [Heq|Hneq]; [|lia].
    rewrite Hexact; [lia|].
    pose proof (Z.mul_div_le (Zpos n * s) (Zpos d) eq_refl) as H1.
    rewrite Heq in H1.
    assert (Zpos n * s = Zpos d * (D * s)) as -> by lia.
    rewrite Z.mul_comm. apply Z.mod_mul. lia. }
  rewrite <- (scale_back e D He). fold s.
  apply Qmult_le_compat_r; [|apply Qlt_le_weak, two_power_pos].
  rewrite <- Zle_Qle. exact HmK.
Qed.

(** An integer is a multiple of every step that is no more than 1. *)
Lemma nearest_integer (e : Z) (n d : positive) (D : Z) :
  e <= 0 -> Zpos n = D * Zpos d ->
  (Floats.nearest e n d == inject_Z D)%Q.
Proof.
  intros He Hq.
  destruct (nearest_value e n d) as (m & -> & _ & Hexact).
  rewrite (Z.max_r 0 (- e)), (Z.max_l 0 e) in * by lia.
  rewrite Z.pow_0_r, Z.mul_1_r in *.
  set (s := 2 ^ (- e)) in *.
  assert (Zpos n * s = (D * s) * Zpos d) as Hn by nia.
  rewrite Hn, Z.mod_mul, Z.div_mul in Hexact by lia.
  rewrite (Hexact eq_refl). apply scale_back. exact He.
Qed.

(** From 1 on, the nearest multiple of a step below the number is at
    least 1. *)
Lemma nearest_above_one (e : Z) (n d : positive) :
  (0 <= e -> 2 ^ e * Zpos d <= Zpos n) -> Zpos d <= Zpos n ->
  (1 <= Floats.nearest e n d)%Q.
Proof.
  intros Hbig Hq.
  destruct (nearest_value e n d) as (m & -> & [Hm _] & _).
  destruct (Z.le_gt_cases e 0) as [He|He].
  - rewrite (Z.max_r 0 (- e)), (Z.max_l 0 e) in * by lia.
    rewrite Z.pow_0_r, Z.mul_1_r in *.
    set (s := 2 ^ (- e)) in *.
    assert (0 < s) as Hs by (apply Z.pow_pos_nonneg; lia).
    assert (1 * s <= m) as HmK.
    { etransitivity; [|exact Hm]. apply Z.div_le_lower_bound; nia. }
    rewrite <- (scale_back e 1 He). fold s.
    apply Qmult_le_compat_r; [|apply Qlt_le_weak, two_power_pos].
    rewrite <- Zle_Qle. exact HmK.
  - rewrite (Z.max_l 0 (- e)), (Z.max_r 0 e) in * by lia.
    rewrite Z.pow_0_r, Z.mul_1_r in *.
    assert (0 < 2 ^ e) as Hs by (apply Z.pow_pos_nonneg; lia).
    assert (1 <= m) as Hm1.
    { etransitivity; [|exact Hm]. apply Z.div_le_lower_bound; [nia|].
      specialize (Hbig ltac:(lia)). lia. }
    assert (1 <= 2 ^ e)%Q as H2.
    { rewrite <- (Zpower_Qpower 2 e) by lia.
      change 1%Q with (inject_Z 1). rewrite <- Zle_Qle. lia. }
    assert (1 <= inject_Z m)%Q as H3.
    { change 1%Q with (inject_Z 1). rewrite <- Zle_Qle. exact Hm1. }
    nra.
Qed.

Section Round.
Variables prec emin : Z.
Hypothesis prec_pos : 1 <= prec.
Hypothesis emin_neg : emin <= 0.

Lemma round_nonneg (q : Q) : (0 <= q)%Q -> (0 <= Floats.round prec emin q)%Q.
Proof.
  unfold Floats.round. destruct q as [[|n|n] d]; cbn [Qnum Qden]; intros H.
  - apply Qle_refl.
  - apply nearest_nonneg.
  - unfold Qle in H. cbn [Qnum Qden] in H. lia.
Qed.

Lemma round_nonpos (q : Q) : (q <= 0)%Q -> (Floats.round prec emin q <= 0)%Q.
Proof.
  unfold Floats.round. destruct q as [[|n|n] d]; cbn [Qnum Qden]; intros H.
  - apply Qle_refl.
  - unfold Qle in H. cbn [Qnum Qden] in H. lia.
  - pose proof (nearest_nonneg
      (Z.max (Floats.exponent n d - prec + 1) emin) n d). lra.
Qed.

(** The step is no more than 1 below [2^prec]. *)
Lemma step_small (n d : positive) (D : Z) :
  Zpos n <= D * Zpos d -> D < 2 ^ prec ->
  Z.max (Floats.exponent n d - prec + 1) emin <= 0.
Proof.
  intros Hq HD.
  destruct (Z.le_gt_cases prec (Floats.exponent n d)) as [Hbig|]; [|lia].
  pose proof (exponent_lower n d ltac:(lia)) as Hlow.
  assert (2 ^ prec <= 2 ^ Floats.exponent n d)
    by (apply Z.pow_le_mono_r; lia).
  nia.
Qed.

(** Rounding keeps a number between 0 and an integer below [2^prec]
    there; such an integer is a float. *)
Lemma round_below (q : Q) (D : Z) :
  D < 2 ^ prec -> (q <= inject_Z D)%Q ->
  (0 <= q)%Q -> (Floats.round prec emin q <= inject_Z D)%Q.
Proof.
  unfold Floats.round. destruct q as [[|n|n] d]; cbn [Qnum Qden].
  - intros _ H _. unfold Qle in *. cbn [Qnum Qden inject_Z] in *. lia.
  - intros HD Hq _. unfold Qle in Hq. cbn [Qnum Qden inject_Z] in Hq.
    apply nearest_below; [|lia].
    apply (step_small n d D); lia.
  - intros _ _ H. unfold Qle in H. cbn [Qnum Qden] in H. lia.
Qed.

Lemma round_integer (q : Q) (D : Z) :
  0 <= D < 2 ^ prec -> (q == inject_Z D)%Q ->
  (Floats.round prec emin q == inject_Z D)%Q.
Proof.
  unfold Floats.round. destruct q as [[|n|n] d]; cbn [Qnum Qden].
  - intros _ H. unfold Qeq in *. cbn [Qnum Qden inject_Z] in *. lia.
  - intros HD Hq. unfold Qeq in Hq. cbn [Qnum Qden inject_Z] in Hq.
    apply nearest_integer; [|lia].
    apply (step_small n d D); lia.
  - intros HD Hq. unfold Qeq in Hq. cbn [Qnum Qden inject_Z] in Hq. lia.
Qed.

Lemma round_above_one (q : Q) :
  (1 <= q)%Q -> (1 <= Floats.round prec emin q)%Q.
Proof.
  unfold Floats.round. destruct q as [[|n|n] d]; cbn [Qnum Qden];
    intros Hq; unfold Qle in Hq; cbn [Qnum Qden] in Hq; try lia.
  apply nearest_above_one; [|lia].
  intros He.
  assert (0 <= Floats.exponent n d) as Hex.
  { destruct (Z.le_gt_cases 0 (Floats.exponent n d)) as [|Hneg];
      [assumption|].
    pose proof (exponent_negative n d Hneg). lia. }
  pose proof (exponent_lower n d Hex) as Hlow.
  assert (2 ^ Z.max (Floats.exponent n d - prec + 1) emin
          <= 2 ^ Floats.exponent n d)
    by (apply Z.pow_le_mono_r; lia).
  nia.
Qed.

End Round.


(* ===================================================================== *)
(** ** Progress values and seek positions stay in range *)
(* ===================================================================== *)

Ltac inject_Z_order :=
  unfold Qle, Qlt; cbn [Qnum Qden inject_Z]; lia.

(** [int(q)] of a number between 0 and an integer [d]. *)
Lemma int_of_float_bounds (q : Q) (d : Z) :
  (0 <= q)%Q -> (q <= inject_Z d)%Q -> 0 <= int_of_float q <= d.
Proof.
  unfold Qle, int_of_float. destruct q as [n p]. cbn [Qnum Qden inject_Z].
  intros H0 Hd. rewrite Z.quot_div_nonneg by lia. split.
  - apply Z.div_pos; lia.
  - apply Z.div_le_upper_bound; lia.
Qed.

Lemma int_of_float_integer (d : Z) (q : Q) :
  0 <= d -> (q == inject_Z d)%Q -> int_of_float q = d.
Proof.
  unfold Qeq, int_of_float. destruct q as [n p]. cbn [Qnum Qden inject_Z].
  intros H0 Hd. rewrite Z.quot_div_nonneg by nia.
  rewrite Z.mul_1_r in Hd. rewrite Hd. apply Z.div_mul. lia.
Qed.

(** [max(0, min(1, r))] is a number between 0 and 1. *)
Lemma clamp_unit (r : Q) :
  (0 <= max0 (min_py 1 r) <= 1)%Q /\
  ((r <= 0)%Q -> (max0 (min_py 1 r) == 0)%Q) /\
  ((1 <= r)%Q -> (max0 (min_py 1 r) == 1)%Q).
Proof.
  unfold max0, min_py.
  destruct (Qgtb 1 r) eqn:H1;
    [apply Qgtb_true in H1|apply Qgtb_false in H1].
  - destruct (Qgtb r 0) eqn:H0;
      [apply Qgtb_true in H0|apply Qgtb_false in H0];
      repeat split; intros; lra.
  - destruct (Qgtb 1 0) eqn:H0;
      [apply Qgtb_true in H0|apply Qgtb_false in H0];
      repeat split; intros; lra.
Qed.

(** X11: a click on the progress bar while a track is loaded, whose
    duration is below [2^53] milliseconds, seeks to a position within the
    track, wherever the click is (left of the bar it is the beginning,
    right of it the end), the position being computed in floats as the
    code computes it; a bar of width 0 makes the division fail. *)
Theorem progress_bar_click_seeks_within_track (x_pos : Z) (w : MainWindow)
    (url : string) :
  current_track_url (audio_player w) = Some url ->
  0 <= duration (audio_player w) < 2 ^ 53 ->
  Ui.progress_bar_clicked x_pos 0 w = Ui.ZeroDivisionError /\
  (forall width, 0 < width ->
   exists target,
     Ui.progress_bar_clicked x_pos width w = Ui.Quotient (seek target w) /\
     0 <= target <= duration (audio_player w) /\
     position (audio_player (seek target w)) = target /\
     (x_pos <= 0 -> target = 0) /\
     (width <= x_pos -> target = duration (audio_player w))).
Proof.
  intros Hurl Hdur. unfold Ui.progress_bar_clicked. rewrite Hurl. split.
  - reflexivity.
  - intros width Hw. destruct (Z.eqb_spec width 0) as [->|_]; [lia|].
    set (r := Floats.truediv (inject_Z x_pos) (inject_Z width)).
    destruct (clamp_unit r) as ((Hlo & Hhi) & Hleft & Hright).
    set (pct := max0 (min_py 1 r)) in *.
    set (d := duration (audio_player w)) in *.
    assert (0 <= inject_Z d)%Q as Hd by inject_Z_order.
    assert (0 < inject_Z width)%Q as Hwq by inject_Z_order.
    assert (0 <= int_of_float (Floats.mul pct (inject_Z d)) <= d) as Hb.
    { apply int_of_float_bounds.
      - apply round_nonneg. nra.
      - apply round_below; [lia | lia | lia | nra | nra]. }
    eexists. split; [reflexivity|]. split; [exact Hb|]. split; [|split].
    + unfold seek. cbn [audio_player with_audio_player position ap_log
                          ap_position duration]. fold d. lia.
    + intros Hx. apply int_of_float_integer; [lia|].
      assert (r <= 0)%Q as Hr.
      { apply round_nonpos. apply Qle_shift_div_r; [exact Hwq|].
        rewrite Qmult_0_l. inject_Z_order. }
      apply round_integer; [lia | lia | lia |].
      rewrite (Hleft Hr). change (inject_Z 0) with 0%Q. ring.
    + intros Hx. apply int_of_float_integer; [lia|].
      assert (1 <= r)%Q as Hr.
      { apply round_above_one; [lia | lia |].
        apply Qle_shift_div_l; [exact Hwq|].
        rewrite Qmult_1_l. inject_Z_order. }
      apply round_integer; [lia | lia | lia |].
      rewrite (Hright Hr). ring.
Qed.

Lemma progress_bar_click_seeks_within_track_witness :
  let w := with_audio_player (ap_duration 6000) playing in
  Ui.progress_bar_clicked 29 100 w = Ui.Quotient (seek 1739 w) /\
  forall width, 0 < width ->
  exists target,
    Ui.progress_bar_clicked 29 width w = Ui.Quotient (seek target w) /\
    0 <= target <= 6000.
Proof.
  intros w. split; [vm_compute; reflexivity|].
  intros width Hw.
  destruct (progress_bar_click_seeks_within_track 29 w "/music/a.mp3")
    as [_ H]; [vm_compute; reflexivity | vm_compute; split; congruence |].
  destruct (H width Hw) as (target & H1 & H2 & _).
  exists target. split; [exact H1 | exact H2].
Defined.



(* ===================================================================== *)
(** ** Every reachable window is well-formed *)
(* ===================================================================== *)

Import Invariants.

Lemma well_formed_of_view w w' :
  formed_view w' = formed_view w -> well_formed w -> well_formed w'.
Proof.
  unfold formed_view, well_formed, list_ok, ranges_ok, loaded_ok.
  intros [= -> -> -> -> -> -> -> -> ->]. tauto.
Qed.

Lemma well_formed_init : well_formed init.
Proof.
  unfold well_formed, list_ok, ranges_ok, loaded_ok. cbn.
  repeat split; try lia; try discriminate; try (left; reflexivity);
    try congruence.
Qed.

Lemma percent_speed (v : Z) :
  50 <= v <= 150 -> (1 # 2 <= percent v <= 3 # 2)%Q.
Proof.
  intros H. unfold percent, Qdiv, Qle, Qmult, Qinv.
  cbn [Qnum Qden inject_Z]. lia.
Qed.

Lemma percent_volume (v : Z) : 0 <= v <= 100 -> (0 <= percent v <= 1)%Q.
Proof.
  intros H. unfold percent, Qdiv, Qle, Qmult, Qinv.
  cbn [Qnum Qden inject_Z]. lia.
Qed.

Lemma setValue_range (v : Z) (s : QSlider) :
  minimum s <= maximum s ->
  minimum (setValue v s).1 = minimum s /\
  maximum (setValue v s).1 = maximum s /\
  (minimum s <= value s <= maximum s ->
   minimum s <= value (setValue v s).1 <= maximum s).
Proof.
  intros H. unfold setValue.
  destruct (Z.eqb_spec (Z.max (minimum s) (Z.min (maximum s) v)) (value s));
    cbn [fst minimum maximum value]; repeat split; lia.
Qed.

Lemma wf_set_volume q w :
  (0 <= q <= 1)%Q -> well_formed w -> well_formed (set_volume q w).
Proof.
  unfold well_formed, list_ok, ranges_ok, loaded_ok. cbn. tauto.
Qed.

Lemma wf_set_playback_rate q w :
  (1 # 2 <= q <= 3 # 2)%Q -> well_formed w ->
  well_formed (set_playback_rate q w).
Proof.
  unfold well_formed, list_ok, ranges_ok, loaded_ok. cbn. tauto.
Qed.

Lemma formed_seek x w : formed_view (seek x w) = formed_view w.
Proof. reflexivity. Qed.

Lemma formed_update_skip_buttons w :
  formed_view (update_skip_buttons w) = formed_view w.
Proof. reflexivity. Qed.

Lemma formed_reset_ui w : formed_view (reset_ui w) = formed_view w.
Proof. reflexivity. Qed.

Lemma wf_fade_out w : well_formed w -> well_formed (fade_out w).
Proof.
  unfold fade_out. destruct (is_stopped w); [tauto|].
  unfold well_formed, list_ok, ranges_ok, loaded_ok. cbn. tauto.
Qed.

Lemma wf_reset_playback w : well_formed w -> well_formed (reset_playback w).
Proof.
  intros H. unfold reset_playback.
  eapply well_formed_of_view; [reflexivity|].
  destruct (negb (is_stopped w)); [|exact H].
  apply wf_fade_out. eapply well_formed_of_view; [reflexivity|exact H].
Qed.

Lemma wf_update_speed w : well_formed w -> well_formed (update_speed w).
Proof.
  intros H. unfold update_speed. destruct (is_playing w); [|exact H].
  apply wf_set_playback_rate; [|exact H].
  apply percent_speed. apply H.
Qed.

Lemma wf_update_volume w : well_formed w -> well_formed (update_volume w).
Proof.
  intros H. unfold update_volume.
  destruct (negb (isChecked (btn_mute w))); [|exact H].
  apply wf_set_volume; [|exact H]. apply percent_volume. apply H.
Qed.

Lemma wf_toggle_mute b w : well_formed w -> well_formed (toggle_mute b w).
Proof.
  intros H. unfold toggle_mute. destruct b.
  - apply wf_set_volume; [lra|exact H].
  - apply wf_set_volume; [|exact H]. apply percent_volume. apply H.
Qed.

Lemma wf_btn_mute_setChecked b w :
  well_formed w -> well_formed (btn_mute_setChecked b w).
Proof.
  intros H. unfold btn_mute_setChecked.
  destruct (setChecked b (btn_mute w)) as [c [checked|]].
  - apply wf_toggle_mute. eapply well_formed_of_view; [reflexivity|exact H].
  - eapply well_formed_of_view; [reflexivity|exact H].
Qed.

Lemma formed_btn_repeat_setChecked b w :
  formed_view (btn_repeat_setChecked b w) = formed_view w.
Proof.
  unfold btn_repeat_setChecked, on_repeat_toggled.
  destruct (setChecked b (btn_repeat w)) as [c [checked|]]; [|reflexivity].
  case_match; reflexivity.
Qed.

Lemma formed_btn_play_all_setChecked b w :
  formed_view (btn_play_all_setChecked b w) = formed_view w.
Proof.
  unfold btn_play_all_setChecked, on_play_all_toggled.
  destruct (setChecked b (btn_play_all w)) as [c [checked|]]; [|reflexivity].
  case_match; reflexivity.
Qed.

Lemma wf_volume_slider_setValue v w :
  well_formed w -> well_formed (volume_slider_setValue v w).
Proof.
  intros H. unfold volume_slider_setValue.
  pose proof (setValue_range v (volume_slider w)) as Hr.
  destruct (setValue v (volume_slider w)) as [s changed]. cbn [fst] in Hr.
  assert (well_formed (with_volume_slider s w)) as Hs.
  { destruct H as (Hl & Hg & Hu). split; [exact Hl|]. split; [|exact Hu].
    unfold ranges_ok in *. cbn [volume_slider with_volume_slider speed_slider
                                  audio_player].
    destruct Hg as (H1 & H2 & H3 & Hrest).
    destruct Hr as (Hmin & Hmax & Hv); [lia|].
    rewrite Hmin, Hmax, H1, H2 in *.
    split; [reflexivity|]. split; [reflexivity|].
    split; [apply Hv; exact H3|exact Hrest]. }
  destruct changed; [apply wf_update_volume|]; exact Hs.
Qed.

Lemma wf_speed_slider_setValue v w :
  well_formed w -> well_formed (speed_slider_setValue v w).
Proof.
  intros H. unfold speed_slider_setValue.
  pose proof (setValue_range v (speed_slider w)) as Hr.
  destruct (setValue v (speed_slider w)) as [s changed]. cbn [fst] in Hr.
  assert (well_formed (with_speed_slider s w)) as Hs.
  { destruct H as (Hl & Hg & Hu). split; [exact Hl|]. split; [|exact Hu].
    unfold ranges_ok in *. cbn [volume_slider with_speed_slider speed_slider
                                  audio_player].
    destruct Hg as (H1 & H2 & H3 & H4 & H5 & H6 & Hrest).
    destruct Hr as (Hmin & Hmax & Hv); [lia|].
    rewrite Hmin, Hmax, H4, H5 in *.
    repeat (split; [assumption || reflexivity|]).
    split; [apply Hv; exact H6|exact Hrest]. }
  destruct changed; [apply wf_update_speed|]; exact Hs.
Qed.

Lemma well_formed_of_player w w' :
  player_view w' = player_view w -> list_ok w' ->
  well_formed w -> well_formed w'.
Proof.
  unfold player_view, well_formed, ranges_ok, loaded_ok.
  intros [= -> -> ->] Hl (_ & Hr & Hu). tauto.
Qed.

Lemma list_ok_setCurrentRow r w :
  list_ok w -> list_ok (playlist_setCurrentRow r w).
Proof.
  unfold list_ok, playlist_setCurrentRow, setCurrentRow,
    handle_track_selection_changed, update_skip_buttons, count.
  destruct w as [ap tm us ig br bm bp vs ss [its row blk] ic brs bpv bn wn].
  cbn [playlist items currentRow listSignalsBlocked track_manager].
  intros (Hi & Hf & -> & Hrow).
  destruct ((0 <=? r) && (r <? Z.of_nat (length its)))%bool eqn:Hin.
  - apply andb_true_iff in Hin as [H0 H1].
    apply Z.leb_le in H0. apply Z.ltb_lt in H1.
    destruct (Z.eqb_spec r row); cbn; repeat split; auto.
  - destruct (Z.eqb_spec (-1) row); cbn; repeat split; auto.
Qed.

Lemma player_view_setCurrentRow r w :
  player_view (playlist_setCurrentRow r w) = player_view w.
Proof.
  unfold playlist_setCurrentRow, setCurrentRow.
  repeat case_match; reflexivity.
Qed.

Lemma wf_playlist_setCurrentRow r w :
  well_formed w -> well_formed (playlist_setCurrentRow r w).
Proof.
  intros H. eapply well_formed_of_player;
    [apply player_view_setCurrentRow
    |apply list_ok_setCurrentRow; apply H
    |exact H].
Qed.

(** The selection made with the signals of the list blocked, as the skip
    slots and the end-of-media handler make it. *)
Lemma wf_select_blocked r ig w :
  well_formed w ->
  well_formed
    (playlist_blockSignals false
       (playlist_setCurrentRow r
          (with_ignore_auto_advance ig (playlist_blockSignals true w)))).
Proof.
  intros H. eapply well_formed_of_player; [| |exact H].
  - unfold playlist_setCurrentRow, setCurrentRow.
    repeat case_match; reflexivity.
  - destruct H as (Hl & _). revert Hl.
    unfold list_ok, playlist_setCurrentRow, setCurrentRow,
      handle_track_selection_changed, update_skip_buttons, count,
      playlist_blockSignals, listBlockSignals.
    destruct w as [ap tm us ig0 br bm bp vs ss [its row blk] ic brs bpv bn wn].
    cbn [playlist items currentRow listSignalsBlocked track_manager
         with_playlist with_ignore_auto_advance].
    intros (Hi & Hf & -> & Hrow).
    destruct ((0 <=? r) && (r <? Z.of_nat (length its)))%bool eqn:Hin.
    + apply andb_true_iff in Hin as [H0 H1].
      apply Z.leb_le in H0. apply Z.ltb_lt in H1.
      destruct (Z.eqb_spec r row); cbn; repeat split; auto.
    + destruct (Z.eqb_spec (-1) row); cbn; repeat split; auto.
Qed.

Lemma wf_select_blocked_plain r w :
  well_formed w ->
  well_formed
    (playlist_blockSignals false
       (playlist_setCurrentRow r (playlist_blockSignals true w))).
Proof.
  intros H. eapply well_formed_of_player; [| |exact H].
  - unfold playlist_setCurrentRow, setCurrentRow.
    repeat case_match; reflexivity.
  - destruct H as (Hl & _). revert Hl.
    unfold list_ok, playlist_setCurrentRow, setCurrentRow,
      handle_track_selection_changed, update_skip_buttons, count,
      playlist_blockSignals, listBlockSignals.
    destruct w as [ap tm us ig0 br bm bp vs ss [its row blk] ic brs bpv bn wn].
    cbn [playlist items currentRow listSignalsBlocked track_manager
         with_playlist].
    intros (Hi & Hf & -> & Hrow).
    destruct ((0 <=? r) && (r <? Z.of_nat (length its)))%bool eqn:Hin.
    + apply andb_true_iff in Hin as [H0 H1].
      apply Z.leb_le in H0. apply Z.ltb_lt in H1.
      destruct (Z.eqb_spec r row); cbn; repeat split; auto.
    + destruct (Z.eqb_spec (-1) row); cbn; repeat split; auto.
Qed.

Lemma add_items_result tracks w :
  let w' := fold_left playlist_addItem tracks w in
  items (playlist w') = (items (playlist w) ++ tracks)%list /\
  currentRow (playlist w') = currentRow (playlist w) /\
  listSignalsBlocked (playlist w') = listSignalsBlocked (playlist w) /\
  track_manager w' = track_manager w /\
  player_view w' = player_view w.
Proof.
  revert w. induction tracks as [|t tracks IH]; intros w.
  - cbn. rewrite app_nil_r. repeat split.
  - cbn [fold_left]. destruct (IH (playlist_addItem w t))
      as (H1 & H2 & H3 & H4 & H5).
    cbv zeta. rewrite H1, H2, H3, H4, H5. cbn.
    rewrite <- app_assoc. repeat split.
Qed.

Lemma playlist_clear_result w :
  let w' := playlist_clear w in
  items (playlist w') = [] /\
  currentRow (playlist w') = -1 /\
  listSignalsBlocked (playlist w') = listSignalsBlocked (playlist w) /\
  track_manager w' = track_manager w /\
  player_view w' = player_view w.
Proof.
  unfold playlist_clear. repeat case_match; cbn; repeat split.
Qed.

(** [populate_playlist] makes the playlist show the catalog again. *)
Lemma wf_populate_playlist fs press_cancel w :
  player_view w = player_view w ->
  listSignalsBlocked (playlist w) = false ->
  (Py.truthy (TrackManager.current_folder (track_manager w)) = false ->
   TrackManager.track_list (track_manager w) = []) ->
  ranges_ok w -> loaded_ok w ->
  well_formed (populate_playlist fs press_cancel w).
Proof.
  intros _ Hblk Hnone Hr Hu. unfold populate_playlist.
  destruct (playlist_clear_result w) as (C1 & C2 & C3 & C4 & C5).
  cbv zeta in *.
  pose proof (scan_folder_result fs (Some (update_progress press_cancel))
                {| dialog_value := 0; wasCanceled := false |}
                (track_manager (playlist_clear w))) as Hscan.
  destruct (TrackManager.scan_folder fs _ _ (track_manager (playlist_clear w)))
    as [[tracks tm] d].
  cbn [fst] in Hscan. rewrite C4 in Hscan.
  set (w1 := with_track_manager tm (playlist_clear w)).
  destruct (add_items_result tracks w1) as (A1 & A2 & A3 & A4 & A5).
  cbv zeta in *.
  set (w2 := fold_left playlist_addItem tracks w1) in *.
  assert (items (playlist w2) = tracks) as Hitems.
  { rewrite A1. unfold w1. cbn [playlist with_track_manager]. rewrite C1.
    reflexivity. }
  assert (list_ok w2) as Hl2.
  { unfold list_ok. rewrite Hitems, A2, A3, A4.
    unfold w1. cbn [playlist with_track_manager track_manager].
    rewrite C2, C3.
    destruct (Py.truthy (TrackManager.current_folder (track_manager w)))
      eqn:Ht.
    - cbv zeta in Hscan. injection Hscan as -> ->.
      cbn [TrackManager.track_list TrackManager.set_track_list
           TrackManager.current_folder].
      rewrite Ht. repeat split; auto. discriminate.
    - injection Hscan as -> ->. rewrite (Hnone eq_refl).
      repeat split; auto. }
  assert (well_formed w2) as Hw2.
  { split; [exact Hl2|]. 
    assert (player_view w2 = player_view w) as Hv.
    { rewrite A5. unfold w1. rewrite <- C5. reflexivity. }
    revert Hr Hu. unfold ranges_ok, loaded_ok, player_view in *.
    injection Hv as -> -> ->. tauto. }
  eapply well_formed_of_view; [apply formed_update_skip_buttons|].
  destruct (0 <? count (playlist w2)); [|exact Hw2].
  apply wf_playlist_setCurrentRow. exact Hw2.
Qed.

Lemma wf_open_folder fs path press_cancel w :
  well_formed w -> well_formed (open_folder fs path press_cancel w).
Proof.
  intros (Hl & Hr & Hu). unfold open_folder.
  rewrite set_folder_result.
  destruct (TrackManager.fs_exists fs (TrackManager.Path path)
            && TrackManager.fs_is_dir fs (TrackManager.Path path))%bool.
  - cbv zeta. apply wf_populate_playlist; try assumption; try reflexivity.
    + apply Hl.
    + cbn [track_manager with_track_manager TrackManager.current_folder
           TrackManager.set_track_list TrackManager.set_current_folder
           Py.truthy].
      pose proof (Path_nonempty path) as Hne.
      apply String.eqb_neq in Hne. rewrite Hne. discriminate.
  - apply wf_populate_playlist; try assumption; try reflexivity; apply Hl.
Qed.

Section Preserved.
Variable fs : TrackManager.FileSystem.
Variable media_duration : string -> Z.
Variable emit : PlaybackState -> MainWindow -> option MainWindow.
Hypothesis emit_preserves : forall s, preserves (emit s).

Lemma wf_setPlaybackState s w w' :
  well_formed w ->
  (s <> StoppedState -> is_Some (current_track_url (audio_player w))) ->
  setPlaybackState emit s w = Some w' -> well_formed w'.
Proof.
  intros H Hs Hrun. unfold setPlaybackState in Hrun.
  destruct (PlaybackState_eqb (playbackState (audio_player w)) s).
  - injection Hrun as <-. exact H.
  - apply (emit_preserves s _ _) in Hrun; [exact Hrun|].
    destruct H as (Hl & Hr & _). split; [exact Hl|]. split; [exact Hr|].
    intros Hne. apply Hs. exact Hne.
Qed.

Lemma wf_media_player_play : preserves (media_player_play emit).
Proof.
  intros w w' H Hrun. unfold media_player_play in Hrun.
  assert (well_formed (with_audio_player (ap_log play_cmd) w)) as H1
      by (eapply well_formed_of_view; [reflexivity|exact H]).
  cbn [audio_player with_audio_player current_track_url ap_log] in Hrun.
  destruct (current_track_url (audio_player w)) as [url|] eqn:Hurl.
  - eapply wf_setPlaybackState; [exact H1| |exact Hrun].
    intros _. cbn. rewrite Hurl. eexists. reflexivity.
  - injection Hrun as <-. exact H1.
Qed.

Lemma wf_media_player_pause : preserves (media_player_pause emit).
Proof.
  intros w w' H Hrun. unfold media_player_pause in Hrun.
  assert (well_formed (with_audio_player (ap_log pause_cmd) w)) as H1
      by (eapply well_formed_of_view; [reflexivity|exact H]).
  cbn [audio_player with_audio_player current_track_url ap_log] in Hrun.
  destruct (current_track_url (audio_player w)) as [url|] eqn:Hurl.
  - eapply wf_setPlaybackState; [exact H1| |exact Hrun].
    intros _. cbn. rewrite Hurl. eexists. reflexivity.
  - injection Hrun as <-. exact H1.
Qed.

Lemma wf_media_player_stop : preserves (media_player_stop emit).
Proof.
  intros w w' H Hrun. unfold media_player_stop in Hrun.
  eapply wf_setPlaybackState; [| |exact Hrun].
  - eapply well_formed_of_view; [reflexivity|exact H].
  - congruence.
Qed.

Lemma wf_media_player_setSource url :
  preserves (media_player_setSource media_duration emit url).
Proof.
  intros w w' H Hrun. unfold media_player_setSource in Hrun.
  eapply wf_setPlaybackState; [| |exact Hrun].
  - eapply well_formed_of_view; [reflexivity|exact H].
  - congruence.
Qed.

Lemma wf_play : preserves (play emit).
Proof.
  intros w w' H Hrun. unfold play in Hrun.
  apply bind_Some in Hrun as (w1 & Hrun & [= <-]).
  apply (well_formed_of_view w1); [reflexivity|].
  eapply wf_media_player_play; eassumption.
Qed.

Lemma wf_pause : preserves (pause emit).
Proof.
  intros w w' H Hrun. unfold pause in Hrun.
  apply bind_Some in Hrun as (w1 & Hrun & [= <-]).
  apply (well_formed_of_view w1); [reflexivity|].
  eapply wf_media_player_pause; eassumption.
Qed.

Lemma wf_stop : preserves (stop emit).
Proof.
  intros w w' H Hrun. unfold stop in Hrun.
  apply bind_Some in Hrun as (w1 & Hrun & [= <-]).
  apply (well_formed_of_view w1); [reflexivity|].
  eapply wf_media_player_stop; eassumption.
Qed.

Lemma wf_load_track path : preserves (load_track fs media_duration emit path).
Proof.
  intros w w' H Hrun. unfold load_track in Hrun.
  destruct (negb (TrackManager.fs_exists fs path)).
  - injection Hrun as <-. exact H.
  - eapply wf_media_player_setSource; [|exact Hrun].
    destruct H as (Hl & Hr & _). split; [exact Hl|]. split; [exact Hr|].
    intros _. cbn. eexists. reflexivity.
Qed.

Lemma wf_fade_step : preserves (_fade_step emit).
Proof.
  intros w w' H Hrun. unfold _fade_step in Hrun.
  destruct (Qgtb (volume (audio_player w))
              (original_volume (audio_player w) / inject_Z fade_steps))
    eqn:Hgt.
  - injection Hrun as <-.
    destruct H as (Hl & Hr & Hu). split; [exact Hl|]. split; [|exact Hu].
    unfold ranges_ok in *.
    cbn [volume_slider speed_slider audio_player with_audio_player
         playbackRate volume original_volume ap_log ap_volume].
    destruct Hr as (R1 & R2 & R3 & R4 & R5 & R6 & R7 & R8 & R9).
    repeat (split; [assumption|]). split; [|exact R9].
    apply Qgtb_true in Hgt. unfold max0.
    change (inject_Z fade_steps) with 10%Q in *.
    set (v := volume (audio_player w)) in *.
    set (o := original_volume (audio_player w)) in *.
    assert (o / 10 == o * (1 # 10))%Q as Ho by (unfold Qdiv; reflexivity).
    destruct (Qgtb (v - o / 10) 0) eqn:Hpos;
      [apply Qgtb_true in Hpos|apply Qgtb_false in Hpos];
      rewrite ?Ho in *; lra.
  - apply bind_Some in Hrun as (w1 & Hrun & [= <-]).
    assert (well_formed w1) as H1.
    { eapply wf_media_player_stop; [|exact Hrun].
      apply wf_set_volume; [lra|].
      eapply well_formed_of_view; [reflexivity|exact H]. }
    apply wf_set_volume; [|exact H1]. apply H1.
Qed.

Lemma wf_fade_timer_timeout : preserves (fade_timer_timeout emit).
Proof.
  intros w w' H Hrun. unfold fade_timer_timeout in Hrun.
  destruct (fade_timer_active (audio_player w)).
  - eapply wf_fade_step; eassumption.
  - injection Hrun as <-. exact H.
Qed.

Lemma wf_play_selected_track :
  preserves (play_selected_track fs media_duration emit).
Proof.
  intros w w' H Hrun. unfold play_selected_track in Hrun.
  destruct (currentItem (playlist w)) as [rel_path|];
    [|injection Hrun as <-; exact H].
  destruct (TrackManager.get_absolute_path (track_manager w) rel_path)
    as [file_path|]; [|injection Hrun as <-; exact H].
  destruct (negb (TrackManager.fs_exists fs file_path)).
  { injection Hrun as <-.
    eapply well_formed_of_view; [reflexivity|exact H]. }
  apply bind_Some in Hrun as (w1 & Hstop & Hrun).
  apply bind_Some in Hrun as (w2 & Hload & Hrun).
  apply bind_Some in Hrun as (w3 & Hplay & [= <-]).
  assert (well_formed w1) as H1.
  { destruct (is_playing w).
    - eapply wf_stop; eassumption.
    - injection Hstop as <-. exact H. }
  assert (well_formed w2) as H2.
  { eapply wf_load_track; [|exact Hload].
    eapply well_formed_of_view; [reflexivity|exact H1]. }
  apply (well_formed_of_view w3); [reflexivity|].
  eapply wf_play; [|exact Hplay].
  apply wf_set_playback_rate; [|exact H2].
  apply percent_speed. apply H2.
Qed.

Lemma wf_toggle_play_pause :
  preserves (toggle_play_pause fs media_duration emit).
Proof.
  intros w w' H Hrun. unfold toggle_play_pause in Hrun.
  destruct (is_playing w).
  - apply bind_Some in Hrun as (w1 & Hrun & [= <-]).
    apply (well_formed_of_view w1); [reflexivity|].
    eapply wf_pause; eassumption.
  - destruct (current_track_url (audio_player w)).
    + apply bind_Some in Hrun as (w1 & Hrun & [= <-]).
      apply (well_formed_of_view w1); [reflexivity|].
      eapply wf_play; eassumption.
    + eapply wf_play_selected_track; eassumption.
Qed.

Lemma wf_skip_to_next : preserves (skip_to_next fs media_duration emit).
Proof.
  intros w w' H Hrun. unfold skip_to_next in Hrun.
  destruct (currentRow (playlist w) <? count (playlist w) - 1);
    [|injection Hrun as <-; exact H].
  apply bind_Some in Hrun as (w1 & Hrun & [= <-]).
  apply (well_formed_of_view w1); [apply formed_update_skip_buttons|].
  pose proof (wf_select_blocked (currentRow (playlist w) + 1) true w H) as H1.
  destruct (negb (is_stopped _)).
  - eapply wf_play_selected_track; eassumption.
  - injection Hrun as <-. exact H1.
Qed.

Lemma wf_skip_to_previous :
  preserves (skip_to_previous fs media_duration emit).
Proof.
  intros w w' H Hrun. unfold skip_to_previous in Hrun.
  destruct (0 <? currentRow (playlist w));
    [|injection Hrun as <-; exact H].
  apply bind_Some in Hrun as (w1 & Hrun & [= <-]).
  apply (well_formed_of_view w1); [apply formed_update_skip_buttons|].
  pose proof (wf_select_blocked (currentRow (playlist w) - 1) true w H) as H1.
  destruct (negb (is_stopped _)).
  - eapply wf_play_selected_track; eassumption.
  - injection Hrun as <-. exact H1.
Qed.

Lemma wf_handle_playback_state_changed s :
  preserves (handle_playback_state_changed fs media_duration emit s).
Proof.
  intros w w' H Hrun. unfold handle_playback_state_changed in Hrun.
  destruct (PlaybackState_eqb s StoppedState);
    [|injection Hrun as <-; exact H].
  destruct (ignore_auto_advance w).
  { injection Hrun as <-.
    eapply well_formed_of_view; [reflexivity|exact H]. }
  destruct (isChecked (btn_repeat w)
            && bool_decide (is_Some (current_track_url (audio_player w)))
            && (position (audio_player w) =? duration (audio_player w)))%bool.
  { eapply wf_play; [|exact Hrun].
    eapply well_formed_of_view; [apply formed_seek|exact H]. }
  destruct (isChecked (btn_play_all w)
            && (currentRow (playlist w) <? count (playlist w) - 1))%bool.
  - eapply wf_play_selected_track; [|exact Hrun].
    apply wf_playlist_setCurrentRow. exact H.
  - injection Hrun as <-.
    eapply well_formed_of_view; [apply formed_reset_ui|exact H].
Qed.

Lemma wf_handle_media_status_changed status :
  preserves (handle_media_status_changed fs media_duration emit status).
Proof.
  intros w w' H Hrun. unfold handle_media_status_changed in Hrun.
  destruct (MediaStatus_is_end status);
    [|injection Hrun as <-; exact H].
  destruct (isChecked (btn_repeat w)
            && bool_decide (is_Some (current_track_url (audio_player w))))%bool.
  { eapply wf_play; [|exact Hrun].
    eapply well_formed_of_view; [apply formed_seek|exact H]. }
  destruct (isChecked (btn_play_all w)
            && (currentRow (playlist w) <? count (playlist w) - 1))%bool.
  - eapply wf_play_selected_track; [|exact Hrun].
    apply wf_select_blocked_plain. exact H.
  - injection Hrun as <-.
    eapply well_formed_of_view; [apply formed_reset_ui|exact H].
Qed.

End Preserved.

Lemma wf_playbackStateChanged fs media_duration depth s :
  preserves (playbackStateChanged fs media_duration depth s).
Proof.
  revert s. induction depth as [|n IH]; intros s w w' H Hrun;
    cbn [playbackStateChanged] in Hrun.
  - discriminate.
  - eapply wf_handle_playback_state_changed; [exact IH|exact H|exact Hrun].
Qed.

Lemma wf_dispatch fs media_duration depth e :
  preserves (dispatch fs media_duration depth e).
Proof.
  intros w w' H Hrun.
  pose proof (wf_playbackStateChanged fs media_duration depth) as Hemit.
  destruct e; cbn [dispatch] in Hrun;
    try (injection Hrun as <-).
  - eapply wf_toggle_play_pause; eassumption.
  - eapply wf_play_selected_track; eassumption.
  - apply wf_reset_playback. exact H.
  - eapply wf_skip_to_previous; eassumption.
  - eapply wf_skip_to_next; eassumption.
  - apply wf_volume_slider_setValue. exact H.
  - apply wf_speed_slider_setValue. exact H.
  - apply wf_btn_mute_setChecked. exact H.
  - eapply well_formed_of_view; [apply formed_btn_repeat_setChecked|exact H].
  - eapply well_formed_of_view; [apply formed_btn_play_all_setChecked|exact H].
  - apply wf_playlist_setCurrentRow. exact H.
  - apply wf_open_folder. exact H.
  - eapply wf_fade_timer_timeout; eassumption.
  - unfold finish_track in Hrun. destruct (is_playing w).
    + eapply wf_setPlaybackState; [exact Hemit| | |exact Hrun].
      * eapply well_formed_of_view; [reflexivity|exact H].
      * congruence.
    + injection Hrun as <-. exact H.
  - eapply wf_handle_media_status_changed; eassumption.
Qed.

Lemma wf_load_settings fs rel c press_cancel w w' :
  load_settings fs rel c press_cancel w = Py.Ok w' ->
  well_formed w -> well_formed w'.
Proof.
  unfold load_settings. intros Hrun H.
  destruct (ConfigManager.get_int c "volume" 50) as [volume|]; [|discriminate].
  destruct (ConfigManager.get_int c "speed" 100) as [speed|]; [|discriminate].
  destruct (ConfigManager.get_bool c "repeat" false) as [rp|]; [|discriminate].
  destruct (ConfigManager.get_bool c "mute" false) as [mu|]; [|discriminate].
  destruct (ConfigManager.get_bool c "play_all" false) as [pa|]; [|discriminate].
  destruct (ConfigManager.get c "last_folder" "") as [lf|]; [|discriminate].
  destruct (ConfigManager.get c "last_track" "") as [lt|]; [|discriminate].
  cbn [mbind Py.result_bind mret Py.result_ret] in Hrun. injection Hrun as <-.
  set (w1 := btn_play_all_setChecked pa _).
  assert (well_formed w1) as H1.
  { eapply well_formed_of_view; [apply formed_btn_play_all_setChecked|].
    apply wf_btn_mute_setChecked.
    eapply well_formed_of_view; [apply formed_btn_repeat_setChecked|].
    apply wf_speed_slider_setValue. apply wf_volume_slider_setValue. exact H. }
  eapply well_formed_of_view; [apply formed_update_skip_buttons|].
  apply wf_update_speed. apply wf_update_volume.
  repeat case_match;
    repeat first [apply wf_playlist_setCurrentRow | apply wf_open_folder];
    exact H1.
Qed.

Lemma reachable_well_formed fs media_duration rel w :
  reachable fs media_duration rel w -> well_formed w.
Proof.
  induction 1 as [c pc w Hstart | depth e w w' _ IH Hstep].
  - eapply wf_load_settings; [exact Hstart|apply well_formed_init].
  - eapply wf_dispatch; eassumption.
Qed.

(** X14: in every state that a session reaches by the events of [Event]
    (the buttons, sliders and boxes, the folder dialog, the fade timer and
    the notifications of the player; the choice of a single file in
    [open_file_dialog] is not among them) the playlist shows the catalog
    of the track manager, row for row; the list delivers its signals; and
    the selection is no row or a row of the list. *)
Theorem reachable_playlist_shows_catalog fs media_duration rel w :
  reachable fs media_duration rel w ->
  items (playlist w) = TrackManager.track_list (track_manager w) /\
  listSignalsBlocked (playlist w) = false /\
  (currentRow (playlist w) = -1 \/
   0 <= currentRow (playlist w) < count (playlist w)).
Proof.
  intros H. apply reachable_well_formed in H as ((H1 & _ & H2 & H3) & _).
  auto.
Qed.

Lemma reachable_playlist_shows_catalog_witness :
  items (playlist playing_all)
  = TrackManager.track_list (track_manager playing_all) /\
  listSignalsBlocked (playlist playing_all) = false /\
  (currentRow (playlist playing_all) = -1 \/
   0 <= currentRow (playlist playing_all) < count (playlist playing_all)).
Proof.
  apply (reachable_playlist_shows_catalog music music_duration no_saved_track).
  apply (after_reachable to_playing_all). vm_compute. reflexivity.
Defined.

(** X15: in every state that a session reaches by the events of [Event]
    the volume slider is within 0..100 and the speed slider within
    50..150, the playback rate of the player is between 0.5 and 1.5, and
    its gain between 0 and 1 (during a fade as well). *)
Theorem reachable_levels_in_range fs media_duration rel w :
  reachable fs media_duration rel w ->
  0 <= value (volume_slider w) <= 100 /\
  50 <= value (speed_slider w) <= 150 /\
  (1 # 2 <= playbackRate (audio_player w) <= 3 # 2)%Q /\
  (0 <= volume (audio_player w) <= 1)%Q.
Proof.
  intros H. apply reachable_well_formed in H as (_ & H & _).
  unfold ranges_ok in H. tauto.
Qed.

Lemma reachable_levels_in_range_witness :
  0 <= value (volume_slider resumed) <= 100 /\
  50 <= value (speed_slider resumed) <= 150 /\
  (1 # 2 <= playbackRate (audio_player resumed) <= 3 # 2)%Q /\
  (0 <= volume (audio_player resumed) <= 1)%Q.
Proof.
  apply (reachable_levels_in_range music music_duration no_saved_track).
  apply (after_reachable to_resumed). vm_compute. reflexivity.
Defined.

(** X16: in no state that a session reaches by the events of [Event] is
    the player playing or paused without a track loaded. *)
Theorem reachable_running_has_track fs media_duration rel w :
  reachable fs media_duration rel w ->
  playbackState (audio_player w) <> StoppedState ->
  exists url, current_track_url (audio_player w) = Some url.
Proof.
  intros H Hs. apply reachable_well_formed in H as (_ & _ & H).
  destruct (H Hs) as [url Hurl]. exists url. exact Hurl.
Qed.

Lemma reachable_running_has_track_witness :
  exists url, current_track_url (audio_player paused) = Some url.
Proof.
  apply (reachable_running_has_track music music_duration no_saved_track).
  - apply (after_reachable to_paused). vm_compute. reflexivity.
  - vm_compute. discriminate.
Defined.

(** X17: the handling of an event, in any state whatever, comes to its
    end with the slot of [playbackStateChanged] entered at most twice at a
    time (a delivery inside a delivery): the signals of the player never
    re-enter the window without end.  This holds with every change of the
    playback state delivered at once, as here; a change that the toolkit
    delivers later is not nested at all. *)
Theorem signals_nest_at_most_twice fs media_duration :
  (forall es w, is_Some (run fs media_duration 2 es w)) /\
  (forall e w, is_Some (dispatch fs media_duration 2 e w)).
Proof.
  split.
  - intros es w. apply run_total. lia.
  - intros e w. apply dispatch_total. lia.
Qed.

(* ===================================================================== *)
(** ** The search box, the arrow keys, pause and resume *)
(* ===================================================================== *)

(** X18: in every state that a session reaches by the events of [Event],
    the search box hides a row of the playlist exactly when the track
    manager marks its track as not visible for the text: the flags given
    to [setHidden], row by row, are the negated answers of
    [TrackManager.filter_tracks]. *)
Theorem search_hides_the_filtered_rows fs media_duration rel w text :
  reachable fs media_duration rel w ->
  Ui.filter_tracks text w
  = map (fun track => negb track.2)
      (TrackManager.filter_tracks (track_manager w) text).
Proof.
  intros H. apply reachable_well_formed in H as ((Hitems & _) & _).
  unfold Ui.filter_tracks. rewrite Hitems.
  set (tracks := TrackManager.track_list (track_manager w)).
  assert (exists visible : string -> bool,
             TrackManager.filter_tracks (track_manager w) text
             = map (fun track => (track, visible track)) tracks)
    as [visible ->].
  { unfold TrackManager.filter_tracks. fold tracks.
    destruct (String.eqb text ""); eexists (fun track => _); reflexivity. }
  rewrite map_map. cbn [snd].
  apply map_ext_in. intros item_text Hin. f_equal.
  apply eq_true_iff_eq. rewrite existsb_exists. split.
  - intros ([track v] & Hin' & Hv). cbn [fst snd] in Hv.
    apply in_map_iff in Hin' as (t & [= <- <-] & _).
    apply andb_true_iff in Hv as [Heq Hv].
    apply String.eqb_eq in Heq. subst. exact Hv.
  - intros Hv. exists (item_text, visible item_text). split.
    + apply in_map_iff. exists item_text. split; [reflexivity|exact Hin].
    + cbn [fst snd]. rewrite String.eqb_refl, Hv. reflexivity.
Qed.

Lemma search_hides_the_filtered_rows_witness :
  Ui.filter_tracks "FLAC" playing
  = map (fun track => negb track.2)
      (TrackManager.filter_tracks (track_manager playing) "FLAC").
Proof.
  apply (search_hides_the_filtered_rows music music_duration no_saved_track).
  apply (after_reachable to_playing). vm_compute. reflexivity.
Defined.

(** X19: in every state that a session reaches by the events of [Event],
    with a non-empty playlist, the Up and Down keys move the selection by
    one row and keep it on the list:
    Up stays at the first row, Down at the last; neither touches the
    entries of the list or the player. *)
Theorem arrow_keys_stay_in_list fs media_duration rel emit ctrl answers
    press_cancel w :
  reachable fs media_duration rel w ->
  0 < count (playlist w) ->
  exists up down,
    Ui.keyPressEvent fs media_duration emit Ui.Key_Up ctrl answers
      press_cancel w = Some up /\
    Ui.keyPressEvent fs media_duration emit Ui.Key_Down ctrl answers
      press_cancel w = Some down /\
    currentRow (playlist up) = Z.max 0 (currentRow (playlist w) - 1) /\
    currentRow (playlist down)
    = Z.min (count (playlist w) - 1) (currentRow (playlist w) + 1) /\
    0 <= currentRow (playlist up) < count (playlist up) /\
    0 <= currentRow (playlist down) < count (playlist down) /\
    items (playlist up) = items (playlist w) /\
    items (playlist down) = items (playlist w) /\
    audio_player up = audio_player w /\
    audio_player down = audio_player w.
Proof.
  intros H Hn. apply reachable_well_formed in H as ((_ & _ & _ & Hrow) & _).
  eexists. eexists.
  split; [destruct ctrl; reflexivity|]. split; [destruct ctrl; reflexivity|].
  rewrite !stopped_setCurrentRow.
  revert Hrow Hn.
  unfold playlist_setCurrentRow, setCurrentRow, count.
  destruct w as [ap tm us ig br bm bp vs ss [its row blk] ic brs bpv bn wn].
  cbn [playlist items currentRow listSignalsBlocked].
  intros Hrow Hn.
  destruct (Z.leb_spec 0 (Z.max 0 (row - 1))); [|lia].
  destruct (Z.ltb_spec (Z.max 0 (row - 1)) (Z.of_nat (length its))); [|lia].
  destruct (Z.leb_spec 0 (Z.min (Z.of_nat (length its) - 1) (row + 1)));
    [|lia].
  destruct (Z.ltb_spec (Z.min (Z.of_nat (length its) - 1) (row + 1))
              (Z.of_nat (length its))); [|lia].
  cbn [andb].
  destruct (Z.eqb_spec (Z.max 0 (row - 1)) row);
    destruct (Z.eqb_spec (Z.min (Z.of_nat (length its) - 1) (row + 1)) row);
    destruct blk; cbn; repeat split; lia.
Qed.

Lemma arrow_keys_stay_in_list_witness :
  exists up down,
    Ui.keyPressEvent music music_duration no_listener Ui.Key_Up false
      {| Ui.getExistingDirectory := ""; Ui.getOpenFileName := "" |}
      never_cancel opened = Some up /\
    Ui.keyPressEvent music music_duration no_listener Ui.Key_Down false
      {| Ui.getExistingDirectory := ""; Ui.getOpenFileName := "" |}
      never_cancel opened = Some down /\
    currentRow (playlist up) = Z.max 0 (currentRow (playlist opened) - 1) /\
    currentRow (playlist down)
    = Z.min (count (playlist opened) - 1) (currentRow (playlist opened) + 1) /\
    0 <= currentRow (playlist up) < count (playlist up) /\
    0 <= currentRow (playlist down) < count (playlist down) /\
    items (playlist up) = items (playlist opened) /\
    items (playlist down) = items (playlist opened) /\
    audio_player up = audio_player opened /\
    audio_player down = audio_player opened.
Proof.
  apply (arrow_keys_stay_in_list music music_duration no_saved_track).
  - apply (after_reachable [folder_opened "/music" never_cancel]).
    vm_compute. reflexivity.
  - vm_compute. reflexivity.
Defined.

(** [pause()] on a playing player with a track ends in [PausedState]. *)
Lemma pause_playing fs media_duration depth w url :
  (1 <= depth)%nat ->
  is_playing w = true ->
  current_track_url (audio_player w) = Some url ->
  pause (playbackStateChanged fs media_duration depth) w
  = Some (with_audio_player
            (fun p => ap_timer false (ap_state PausedState (ap_log pause_cmd p)))
            w).
Proof.
  intros Hd Hp Hurl. unfold pause, media_player_pause, setPlaybackState.
  destruct w as [ap tm us ig br bm bp vs ss pl ic rs bv bn wn].
  destruct ap as [st pos dur rate vol tmr u fade orig cmds].
  unfold is_playing in Hp. simpl in *. subst u.
  destruct st; try discriminate Hp.
  simpl. rewrite slot_ignores_paused by exact Hd. reflexivity.
Qed.

(** X20: the play/pause button pressed twice on a playing track pauses
    it and resumes it: the player is paused in between and playing at the
    end, on the same track at the same position, rate and gain, with the
    playlist untouched; the player is sent a pause and then a play, and
    nothing else. *)
Theorem pause_then_resume fs media_duration depth w url :
  (1 <= depth)%nat ->
  is_playing w = true ->
  current_track_url (audio_player w) = Some url ->
  let toggle :=
    toggle_play_pause fs media_duration
      (playbackStateChanged fs media_duration depth) in
  exists w1 w2,
    toggle w = Some w1 /\
    toggle w1 = Some w2 /\
    playbackState (audio_player w1) = PausedState /\
    btn_play_pause w1 = play_png /\
    playbackState (audio_player w2) = PlayingState /\
    btn_play_pause w2 = pause_png /\
    current_track_url (audio_player w2) = Some url /\
    position (audio_player w2) = position (audio_player w) /\
    playbackRate (audio_player w2) = playbackRate (audio_player w) /\
    volume (audio_player w2) = volume (audio_player w) /\
    playlist w2 = playlist w /\
    issued_since w w2 = [pause_cmd; play_cmd].
Proof.
  intros Hd Hp Hurl toggle. subst toggle.
  pose proof (pause_playing fs media_duration depth w url Hd Hp Hurl) as Hpause.
  set (w1 := with_btn_play_pause play_png
               (with_audio_player
                  (fun p => ap_timer false
                              (ap_state PausedState (ap_log pause_cmd p))) w)).
  assert (current_track_url (audio_player w1) = Some url) as Hurl1
      by exact Hurl.
  pose proof (play_loaded fs media_duration depth w1 url Hd Hurl1) as Hplay.
  exists w1. eexists.
  split; [|split].
  - unfold toggle_play_pause. rewrite Hp, Hpause. reflexivity.
  - unfold toggle_play_pause.
    change (is_playing w1) with false. cbv iota.
    rewrite Hurl1, Hplay. reflexivity.
  - repeat split; try exact Hurl.
    apply issued_since_app. cbn. rewrite <- app_assoc. reflexivity.
Qed.

Lemma pause_then_resume_witness :
  let toggle :=
    toggle_play_pause music music_duration
      (playbackStateChanged music music_duration signal_depth) in
  exists w1 w2,
    toggle playing = Some w1 /\
    toggle w1 = Some w2 /\
    playbackState (audio_player w1) = PausedState /\
    btn_play_pause w1 = play_png /\
    playbackState (audio_player w2) = PlayingState /\
    btn_play_pause w2 = pause_png /\
    current_track_url (audio_player w2) = Some "/music/a.mp3" /\
    position (audio_player w2) = position (audio_player playing) /\
    playbackRate (audio_player w2) = playbackRate (audio_player playing) /\
    volume (audio_player w2) = volume (audio_player playing) /\
    playlist w2 = playlist playing /\
    issued_since playing w2 = [pause_cmd; play_cmd].
Proof.
  apply (pause_then_resume music music_duration signal_depth playing
           "/music/a.mp3").
  - unfold signal_depth. lia.
  - vm_compute. reflexivity.
  - vm_compute. reflexivity.
Defined.

(* ===================================================================== *)
(** ** Saving the settings and loading them again *)
(* ===================================================================== *)

Lemma set_ok (c : ConfigManager.t) (key value : string) :
  ConfigManager.config_section c <> "DEFAULT" ->
  ConfigManager.plain value ->
  exists c',
    ConfigManager.set c key value = Py.Ok c' /\
    ConfigManager.config_section c' = ConfigManager.config_section c /\
    (forall k,
       ConfigManager.stored c' k
       = if String.eqb (Py.lower k) (Py.lower key) then Some value
         else ConfigManager.stored c k) /\
    (ConfigManager.all_plain c -> ConfigManager.all_plain c').
Proof.
  intros Hsec Hv.
  pose proof (set_plain c key value Hsec Hv) as Hset.
  eexists. split; [exact Hset|]. split; [reflexivity|]. split.
  - intros k. apply (stored_set c _ key value k Hsec Hv Hset).
  - intros Hall. apply (all_plain_set c _ key value Hsec Hv Hall Hset).
Qed.

Lemma get_all_plain (c : ConfigManager.t) (key fallback : string) :
  ConfigManager.all_plain c ->
  exists x, ConfigManager.get c key fallback = Py.Ok x.
Proof.
  intros Hall. destruct (ConfigManager.stored c key) as [s|] eqn:Hs.
  - exists (inl s). apply config_get_stored; [exact Hs|].
    apply (Hall key). exact Hs.
  - exists (inr fallback). apply config_get_missing. exact Hs.
Qed.

(** What [save_settings] leaves in the store. *)
Lemma save_settings_stored (toString : string -> string) (w : MainWindow)
    (c : ConfigManager.t) :
  ConfigManager.named_section c ->
  ConfigManager.all_plain c ->
  (forall folder,
     TrackManager.current_folder (track_manager w) = Some folder ->
     ConfigManager.plain folder) ->
  (forall url,
     current_track_url (audio_player w) = Some url ->
     ConfigManager.plain (toString url)) ->
  exists c',
    Ui.save_settings toString w c = Py.Ok c' /\
    ConfigManager.all_plain c' /\
    ConfigManager.stored c' "volume"
    = Some (Py.str_of_Z (value (volume_slider w))) /\
    ConfigManager.stored c' "speed"
    = Some (Py.str_of_Z (value (speed_slider w))) /\
    ConfigManager.stored c' "repeat"
    = Some (Py.str_of_bool (isChecked (btn_repeat w))) /\
    ConfigManager.stored c' "mute"
    = Some (Py.str_of_bool (isChecked (btn_mute w))) /\
    ConfigManager.stored c' "play_all"
    = Some (Py.str_of_bool (isChecked (btn_play_all w))).
Proof.
  intros [_ Hsec] Hall Hfolder Hurl. unfold Ui.save_settings.
  destruct (set_ok c "volume" _ Hsec (plain_str_of_Z (value (volume_slider w))))
    as (c1 & -> & S1 & G1 & A1).
  rewrite <- S1 in Hsec. cbn [mbind Py.result_bind].
  destruct (set_ok c1 "speed" _ Hsec (plain_str_of_Z (value (speed_slider w))))
    as (c2 & -> & S2 & G2 & A2).
  rewrite <- S2 in Hsec. cbn [mbind Py.result_bind].
  destruct (set_ok c2 "repeat" _ Hsec
              (plain_str_of_bool (isChecked (btn_repeat w))))
    as (c3 & -> & S3 & G3 & A3).
  rewrite <- S3 in Hsec. cbn [mbind Py.result_bind].
  destruct (set_ok c3 "mute" _ Hsec
              (plain_str_of_bool (isChecked (btn_mute w))))
    as (c4 & -> & S4 & G4 & A4).
  rewrite <- S4 in Hsec. cbn [mbind Py.result_bind].
  destruct (set_ok c4 "play_all" _ Hsec
              (plain_str_of_bool (isChecked (btn_play_all w))))
    as (c5 & -> & S5 & G5 & A5).
  rewrite <- S5 in Hsec. cbn [mbind Py.result_bind].
  assert (ConfigManager.all_plain c5) as Hall5
      by (apply A5, A4, A3, A2, A1, Hall).
  assert (forall k,
             Py.str_in k ["volume"; "speed"; "repeat"; "mute"; "play_all"] = true ->
             ConfigManager.stored c5 k
             = if String.eqb k "play_all"
               then Some (Py.str_of_bool (isChecked (btn_play_all w)))
               else if String.eqb k "mute"
               then Some (Py.str_of_bool (isChecked (btn_mute w)))
               else if String.eqb k "repeat"
               then Some (Py.str_of_bool (isChecked (btn_repeat w)))
               else if String.eqb k "speed"
               then Some (Py.str_of_Z (value (speed_slider w)))
               else Some (Py.str_of_Z (value (volume_slider w)))) as Hst5.
  { intros k Hk. unfold Py.str_in in Hk. cbn [existsb] in Hk.
    rewrite G5, G4, G3, G2, G1.
    repeat (apply orb_true_iff in Hk as [Hk|Hk];
            [apply String.eqb_eq in Hk; subst k; reflexivity|]).
    discriminate Hk. }
  (* the folder *)
  assert (exists c6,
             (if Py.truthy (TrackManager.current_folder (track_manager w))
              then ConfigManager.set c5 "last_folder"
                     (default "" (TrackManager.current_folder (track_manager w)))
              else Py.Ok c5) = Py.Ok c6 /\
             ConfigManager.config_section c6 <> "DEFAULT" /\
             ConfigManager.all_plain c6 /\
             (forall k,
                Py.str_in k ["volume"; "speed"; "repeat"; "mute"; "play_all"]
                = true ->
                ConfigManager.stored c6 k = ConfigManager.stored c5 k))
    as (c6 & -> & Hsec6 & Hall6 & Hst6).
  { destruct (TrackManager.current_folder (track_manager w)) as [folder|]
      eqn:Hf; cbn [Py.truthy default from_option id].
    - destruct (negb (String.eqb folder "")).
      + destruct (set_ok c5 "last_folder" folder Hsec (Hfolder folder eq_refl))
          as (c6 & -> & S6 & G6 & A6).
        exists c6. split; [reflexivity|]. split; [congruence|].
        split; [auto|]. intros k Hk. rewrite G6.
        unfold Py.str_in in Hk. cbn [existsb] in Hk.
        repeat (apply orb_true_iff in Hk as [Hk|Hk];
                [apply String.eqb_eq in Hk; subst k; reflexivity|]).
        discriminate Hk.
      + exists c5. auto.
    - exists c5. auto. }
  cbn [mbind Py.result_bind].
  assert (exists c7,
             match current_track_url (audio_player w) with
             | Some url => ConfigManager.set c6 "last_track" (toString url)
             | None => Py.Ok c6
             end = Py.Ok c7 /\
             ConfigManager.all_plain c7 /\
             (forall k,
                Py.str_in k ["volume"; "speed"; "repeat"; "mute"; "play_all"]
                = true ->
                ConfigManager.stored c7 k = ConfigManager.stored c6 k))
    as (c7 & -> & Hall7 & Hst7).
  { destruct (current_track_url (audio_player w)) as [url|] eqn:Hu.
    - destruct (set_ok c6 "last_track" (toString url) Hsec6 (Hurl url eq_refl))
        as (c7 & -> & S7 & G7 & A7).
      exists c7. split; [reflexivity|]. split; [auto|].
      intros k Hk. rewrite G7.
      unfold Py.str_in in Hk. cbn [existsb] in Hk.
      repeat (apply orb_true_iff in Hk as [Hk|Hk];
              [apply String.eqb_eq in Hk; subst k; reflexivity|]).
      discriminate Hk.
    - exists c6. auto. }
  exists c7. split; [reflexivity|]. split; [exact Hall7|].
  repeat split; rewrite Hst7, Hst6, Hst5 by reflexivity; reflexivity.
Qed.

(** The controls that the slots of [load_settings] leave alone. *)
Lemma controls_update_speed w :
  Ui.saved_controls (update_speed w) = Ui.saved_controls w.
Proof. unfold update_speed. case_match; reflexivity. Qed.

Lemma controls_update_volume w :
  Ui.saved_controls (update_volume w) = Ui.saved_controls w.
Proof. unfold update_volume. case_match; reflexivity. Qed.

Lemma controls_playlist_setCurrentRow r w :
  Ui.saved_controls (playlist_setCurrentRow r w) = Ui.saved_controls w.
Proof.
  unfold playlist_setCurrentRow, setCurrentRow. repeat case_match; reflexivity.
Qed.

Lemma controls_add_items tracks w :
  Ui.saved_controls (fold_left playlist_addItem tracks w) = Ui.saved_controls w.
Proof.
  revert w. induction tracks as [|t tracks IH]; intros w; [reflexivity|].
  cbn [fold_left]. rewrite IH. reflexivity.
Qed.

Lemma controls_open_folder fs path press_cancel w :
  Ui.saved_controls (open_folder fs path press_cancel w) = Ui.saved_controls w.
Proof.
  unfold open_folder.
  destruct (TrackManager.set_folder fs path tt (track_manager w))
    as [[ok tm] u].
  unfold populate_playlist.
  destruct (TrackManager.scan_folder _ _ _ _) as [[tracks tm'] d].
  change (Ui.saved_controls (update_skip_buttons ?x))
    with (Ui.saved_controls x).
  assert (Ui.saved_controls
            (fold_left playlist_addItem tracks
               (with_track_manager tm'
                  (playlist_clear (with_track_manager tm w))))
          = Ui.saved_controls w) as Hitems.
  { rewrite controls_add_items. unfold playlist_clear.
    repeat case_match; reflexivity. }
  case_match; rewrite ?controls_playlist_setCurrentRow; exact Hitems.
Qed.

(** The controls after each of the five settings of [load_settings]. *)
Lemma controls_volume_slider_setValue v w :
  minimum (volume_slider w) <= v <= maximum (volume_slider w) ->
  let w' := volume_slider_setValue v w in
  Ui.saved_controls w'
  = (v, value (speed_slider w), isChecked (btn_repeat w),
     isChecked (btn_mute w), isChecked (btn_play_all w)) /\
  speed_slider w' = speed_slider w /\
  btn_repeat w' = btn_repeat w /\ btn_play_all w' = btn_play_all w.
Proof.
  intros Hv. unfold volume_slider_setValue, setValue, update_volume.
  replace (Z.max (minimum (volume_slider w))
             (Z.min (maximum (volume_slider w)) v)) with v by lia.
  destruct (Z.eqb_spec v (value (volume_slider w))) as [->|Hne];
    repeat case_match; repeat split.
Qed.

Lemma controls_speed_slider_setValue v w :
  minimum (speed_slider w) <= v <= maximum (speed_slider w) ->
  let w' := speed_slider_setValue v w in
  Ui.saved_controls w'
  = (value (volume_slider w), v, isChecked (btn_repeat w),
     isChecked (btn_mute w), isChecked (btn_play_all w)) /\
  btn_repeat w' = btn_repeat w /\ btn_play_all w' = btn_play_all w.
Proof.
  intros Hv. unfold speed_slider_setValue, setValue, update_speed.
  replace (Z.max (minimum (speed_slider w))
             (Z.min (maximum (speed_slider w)) v)) with v by lia.
  destruct (Z.eqb_spec v (value (speed_slider w))) as [->|Hne];
    repeat case_match; repeat split.
Qed.

Lemma controls_btn_repeat_setChecked b w :
  (b && isChecked (btn_play_all w))%bool = false ->
  Ui.saved_controls (btn_repeat_setChecked b w)
  = (value (volume_slider w), value (speed_slider w), b,
     isChecked (btn_mute w), isChecked (btn_play_all w)).
Proof.
  unfold btn_repeat_setChecked, setChecked, on_repeat_toggled, Ui.saved_controls.
  destruct w as [ap tm us ig [r rb] bm [p pb] vs ss pl ic brs bpv bn wn].
  cbn [btn_repeat btn_play_all isChecked signalsBlocked].
  destruct b, r, p, rb; cbn; intros H; try discriminate H; reflexivity.
Qed.

Lemma controls_btn_play_all_setChecked b w :
  (b && isChecked (btn_repeat w))%bool = false ->
  Ui.saved_controls (btn_play_all_setChecked b w)
  = (value (volume_slider w), value (speed_slider w),
     isChecked (btn_repeat w), isChecked (btn_mute w), b).
Proof.
  unfold btn_play_all_setChecked, setChecked, on_play_all_toggled,
    Ui.saved_controls.
  destruct w as [ap tm us ig [r rb] bm [p pb] vs ss pl ic brs bpv bn wn].
  cbn [btn_repeat btn_play_all isChecked signalsBlocked].
  destruct b, r, p, pb; cbn; intros H; try discriminate H; reflexivity.
Qed.

Lemma controls_btn_mute_setChecked b w :
  Ui.saved_controls (btn_mute_setChecked b w)
  = (value (volume_slider w), value (speed_slider w),
     isChecked (btn_repeat w), b, isChecked (btn_play_all w)).
Proof.
  unfold btn_mute_setChecked, setChecked, toggle_mute, Ui.saved_controls.
  destruct w as [ap tm us ig br [m mb] bp vs ss pl ic brs bpv bn wn].
  cbn [btn_mute isChecked signalsBlocked].
  destruct b, m, mb; reflexivity.
Qed.

(** [load_settings], on a fresh window, of a store that holds five
    controls within their ranges. *)
Lemma load_settings_controls fs rel press_cancel (c : ConfigManager.t)
    (volume speed : Z) (rp mu pa : bool) :
  ConfigManager.all_plain c ->
  ConfigManager.stored c "volume" = Some (Py.str_of_Z volume) ->
  ConfigManager.stored c "speed" = Some (Py.str_of_Z speed) ->
  ConfigManager.stored c "repeat" = Some (Py.str_of_bool rp) ->
  ConfigManager.stored c "mute" = Some (Py.str_of_bool mu) ->
  ConfigManager.stored c "play_all" = Some (Py.str_of_bool pa) ->
  0 <= volume <= 100 -> 50 <= speed <= 150 -> (rp && pa)%bool = false ->
  exists w,
    load_settings fs rel c press_cancel init = Py.Ok w /\
    Ui.saved_controls w = (volume, speed, rp, mu, pa).
Proof.
  intros Hall Hv Hs Hr Hm Hp Hvol Hspeed Hmodes. unfold load_settings.
  rewrite (get_int_stored c "volume" volume 50 Hv).
  rewrite (get_int_stored c "speed" speed 100 Hs).
  rewrite (get_bool_stored c "repeat" rp false Hr).
  rewrite (get_bool_stored c "mute" mu false Hm).
  rewrite (get_bool_stored c "play_all" pa false Hp).
  destruct (get_all_plain c "last_folder" "" Hall) as [lf ->].
  destruct (get_all_plain c "last_track" "" Hall) as [lt ->].
  cbn [mbind Py.result_bind mret Py.result_ret].
  eexists. split; [reflexivity|].
  change (Ui.saved_controls (update_skip_buttons ?x))
    with (Ui.saved_controls x).
  rewrite controls_update_speed, controls_update_volume.
  set (w5 := btn_play_all_setChecked pa _).
  assert (Ui.saved_controls w5 = (volume, speed, rp, mu, pa)) as H5.
  { unfold w5.
    destruct (controls_volume_slider_setValue volume init) as (C1 & S1 & R1 & P1);
      [cbn; lia|].
    cbv zeta in *.
    set (w1 := volume_slider_setValue volume init) in *.
    destruct (controls_speed_slider_setValue speed w1) as (C2 & R2 & P2);
      [rewrite S1; cbn; lia|].
    cbv zeta in *.
    set (w2 := speed_slider_setValue speed w1) in *.
    assert (isChecked (btn_play_all w2) = false) as Hp2
        by (rewrite P2, P1; reflexivity).
    assert (isChecked (btn_repeat w2) = false) as Hr2
        by (rewrite R2, R1; reflexivity).
    pose proof (controls_btn_repeat_setChecked rp w2) as C3.
    rewrite Hp2, andb_false_r in C3. specialize (C3 eq_refl).
    set (w3 := btn_repeat_setChecked rp w2) in *.
    pose proof (controls_btn_mute_setChecked mu w3) as C4.
    set (w4 := btn_mute_setChecked mu w3) in *.
    pose proof (controls_btn_play_all_setChecked pa w4) as C5.
    unfold Ui.saved_controls in *.
    injection C1 as V1 _ _ _ _. injection C2 as V2 S2 _ _ _.
    injection C3 as V3 S3 R3 M3 P3. injection C4 as V4 S4 R4 M4 P4.
    assert ((pa && isChecked (btn_repeat w4))%bool = false) as Hpre
        by (rewrite R4, R3, andb_comm; exact Hmodes).
    rewrite (C5 Hpre), V4, S4, R4, M4, V3, S3, R3, V2, S2, V1.
    reflexivity. }
  repeat case_match;
    rewrite ?controls_playlist_setCurrentRow, ?controls_open_folder;
    exact H5.
Qed.

Lemma all_plain_new (config_file section : string) :
  ConfigManager.all_plain (ConfigManager.new config_file section).
Proof.
  intros key s. unfold ConfigManager.stored, ConfigManager.new.
  cbn [ConfigManager.config ConfigManager.config_section].
  rewrite lookup_singleton_eq. cbn [mbind option_bind].
  intros H. apply elem_of_list_to_map_2 in H.
  unfold ConfigManager.defaults in H.
  repeat (apply elem_of_cons in H as [[= _ ->]|H]; [reflexivity|]).
  apply elem_of_nil in H. contradiction.
Qed.

(** X21: the settings saved from any state that a session reaches by the
    events of [Event] come back at the next start: when the folder and the
    track URL have no percent sign,
    [save_settings] succeeds on a store of plain texts, and
    [load_settings] from that store sets a fresh window's volume and speed
    sliders and its repeat, mute and play-all boxes to what they were,
    whatever the file system then holds. *)
Theorem saved_settings_come_back (toString : string -> string)
    fs media_duration rel (w : MainWindow) (c : ConfigManager.t) :
  reachable fs media_duration rel w ->
  ConfigManager.named_section c ->
  ConfigManager.all_plain c ->
  (forall folder,
     TrackManager.current_folder (track_manager w) = Some folder ->
     ConfigManager.plain folder) ->
  (forall url,
     current_track_url (audio_player w) = Some url ->
     ConfigManager.plain (toString url)) ->
  exists c',
    Ui.save_settings toString w c = Py.Ok c' /\
    forall fs' rel' press_cancel,
    exists w',
      load_settings fs' rel' c' press_cancel init = Py.Ok w' /\
      Ui.saved_controls w' = Ui.saved_controls w.
Proof.
  intros Hreach Hsec Hall Hfolder Hurl.
  destruct (save_settings_stored toString w c Hsec Hall Hfolder Hurl)
    as (c' & Hsave & Hall' & Hv & Hs & Hr & Hm & Hp).
  exists c'. split; [exact Hsave|]. intros fs' rel' press_cancel.
  pose proof (reachable_well_formed _ _ _ _ Hreach) as (_ & Hranges & _).
  pose proof (reachable_modes_ok _ _ _ _ Hreach) as (_ & _ & Hmodes).
  apply (load_settings_controls fs' rel' press_cancel c' _ _ _ _ _
           Hall' Hv Hs Hr Hm Hp).
  - apply Hranges.
  - apply Hranges.
  - exact Hmodes.
Qed.

Lemma saved_settings_come_back_witness :
  exists c',
    Ui.save_settings (fun path => "file://" ++ path) playing_muted
      (ConfigManager.new "mini_player.ini" "Settings") = Py.Ok c' /\
    forall fs' rel' press_cancel,
    exists w',
      load_settings fs' rel' c' press_cancel init = Py.Ok w' /\
      Ui.saved_controls w' = Ui.saved_controls playing_muted.
Proof.
  apply (saved_settings_come_back (fun path => "file://" ++ path)
           music music_duration no_saved_track).
  - apply (after_reachable to_playing_muted). vm_compute. reflexivity.
  - split; discriminate.
  - apply all_plain_new.
  - intros folder H. vm_compute in H. injection H as <-. reflexivity.
  - intros url H. vm_compute in H. injection H as <-. reflexivity.
Defined.

(* ===================================================================== *)
(** ** A percent sign in a setting *)
(* ===================================================================== *)

Lemma list_ascii_of_string_app (a b : string) :
  list_ascii_of_string (a ++ b)
  = (list_ascii_of_string a ++ list_ascii_of_string b)%list.
Proof.
  induction a as [|c a IH]; [reflexivity|].
  rewrite append_cons. cbn [list_ascii_of_string app]. rewrite IH.
  reflexivity.
Qed.

Lemma drop_double_percent_cons (c1 c2 : ascii) (r : list ascii) :
  ConfigManager.drop_double_percent (c1 :: c2 :: r)
  = if (ConfigManager.is_percent c1 && ConfigManager.is_percent c2)%bool
    then ConfigManager.drop_double_percent r
    else c1 :: ConfigManager.drop_double_percent (c2 :: r).
Proof. reflexivity. Qed.

Lemma drop_references_cons (rounds : nat) (c1 c2 : ascii) (r : list ascii) :
  ConfigManager.drop_references (S rounds) (c1 :: c2 :: r)
  = if (ConfigManager.is_percent c1 && Ascii.eqb c2 "("%char)%bool then
      match ConfigManager.match_key r with
      | Some (_, rest) => ConfigManager.drop_references rounds rest
      | None => c1 :: ConfigManager.drop_references rounds (c2 :: r)
      end
    else c1 :: ConfigManager.drop_references rounds (c2 :: r).
Proof. reflexivity. Qed.

Lemma drop_double_percent_lone (la lb : list ascii) :
  ConfigManager.has_percent la = false ->
  ConfigManager.has_percent lb = false ->
  ConfigManager.drop_double_percent (la ++ "%"%char :: lb)
  = (la ++ "%"%char :: lb)%list.
Proof.
  intros Ha Hb. induction la as [|x la IH].
  - cbn [app]. destruct lb as [|c2 r]; [reflexivity|].
    rewrite drop_double_percent_cons.
    unfold ConfigManager.has_percent in Hb. cbn [existsb] in Hb.
    apply orb_false_iff in Hb as [Hc2 Hr].
    rewrite Hc2, andb_false_r. f_equal.
    apply drop_double_percent_plain.
    unfold ConfigManager.has_percent. cbn [existsb]. rewrite Hc2. exact Hr.
  - unfold ConfigManager.has_percent in Ha. cbn [existsb] in Ha.
    apply orb_false_iff in Ha as [Hx Hla]. specialize (IH Hla).
    cbn [app]. destruct (la ++ "%"%char :: lb)%list as [|c2 r] eqn:E.
    + destruct la; discriminate E.
    + rewrite drop_double_percent_cons, Hx. cbn [andb].
      f_equal. exact IH.
Qed.

Lemma drop_references_lone (rounds : nat) (la lb : list ascii) :
  ConfigManager.has_percent la = false ->
  ConfigManager.has_percent lb = false ->
  (forall r, lb <> "("%char :: r) ->
  ConfigManager.drop_references rounds (la ++ "%"%char :: lb)
  = (la ++ "%"%char :: lb)%list.
Proof.
  intros Ha Hb Hparen. revert la Ha.
  induction rounds as [|rounds IH]; intros la Ha; [reflexivity|].
  destruct la as [|x la].
  - cbn [app]. destruct lb as [|c2 r]; [reflexivity|].
    rewrite drop_references_cons.
    destruct (Ascii.eqb_spec c2 "("%char) as [->|Hne].
    + exfalso. apply (Hparen r). reflexivity.
    + rewrite andb_false_r. f_equal. apply drop_references_plain. exact Hb.
  - unfold ConfigManager.has_percent in Ha. cbn [existsb] in Ha.
    apply orb_false_iff in Ha as [Hx Hla]. specialize (IH la Hla).
    cbn [app]. destruct (la ++ "%"%char :: lb)%list as [|c2 r] eqn:E.
    + destruct la; discriminate E.
    + rewrite drop_references_cons, Hx. cbn [andb].
      f_equal. exact IH.
Qed.

Lemma has_percent_lone (la lb : list ascii) :
  ConfigManager.has_percent (la ++ "%"%char :: lb) = true.
Proof.
  unfold ConfigManager.has_percent. rewrite existsb_app. cbn [existsb].
  change (ConfigManager.is_percent "%"%char) with true.
  rewrite orb_true_r. reflexivity.
Qed.

(** A text with one percent sign that opens no reference is refused. *)
Lemma before_set_lone_percent (a b : string) :
  ConfigManager.plain a -> ConfigManager.plain b ->
  String.prefix "(" b = false ->
  ConfigManager.before_set (a ++ "%" ++ b) = Py.Raise Py.ValueError.
Proof.
  unfold ConfigManager.plain, ConfigManager.before_set. intros Ha Hb Hparen.
  rewrite !list_ascii_of_string_app.
  change (list_ascii_of_string "%") with ["%"%char]. cbn [app].
  assert (forall r, list_ascii_of_string b <> "("%char :: r) as Hp.
  { intros r Hr. destruct b as [|c b]; [discriminate Hr|].
    cbn [list_ascii_of_string] in Hr. injection Hr as -> _.
    cbn in Hparen. destruct b; discriminate Hparen. }
  rewrite (drop_double_percent_lone _ _ Ha Hb).
  rewrite (drop_references_lone _ _ _ Ha Hb Hp), has_percent_lone.
  reflexivity.
Qed.

Lemma lone_percent_nonempty (a b : string) : a ++ "%" ++ b <> "".
Proof. destruct a; discriminate. Qed.

Lemma set_lone_percent (c : ConfigManager.t) (key a b : string) :
  ConfigManager.plain a -> ConfigManager.plain b ->
  String.prefix "(" b = false ->
  ConfigManager.set c key (a ++ "%" ++ b) = Py.Raise Py.ValueError.
Proof.
  intros Ha Hb Hparen. unfold ConfigManager.set.
  destruct (negb (ConfigManager.has_section c (ConfigManager.config_section c))
            && String.eqb (ConfigManager.config_section c) "DEFAULT")%bool;
    [reflexivity|].
  cbn [mbind Py.result_bind].
  pose proof (lone_percent_nonempty a b) as Hne.
  apply String.eqb_neq in Hne. rewrite Hne.
  rewrite (before_set_lone_percent a b Ha Hb Hparen). reflexivity.
Qed.

(** X22: [set] refuses, with a [ValueError], every value that has a
    single percent sign which opens no [%(name)s] reference (as in
    [50%]), whatever the key and the state of the store. *)
Theorem set_refuses_lone_percent (c : ConfigManager.t) (key a b : string) :
  ConfigManager.plain a -> ConfigManager.plain b ->
  String.prefix "(" b = false ->
  ConfigManager.set c key (a ++ "%" ++ b) = Py.Raise Py.ValueError /\
  ConfigManager.before_set (a ++ "%" ++ b) = Py.Raise Py.ValueError.
Proof.
  intros Ha Hb Hparen. split.
  - apply set_lone_percent; assumption.
  - apply before_set_lone_percent; assumption.
Qed.

Lemma set_refuses_lone_percent_witness :
  ConfigManager.set settings_maybe "balance" ("50" ++ "%" ++ " left")
  = Py.Raise Py.ValueError /\
  ConfigManager.before_set ("50" ++ "%" ++ " left") = Py.Raise Py.ValueError.
Proof.
  apply (set_refuses_lone_percent settings_maybe "balance" "50" " left");
    reflexivity.
Defined.

(** X23: [save_settings] (and with it [closeEvent]) raises a
    [ValueError] when the name of the current folder has such a percent
    sign, as in [/music/100%]: the settings are not written. *)
Theorem save_settings_percent_folder (toString : string -> string)
    (w : MainWindow) (c : ConfigManager.t) (a b : string) :
  ConfigManager.named_section c ->
  TrackManager.current_folder (track_manager w) = Some (a ++ "%" ++ b) ->
  ConfigManager.plain a -> ConfigManager.plain b ->
  String.prefix "(" b = false ->
  Ui.save_settings toString w c = Py.Raise Py.ValueError.
Proof.
  intros [_ Hsec] Hfolder Ha Hb Hparen. unfold Ui.save_settings.
  destruct (set_ok c "volume" _ Hsec (plain_str_of_Z (value (volume_slider w))))
    as (c1 & -> & S1 & _).
  rewrite <- S1 in Hsec. cbn [mbind Py.result_bind].
  destruct (set_ok c1 "speed" _ Hsec (plain_str_of_Z (value (speed_slider w))))
    as (c2 & -> & S2 & _).
  rewrite <- S2 in Hsec. cbn [mbind Py.result_bind].
  destruct (set_ok c2 "repeat" _ Hsec
              (plain_str_of_bool (isChecked (btn_repeat w))))
    as (c3 & -> & S3 & _).
  rewrite <- S3 in Hsec. cbn [mbind Py.result_bind].
  destruct (set_ok c3 "mute" _ Hsec
              (plain_str_of_bool (isChecked (btn_mute w))))
    as (c4 & -> & S4 & _).
  rewrite <- S4 in Hsec. cbn [mbind Py.result_bind].
  destruct (set_ok c4 "play_all" _ Hsec
              (plain_str_of_bool (isChecked (btn_play_all w))))
    as (c5 & -> & S5 & _).
  cbn [mbind Py.result_bind].
  rewrite Hfolder. cbn [Py.truthy default from_option id].
  pose proof (lone_percent_nonempty a b) as Hne.
  apply String.eqb_neq in Hne. rewrite Hne. cbn [negb].
  rewrite (set_lone_percent c5 "last_folder" a b Ha Hb Hparen).
  reflexivity.
Qed.

Lemma save_settings_percent_folder_witness :
  Ui.save_settings (fun path => "file://" ++ path)
    (with_track_manager
       (TrackManager.set_current_folder (Some ("/music/100" ++ "%" ++ ""))
          TrackManager.init) init)
    (ConfigManager.new "mini_player.ini" "Settings")
  = Py.Raise Py.ValueError.
Proof.
  apply (save_settings_percent_folder (fun path => "file://" ++ path)
           (with_track_manager
              (TrackManager.set_current_folder
                 (Some ("/music/100" ++ "%" ++ "")) TrackManager.init) init)
           (ConfigManager.new "mini_player.ini" "Settings") "/music/100" "").
  - split; discriminate.
  - reflexivity.
  - reflexivity.
  - reflexivity.
  - reflexivity.
Defined.

(* ===================================================================== *)
(** ** Opening a folder; skipping *)
(* ===================================================================== *)

(** X24: opening a directory that exists shows its catalog in the
    playlist, in the order of the walk, with the first track selected (no
    row when there is none), whatever the user does with the Cancel
    button of the progress dialog; the manager holds the same catalog, and
    the player is not touched. *)
Theorem open_folder_shows_catalog fs (path : string)
    (press_cancel : Z -> Z -> bool) (w : MainWindow) :
  TrackManager.fs_exists fs (TrackManager.Path path) = true ->
  TrackManager.fs_is_dir fs (TrackManager.Path path) = true ->
  listSignalsBlocked (playlist w) = false ->
  let folder := TrackManager.Path path in
  let catalog :=
    TrackManager.catalog_of (track_manager w) folder
      (TrackManager.fs_walk fs folder) in
  let w' := open_folder fs path press_cancel w in
  items (playlist w') = catalog /\
  TrackManager.track_list (track_manager w') = catalog /\
  TrackManager.current_folder (track_manager w') = Some folder /\
  currentRow (playlist w') = match catalog with [] => -1 | _ => 0 end /\
  audio_player w' = audio_player w.
Proof.
  intros He Hd Hblk. cbv zeta. unfold open_folder.
  rewrite set_folder_result, He, Hd. cbn [andb]. cbv zeta.
  set (folder := TrackManager.Path path).
  set (catalog := TrackManager.catalog_of (track_manager w) folder
                    (TrackManager.fs_walk fs folder)).
  set (tm := TrackManager.set_track_list catalog
               (TrackManager.set_current_folder (Some folder)
                  (track_manager w))).
  unfold populate_playlist.
  destruct (playlist_clear_result (with_track_manager tm w))
    as (C1 & C2 & C3 & C4 & C5). cbv zeta in *.
  pose proof (scan_folder_result fs (Some (update_progress press_cancel))
                {| dialog_value := 0; wasCanceled := false |}
                (track_manager (playlist_clear (with_track_manager tm w))))
    as Hscan.
  destruct (TrackManager.scan_folder fs _ _
              (track_manager (playlist_clear (with_track_manager tm w))))
    as [[tracks tm'] d].
  cbn [fst] in Hscan. rewrite C4 in Hscan.
  cbn [track_manager with_track_manager] in Hscan.
  assert (Py.truthy (TrackManager.current_folder tm) = true) as Ht.
  { apply (truthy_folder tm folder eq_refl). apply Path_nonempty. }
  rewrite Ht in Hscan. cbv zeta in Hscan.
  change (default "" (TrackManager.current_folder tm)) with folder in Hscan.
  change (TrackManager.catalog_of tm folder (TrackManager.fs_walk fs folder))
    with catalog in Hscan.
  injection Hscan as -> ->.
  set (w1 := with_track_manager (TrackManager.set_track_list catalog tm)
               (playlist_clear (with_track_manager tm w))).
  destruct (add_items_result catalog w1) as (A1 & A2 & A3 & A4 & A5).
  cbv zeta in *.
  set (w2 := fold_left playlist_addItem catalog w1) in *.
  assert (items (playlist w2) = catalog) as Hitems.
  { rewrite A1. unfold w1. cbn [playlist with_track_manager]. rewrite C1.
    reflexivity. }
  assert (currentRow (playlist w2) = -1) as Hrow.
  { rewrite A2. unfold w1. cbn [playlist with_track_manager]. exact C2. }
  assert (listSignalsBlocked (playlist w2) = false) as Hblk2.
  { rewrite A3. unfold w1. cbn [playlist with_track_manager]. rewrite C3.
    exact Hblk. }
  assert (audio_player w2 = audio_player w) as Hap.
  { unfold player_view in A5, C5. injection A5 as _ _ ->.
    unfold w1. cbn [audio_player with_track_manager].
    injection C5 as _ _ ->. reflexivity. }
  assert (TrackManager.track_list (track_manager w2) = catalog) as Htl
      by (rewrite A4; reflexivity).
  assert (TrackManager.current_folder (track_manager w2) = Some folder) as Hcf
      by (rewrite A4; reflexivity).
  clearbody w2. clear A1 A2 A3 A4 A5 C1 C2 C3 C4 C5. clearbody w1 tm catalog.
  change (items (playlist (update_skip_buttons ?x))) with (items (playlist x)).
  change (track_manager (update_skip_buttons ?x)) with (track_manager x).
  change (currentRow (playlist (update_skip_buttons ?x)))
    with (currentRow (playlist x)).
  change (audio_player (update_skip_buttons ?x)) with (audio_player x).
  unfold count. rewrite Hitems.
  destruct (Z.ltb_spec 0 (Z.of_nat (length catalog))) as [Hpos|Hzero].
  - rewrite stopped_setCurrentRow, Hap.
    unfold playlist_setCurrentRow, setCurrentRow, count.
    rewrite Hitems, Hrow, Hblk2.
    apply Z.ltb_lt in Hpos. rewrite Hpos. cbn.
    rewrite Htl, Hcf. repeat split.
    destruct catalog; [discriminate Hpos|reflexivity].
  - rewrite Hitems, Htl, Hcf, Hrow, Hap. repeat split.
    destruct catalog; [reflexivity|cbn [length] in Hzero; lia].
Qed.

Lemma open_folder_shows_catalog_witness :
  let w' := open_folder music "/music" cancel_at_once started in
  items (playlist w') = ["a.mp3"; "b.flac"] /\
  TrackManager.track_list (track_manager w') = ["a.mp3"; "b.flac"] /\
  TrackManager.current_folder (track_manager w') = Some "/music" /\
  currentRow (playlist w') = 0 /\
  audio_player w' = audio_player started.
Proof.
  apply (open_folder_shows_catalog music "/music" cancel_at_once started);
    vm_compute; reflexivity.
Defined.

Lemma skip_buttons_playlist w : playlist (update_skip_buttons w) = playlist w.
Proof. reflexivity. Qed.

Lemma skip_buttons_audio w :
  audio_player (update_skip_buttons w) = audio_player w.
Proof. reflexivity. Qed.

(** The selection moves on by one row in [skip_to_next]. *)
Lemma skip_selects_next (w : MainWindow) :
  0 <= currentRow (playlist w) + 1 < count (playlist w) ->
  playlist_blockSignals false
    (playlist_setCurrentRow (currentRow (playlist w) + 1)
       (with_ignore_auto_advance true (playlist_blockSignals true w)))
  = with_playlist {| items := items (playlist w);
                     currentRow := currentRow (playlist w) + 1;
                     listSignalsBlocked := false |}
      (with_ignore_auto_advance true w).
Proof.
  intros Hr.
  destruct w as [ap tm us ig br bm bp vs ss pl ic rs bv bn wn].
  destruct pl as [its row blk].
  cbn [playlist currentRow] in *.
  unfold playlist_blockSignals, playlist_setCurrentRow.
  cbn [playlist with_playlist with_ignore_auto_advance listBlockSignals items
       currentRow listSignalsBlocked].
  rewrite setCurrentRow_moves; [reflexivity|exact Hr|simpl; lia].
Qed.

(** [play_selected_track] on a playing player that is to ignore the stop:
    the player is stopped, the selected track is loaded and played. *)
Lemma play_selected_track_playing fs media_duration depth (w : MainWindow)
    (track file_path : string) :
  (1 <= depth)%nat ->
  playbackState (audio_player w) = PlayingState ->
  ignore_auto_advance w = true ->
  currentItem (playlist w) = Some track ->
  TrackManager.get_absolute_path (track_manager w) track = Some file_path ->
  TrackManager.fs_exists fs file_path = true ->
  play_selected_track fs media_duration
    (playbackStateChanged fs media_duration depth) w
  = Some (track_started media_duration file_path
            (with_audio_player
               (fun p => ap_timer false
                           (ap_state StoppedState
                              (ap_log stop_cmd (ap_position 0 p)))) w)).
Proof.
  intros Hd Hst Hig Hitem Habs Hex.
  destruct depth as [|n]; [lia|].
  destruct w as [ap tm us ig br bm bp vs ss pl ic rs bv bn wn].
  destruct ap as [st pos dur rate vol tmr u fade orig cmds].
  cbn in Hst, Hig, Hitem, Habs. subst st ig.
  unfold play_selected_track, load_track.
  cbn [playlist track_manager].
  rewrite Hitem, Habs, !Hex.
  vm_compute. reflexivity.
Qed.

Lemma skip_buttons_track_manager w :
  track_manager (update_skip_buttons w) = track_manager w.
Proof. reflexivity. Qed.

Lemma track_started_track_manager media_duration file_path w :
  track_manager (track_started media_duration file_path w) = track_manager w.
Proof. destruct w. reflexivity. Qed.

(** X25: the next button pressed while a track plays, with a further row
    below the selection whose file is there: the selection moves down by
    one row, the player is stopped, and the track of that row is loaded,
    given the rate of the speed slider and told to play; no track in
    between is started, whatever the repeat and play-all boxes say.  The
    folder and the URL of the track holding no percent sign, the saving of
    the settings that ends [play_selected_track] returns.  The playback
    state at the return of the slot is left open: the toolkit starts a new
    source once it is loaded. *)
Theorem skip_to_next_plays_next fs media_duration depth
    (toString : string -> string) (c : ConfigManager.t) (w : MainWindow)
    (folder track : string) :
  (1 <= depth)%nat ->
  playbackState (audio_player w) = PlayingState ->
  0 <= currentRow (playlist w) + 1 < count (playlist w) ->
  item (playlist w) (currentRow (playlist w) + 1) = Some track ->
  TrackManager.current_folder (track_manager w) = Some folder ->
  folder <> "" ->
  TrackManager.fs_exists fs (TrackManager.path_join folder track) = true ->
  ConfigManager.plain folder ->
  ConfigManager.plain (toString (TrackManager.path_join folder track)) ->
  ConfigManager.config_section c <> "DEFAULT" ->
  exists w',
    skip_to_next fs media_duration
      (playbackStateChanged fs media_duration depth) w = Some w' /\
    currentRow (playlist w') = currentRow (playlist w) + 1 /\
    items (playlist w') = items (playlist w) /\
    current_track_url (audio_player w')
    = Some (TrackManager.path_join folder track) /\
    issued_since w w'
    = [stop_cmd; setSource (TrackManager.path_join folder track);
       setPlaybackRate (percent (value (speed_slider w))); play_cmd] /\
    exists c', Ui.save_settings toString w' c = Py.Ok c'.
Proof.
  intros Hd Hst Hrow Hitem Hfolder Hne Hex Hplain Hurlplain Hsec.
  unfold skip_to_next.
  destruct (Z.ltb_spec (currentRow (playlist w)) (count (playlist w) - 1))
    as [_|]; [|lia].
  cbv zeta. rewrite (skip_selects_next w Hrow).
  set (w1 := with_playlist _ (with_ignore_auto_advance true w)).
  assert (is_stopped w1 = false) as Hns.
  { unfold is_stopped, w1. cbn [audio_player with_playlist
                                 with_ignore_auto_advance].
    rewrite Hst. reflexivity. }
  rewrite Hns. cbn [negb].
  rewrite (play_selected_track_playing fs media_duration depth w1 track
             (TrackManager.path_join folder track) Hd Hst eq_refl Hitem
             (absolute_path_in_folder _ folder track Hfolder Hne) Hex).
  eexists. split; [reflexivity|].
  set (w2 := with_audio_player _ w1).
  destruct (track_started_facts media_duration
              (TrackManager.path_join folder track) w2)
    as (F1 & F2 & _ & _ & F5).
  cbv zeta in *.
  pose proof (track_started_track_manager media_duration
                (TrackManager.path_join folder track) w2) as Ftm.
  change (track_manager w2) with (track_manager w) in Ftm.
  set (w3 := track_started media_duration
               (TrackManager.path_join folder track) w2) in *.
  rewrite !skip_buttons_playlist, !skip_buttons_audio, F1, F2.
  split; [reflexivity|]. split; [reflexivity|]. split; [reflexivity|].
  split.
  - apply issued_since_app. rewrite skip_buttons_audio, F5.
    unfold w2, w1.
    cbn [audio_player with_audio_player with_playlist with_ignore_auto_advance
         commands ap_timer ap_state ap_log ap_position speed_slider].
    rewrite <- app_assoc. reflexivity.
  - apply save_settings_returns; [exact Hsec|]. split.
    + intros folder' Hf'.
      rewrite skip_buttons_track_manager, Ftm, Hfolder in Hf'.
      injection Hf' as <-. exact Hplain.
    + intros url Hu. rewrite skip_buttons_audio, F2 in Hu.
      injection Hu as <-. exact Hurlplain.
Qed.

Lemma skip_to_next_plays_next_witness :
  exists w',
    skip_to_next music music_duration
      (playbackStateChanged music music_duration signal_depth) playing
    = Some w' /\
    currentRow (playlist w') = currentRow (playlist playing) + 1 /\
    items (playlist w') = items (playlist playing) /\
    current_track_url (audio_player w')
    = Some (TrackManager.path_join "/music" "b.flac") /\
    issued_since playing w'
    = [stop_cmd; setSource (TrackManager.path_join "/music" "b.flac");
       setPlaybackRate (percent (value (speed_slider playing))); play_cmd] /\
    exists c',
      Ui.save_settings (fun path => "file://" ++ path) w' settings_maybe
      = Py.Ok c'.
Proof.
  apply (skip_to_next_plays_next music music_duration signal_depth
           (fun path => "file://" ++ path) settings_maybe playing
           "/music" "b.flac").
  - unfold signal_depth. lia.
  - vm_compute. reflexivity.
  - vm_compute. split; [discriminate|reflexivity].
  - vm_compute. reflexivity.
  - vm_compute. reflexivity.
  - discriminate.
  - vm_compute. reflexivity.
  - reflexivity.
  - reflexivity.
  - discriminate.
Defined.

Lemma skip_selects (r : Z) (w : MainWindow) :
  0 <= r < count (playlist w) -> r <> currentRow (playlist w) ->
  playlist_blockSignals false
    (playlist_setCurrentRow r
       (with_ignore_auto_advance true (playlist_blockSignals true w)))
  = with_playlist {| items := items (playlist w);
                     currentRow := r;
                     listSignalsBlocked := false |}
      (with_ignore_auto_advance true w).
Proof.
  intros Hr Hne.
  destruct w as [ap tm us ig br bm bp vs ss pl ic rs bv bn wn].
  destruct pl as [its row blk].
  cbn [playlist currentRow] in *.
  unfold playlist_blockSignals, playlist_setCurrentRow.
  cbn [playlist with_playlist with_ignore_auto_advance listBlockSignals items
       currentRow listSignalsBlocked].
  rewrite setCurrentRow_moves; [reflexivity|exact Hr|exact Hne].
Qed.

(** X26: on a stopped player the skip buttons move the selection and
    nothing else: next selects the row below without a command to the
    player, and previous after it brings the playlist back to where it
    was. *)
Theorem skip_on_stopped_player_selects_only fs media_duration emit
    (w : MainWindow) :
  playbackState (audio_player w) = StoppedState ->
  listSignalsBlocked (playlist w) = false ->
  0 <= currentRow (playlist w) ->
  currentRow (playlist w) + 1 < count (playlist w) ->
  exists w1 w2,
    skip_to_next fs media_duration emit w = Some w1 /\
    skip_to_previous fs media_duration emit w1 = Some w2 /\
    currentRow (playlist w1) = currentRow (playlist w) + 1 /\
    items (playlist w1) = items (playlist w) /\
    audio_player w1 = audio_player w /\
    btn_prev w1 = true /\
    playlist w2 = playlist w /\
    audio_player w2 = audio_player w.
Proof.
  intros Hst Hblk H0 H1.
  destruct w as [ap tm us ig br bm bp vs ss [its row blk] ic rs bv bn wn].
  unfold count in H1.
  cbn [playlist currentRow listSignalsBlocked audio_player items] in *.
  subst blk.
  set (w := {| audio_player := ap; track_manager := tm; user_stopped := us;
               ignore_auto_advance := ig; btn_repeat := br; btn_mute := bm;
               btn_play_all := bp; volume_slider := vs; speed_slider := ss;
               playlist := {| items := its; currentRow := row;
                              listSignalsBlocked := false |};
               btn_play_pause := ic; btn_reset := rs; btn_prev := bv;
               btn_next := bn; warnings := wn |}).
  assert (count (playlist w) = Z.of_nat (length its)) as Hcount by reflexivity.
  set (w1 := update_skip_buttons
               (with_playlist {| items := its; currentRow := row + 1;
                                 listSignalsBlocked := false |}
                  (with_ignore_auto_advance true w))).
  set (w2 := update_skip_buttons
               (with_playlist {| items := its; currentRow := row;
                                 listSignalsBlocked := false |}
                  (with_ignore_auto_advance true w1))).
  exists w1, w2.
  assert (skip_to_next fs media_duration emit w = Some w1) as Hnext.
  { unfold skip_to_next. change (currentRow (playlist w)) with row.
    rewrite Hcount.
    destruct (Z.ltb_spec row (Z.of_nat (length its) - 1)); [|lia].
    cbv zeta. rewrite (skip_selects (row + 1) w);
      [|rewrite Hcount; lia|cbn; lia].
    unfold is_stopped, w.
    cbn [audio_player with_playlist with_ignore_auto_advance].
    rewrite Hst. reflexivity. }
  assert (skip_to_previous fs media_duration emit w1 = Some w2) as Hprev.
  { unfold skip_to_previous.
    change (currentRow (playlist w1)) with (row + 1).
    destruct (Z.ltb_spec 0 (row + 1)); [|lia].
    cbv zeta. rewrite (skip_selects (row + 1 - 1) w1);
      [|unfold count, w1; cbn; lia|unfold w1; cbn; lia].
    unfold is_stopped, w1 at 2, w.
    cbn [audio_player with_playlist with_ignore_auto_advance
         update_skip_buttons with_skip_buttons].
    rewrite Hst. cbn [PlaybackState_eqb negb mbind option_bind].
    unfold w2. replace (row + 1 - 1) with row by lia. reflexivity. }
  split; [exact Hnext|]. split; [exact Hprev|].
  cbn. repeat split.
  destruct (Z.ltb_spec 0 (row + 1)); [reflexivity|lia].
Qed.

Lemma skip_on_stopped_player_selects_only_witness :
  exists w1 w2,
    skip_to_next music music_duration no_listener opened = Some w1 /\
    skip_to_previous music music_duration no_listener w1 = Some w2 /\
    currentRow (playlist w1) = currentRow (playlist opened) + 1 /\
    items (playlist w1) = items (playlist opened) /\
    audio_player w1 = audio_player opened /\
    btn_prev w1 = true /\
    playlist w2 = playlist opened /\
    audio_player w2 = audio_player opened.
Proof.
  apply (skip_on_stopped_player_selects_only music music_duration no_listener
           opened).
  - vm_compute. reflexivity.
  - vm_compute. reflexivity.
  - vm_compute. discriminate.
  - vm_compute. reflexivity.
Defined.
Lemma playlist_setCurrentRow_moves (r : Z) (w : MainWindow) :
  0 <= r < count (playlist w) -> r <> currentRow (playlist w) ->
  playlist (playlist_setCurrentRow r w)
  = {| items := items (playlist w); currentRow := r;
       listSignalsBlocked := listSignalsBlocked (playlist w) |} /\
  track_manager (playlist_setCurrentRow r w) = track_manager w /\
  audio_player (playlist_setCurrentRow r w) = audio_player w.
Proof.
  intros Hr Hne. unfold playlist_setCurrentRow.
  rewrite (setCurrentRow_moves _ r Hr Hne).
  destruct (negb (listSignalsBlocked (playlist w))); repeat split.
Qed.

(** X27: with the folder dialog dismissed and a file chosen in the file
    dialog, whose folder ([str(Path(file).parent)], as [pathlib] spells
    it) is a directory, [open_file_dialog] lists that one file by its base
    name and selects it, while the track manager takes the folder and
    catalogues all of it; the selected entry resolves to a path in that
    folder, and the player is not touched.  The folder and the URL of the
    loaded track, if any, holding no percent sign, the saving of the
    settings that ends the slot returns. *)
Theorem open_single_file fs (toString : string -> string)
    (c : ConfigManager.t) (answers : Ui.QFileDialog)
    (press_cancel : Z -> Z -> bool) (w : MainWindow) (file : string) :
  Ui.getExistingDirectory answers = "" ->
  Ui.getOpenFileName answers = file ->
  file <> "" ->
  let folder := TrackManager.Path (Ui.parent file) in
  let name := Ui.basename file in
  TrackManager.fs_exists fs folder = true ->
  TrackManager.fs_is_dir fs folder = true ->
  ConfigManager.plain folder ->
  (forall url,
     current_track_url (audio_player w) = Some url ->
     ConfigManager.plain (toString url)) ->
  ConfigManager.config_section c <> "DEFAULT" ->
  let w' := Ui.open_file_dialog fs answers press_cancel w in
  items (playlist w') = [name] /\
  currentRow (playlist w') = 0 /\
  currentItem (playlist w') = Some name /\
  TrackManager.current_folder (track_manager w') = Some folder /\
  TrackManager.track_list (track_manager w')
  = TrackManager.catalog_of (track_manager w) folder
      (TrackManager.fs_walk fs folder) /\
  TrackManager.get_absolute_path (track_manager w') name
  = Some (TrackManager.path_join folder name) /\
  audio_player w' = audio_player w /\
  exists c', Ui.save_settings toString w' c = Py.Ok c'.
Proof.
  intros Hdirdlg Hfile Hne folder name He Hd Hplain Hurl Hsec. cbv zeta.
  unfold Ui.open_file_dialog. rewrite Hdirdlg, Hfile.
  change (negb (String.eqb "" "")) with false. cbv iota.
  apply String.eqb_neq in Hne. rewrite Hne. cbn [negb].
  rewrite set_folder_result. fold folder. fold name.
  rewrite He, Hd. cbn [andb]. cbv zeta.
  assert (folder <> "") as Hfne by apply Path_nonempty.
  clearbody folder name.
  set (catalog := TrackManager.catalog_of (track_manager w) folder
                    (TrackManager.fs_walk fs folder)).
  set (tm := TrackManager.set_track_list catalog
               (TrackManager.set_current_folder (Some folder)
                  (track_manager w))).
  destruct (playlist_clear_result (with_track_manager tm w))
    as (C1 & C2 & C3 & C4 & C5). cbv zeta in *.
  set (w1 := playlist_clear (with_track_manager tm w)) in *.
  assert (audio_player w1 = audio_player w) as Hap.
  { unfold player_view in C5. injection C5 as _ _ ->. reflexivity. }
  set (w2 := playlist_addItem w1 name).
  assert (items (playlist w2) = [name]) as Hitems
      by (unfold w2; cbn; rewrite C1; reflexivity).
  assert (currentRow (playlist w2) = -1) as Hrow by exact C2.
  destruct (playlist_setCurrentRow_moves 0 w2) as (S1 & S2 & S3).
  { unfold count. rewrite Hitems. cbn. lia. }
  { rewrite Hrow. discriminate. }
  assert (track_manager (playlist_setCurrentRow 0 w2) = tm) as Htm.
  { rewrite S2. change (track_manager w2) with (track_manager w1).
    rewrite C4. reflexivity. }
  assert (audio_player (playlist_setCurrentRow 0 w2) = audio_player w)
    as Hap2.
  { rewrite S3. change (audio_player w2) with (audio_player w1). exact Hap. }
  unfold currentItem, item. rewrite S1, Htm, Hap2.
  cbn [items currentRow]. rewrite Hitems.
  split; [reflexivity|]. split; [reflexivity|]. split; [reflexivity|].
  split; [reflexivity|]. split; [reflexivity|]. split.
  - apply (absolute_path_in_folder tm folder name eq_refl Hfne).
  - split; [reflexivity|].
    apply save_settings_returns; [exact Hsec|]. split.
    + intros folder' Hf'. rewrite Htm in Hf'. injection Hf' as <-.
      exact Hplain.
    + intros url Hu. rewrite Hap2 in Hu. apply Hurl. exact Hu.
Qed.

Lemma open_single_file_witness :
  let w' :=
    Ui.open_file_dialog music
      {| Ui.getExistingDirectory := "";
         Ui.getOpenFileName := "/music//b.flac" |}
      never_cancel playing in
  items (playlist w') = ["b.flac"] /\
  currentRow (playlist w') = 0 /\
  currentItem (playlist w') = Some "b.flac" /\
  TrackManager.current_folder (track_manager w') = Some "/music" /\
  TrackManager.track_list (track_manager w')
  = TrackManager.catalog_of (track_manager playing) "/music"
      (TrackManager.fs_walk music "/music") /\
  TrackManager.get_absolute_path (track_manager w') "b.flac"
  = Some "/music/b.flac" /\
  audio_player w' = audio_player playing /\
  exists c',
    Ui.save_settings (fun path => "file://" ++ path) w' settings_maybe
    = Py.Ok c'.
Proof.
  assert (Hne : "/music//b.flac" <> "") by discriminate.
  assert (Hurl : forall url,
     current_track_url (audio_player playing) = Some url ->
     ConfigManager.plain ((fun path => "file://" ++ path) url)).
  { intros url Hu. vm_compute in Hu. injection Hu as <-. reflexivity. }
  assert (Hsec : ConfigManager.config_section settings_maybe <> "DEFAULT")
    by discriminate.
  pose proof (open_single_file music (fun path => "file://" ++ path)
           settings_maybe
           {| Ui.getExistingDirectory := "";
              Ui.getOpenFileName := "/music//b.flac" |}
           never_cancel playing "/music//b.flac" eq_refl eq_refl Hne eq_refl
           eq_refl eq_refl Hurl Hsec) as H.
  exact H.
Defined.
